(** * ES6 module to AMD conversion: a shallow embedding of [src/module.js]

    The class [Module] of [src/module.js] rewrites the syntax tree of an
    ES6 module into one [define(...)] call.  The tree is an ESTree value,
    that is a JavaScript object graph; it is embedded here as the type
    [value] of JavaScript data, and every method of the class becomes a
    function on the body of the program node.

    Conventions of the embedding:
    - reading a property of a value that is not an object gives
      [VUndefined] (JavaScript raises a TypeError on [undefined] and
      [null]; ESTree input never reaches such a read);
    - the embedding has no error path: its functions are total and
      return a value also where the source raises, which it does in
      such a read and in the call of [hasOwnProperty] once a module
      named [hasOwnProperty] has been given a parameter; a property
      proved of a result holds of the source whenever it returns;
    - objects are compared structurally where the source compares
      primitives with [===];
    - the tree is mutated in place by the source; the embedding passes the
      body of the program node from one step to the next. *)

From Stdlib Require Import String Ascii List Bool ZArith Lia Arith.
From Stdlib Require Import DecimalString.
Import ListNotations.
Open Scope string_scope.
Open Scope list_scope.

(** ** JavaScript values *)

#[local] Unset Elimination Schemes.
Inductive value : Type :=
| VUndefined
| VNull
| VBool (b : bool)
| VNum (n : Z)
| VStr (s : string)
| VArr (items : list value)
| VObj (fields : list (string * value)).
#[local] Set Elimination Schemes.

(** The induction principle that reaches below arrays and objects. *)
Section Induction.
Variable P : value -> Prop.
Hypothesis Hundef : P VUndefined.
Hypothesis Hnull : P VNull.
Hypothesis Hbool : forall b, P (VBool b).
Hypothesis Hnum : forall n, P (VNum n).
Hypothesis Hstr : forall s, P (VStr s).
Hypothesis Harr : forall xs, (forall x, In x xs -> P x) -> P (VArr xs).
Hypothesis Hobj : forall fs, (forall k x, In (k, x) fs -> P x) -> P (VObj fs).

Fixpoint value_deep_ind (v : value) : P v :=
  match v with
  | VUndefined => Hundef
  | VNull => Hnull
  | VBool b => Hbool b
  | VNum n => Hnum n
  | VStr s => Hstr s
  | VArr xs =>
      Harr xs
        ((fix items (l : list value) : forall x, In x l -> P x :=
            match l with
            | [] => fun _ (H : False) => match H with end
            | y :: l' => fun x H =>
                match H with
                | or_introl e => eq_ind y P (value_deep_ind y) x e
                | or_intror H' => items l' x H'
                end
            end) xs)
  | VObj fs =>
      Hobj fs
        ((fix fields (l : list (string * value))
            : forall k x, In (k, x) l -> P x :=
            match l with
            | [] => fun _ _ (H : False) => match H with end
            | (k', y) :: l' => fun k x H =>
                match H with
                | or_introl e =>
                    eq_ind y P (value_deep_ind y) x (f_equal snd e)
                | or_intror H' => fields l' k x H'
                end
            end) fs)
  end.
End Induction.

(** Structural equality, the model of [===] on primitives. *)
Fixpoint value_eqb (a b : value) : bool :=
  match a, b with
  | VUndefined, VUndefined => true
  | VNull, VNull => true
  | VBool x, VBool y => Bool.eqb x y
  | VNum x, VNum y => Z.eqb x y
  | VStr x, VStr y => String.eqb x y
  | VArr xs, VArr ys =>
      (fix items (l m : list value) : bool :=
         match l, m with
         | [], [] => true
         | x :: l', y :: m' => value_eqb x y && items l' m'
         | _, _ => false
         end) xs ys
  | VObj fs, VObj gs =>
      (fix fields (l m : list (string * value)) : bool :=
         match l, m with
         | [], [] => true
         | (k, x) :: l', (k', y) :: m' =>
             String.eqb k k' && value_eqb x y && fields l' m'
         | _, _ => false
         end) fs gs
  | _, _ => false
  end.

(** [ToString] of a value, as used by [+] and by property keys. *)
Definition number_to_string (n : Z) : string :=
  NilZero.string_of_int (Z.to_int n).

Fixpoint join (sep : string) (l : list string) : string :=
  match l with
  | [] => ""
  | [s] => s
  | s :: l' => s ++ sep ++ join sep l'
  end.

Fixpoint to_string (v : value) : string :=
  match v with
  | VUndefined => "undefined"
  | VNull => "null"
  | VBool true => "true"
  | VBool false => "false"
  | VNum n => number_to_string n
  | VStr s => s
  | VArr xs =>
      join ","
        (map (fun x => match x with
                       | VUndefined | VNull => ""
                       | _ => to_string x
                       end) xs)
  | VObj _ => "[object Object]"
  end.

(** Truthiness: [undefined], [null], [false], [0] and the empty string
    are falsy. *)
Definition truthy (v : value) : bool :=
  match v with
  | VUndefined | VNull => false
  | VBool b => b
  | VNum n => negb (Z.eqb n 0)
  | VStr s => negb (String.eqb s "")
  | VArr _ | VObj _ => true
  end.

(** [a + b] where one operand is a string: the concatenation of the two
    [ToString] images.  The source uses [+] only in
    [item.element + item.param], whose left operand is the string of a
    module specifier.  (With two operands that are neither strings nor
    objects JavaScript adds numbers; what is proved of the key below is
    stated for module specifiers that are strings.) *)
Definition js_add (a b : value) : value := VStr (to_string a ++ to_string b).

(** Property read [o.k]. *)
Fixpoint lookup (k : string) (fs : list (string * value)) : value :=
  match fs with
  | [] => VUndefined
  | (k', x) :: fs' => if String.eqb k k' then x else lookup k fs'
  end.

Definition get (k : string) (v : value) : value :=
  match v with
  | VObj fs => lookup k fs
  | _ => VUndefined
  end.

(** Property write [o.k = x]: an existing key keeps its place, a new key
    goes last. *)
Fixpoint assign (k : string) (x : value) (fs : list (string * value))
  : list (string * value) :=
  match fs with
  | [] => [(k, x)]
  | (k', y) :: fs' =>
      if String.eqb k k' then (k', x) :: fs' else (k', y) :: assign k x fs'
  end.

Definition set_field (k : string) (x : value) (v : value) : value :=
  match v with
  | VObj fs => VObj (assign k x fs)
  | _ => v
  end.

(** [a.length] of an array. *)
Definition array_length (v : value) : value :=
  match v with
  | VArr xs => VNum (Z.of_nat (List.length xs))
  | _ => VUndefined
  end.

(** [a.map(f)] of an array. *)
Definition array_map (f : value -> value) (v : value) : value :=
  match v with
  | VArr xs => VArr (map f xs)
  | _ => VUndefined
  end.

(** [node.type === ty]. *)
Definition has_type (ty : string) (v : value) : bool :=
  value_eqb (get "type" v) (VStr ty).

(** [names.indexOf(x)], [None] for [-1]. *)
Fixpoint indexOf (x : value) (l : list value) : option nat :=
  match l with
  | [] => None
  | y :: l' =>
      if value_eqb y x then Some 0%nat
      else match indexOf x l' with
           | Some i => Some (S i)
           | None => None
           end
  end.


(** ** ESTree nodes

    The node shapes the program reads or builds.  A node is an object
    with a [type] property; the input shapes list their properties as an
    ESTree parser does. *)

Definition Identifier (name : value) : value :=
  VObj [("type", VStr "Identifier"); ("name", name)].

Definition Literal (v : value) : value :=
  VObj [("type", VStr "Literal"); ("value", v)].

Definition ExpressionStatement (expression : value) : value :=
  VObj [("type", VStr "ExpressionStatement"); ("expression", expression)].

Definition ReturnStatement (argument : value) : value :=
  VObj [("type", VStr "ReturnStatement"); ("argument", argument)].

Definition MemberExpression (object property : value) : value :=
  VObj [("type", VStr "MemberExpression");
        ("object", object); ("property", property)].

Definition ImportDeclaration (specifiers : list value) (source : string)
  : value :=
  VObj [("type", VStr "ImportDeclaration");
        ("specifiers", VArr specifiers);
        ("source", Literal (VStr source))].

Definition ImportDefaultSpecifier (local : string) : value :=
  VObj [("type", VStr "ImportDefaultSpecifier");
        ("local", Identifier (VStr local))].

Definition ImportNamespaceSpecifier (local : string) : value :=
  VObj [("type", VStr "ImportNamespaceSpecifier");
        ("local", Identifier (VStr local))].

Definition ImportSpecifier (imported local : string) : value :=
  VObj [("type", VStr "ImportSpecifier");
        ("local", Identifier (VStr local));
        ("imported", Identifier (VStr imported))].

Definition ExportDefaultDeclaration (declaration : value) : value :=
  VObj [("type", VStr "ExportDefaultDeclaration");
        ("declaration", declaration)].

Definition ExportNamedDeclaration (declaration : value)
  (specifiers : list value) : value :=
  VObj [("type", VStr "ExportNamedDeclaration");
        ("declaration", declaration);
        ("specifiers", VArr specifiers);
        ("source", VNull)].

Definition ExportSpecifier (local exported : value) : value :=
  VObj [("type", VStr "ExportSpecifier");
        ("local", local); ("exported", exported)].

Definition VariableDeclarator (id init : value) : value :=
  VObj [("type", VStr "VariableDeclarator"); ("id", id); ("init", init)].

Definition VariableDeclaration (declarations : list value) (kind : string)
  : value :=
  VObj [("type", VStr "VariableDeclaration");
        ("declarations", VArr declarations);
        ("kind", VStr kind)].

Definition CallExpression (callee : value) (arguments : list value)
  : value :=
  VObj [("type", VStr "CallExpression");
        ("callee", callee); ("arguments", VArr arguments)].

(** The nodes of the emitted call and of the export object, with the
    properties the program writes. *)
Definition ArrayExpression (elements : list value) : value :=
  VObj [("type", VStr "ArrayExpression"); ("elements", VArr elements)].

Definition BlockStatement (body : list value) : value :=
  VObj [("type", VStr "BlockStatement"); ("body", VArr body)].

Definition FunctionExpression (params : list value) (body : list value)
  : value :=
  VObj [("type", VStr "FunctionExpression");
        ("params", VArr params);
        ("body", BlockStatement body)].

Definition Property (key val shorthand : value) : value :=
  VObj [("type", VStr "Property");
        ("key", key);
        ("value", val);
        ("shorthand", shorthand);
        ("kind", VStr "init")].

Definition ObjectExpression (properties : list value) : value :=
  VObj [("type", VStr "ObjectExpression");
        ("properties", VArr properties)].

(** ** The tree library

    [Module] extends the class of the [abstract-syntax-tree] package.  An
    instance holds a program node; [tree] is the [body] array of that
    node.  The program node itself has none of the node types the
    program asks for. *)

Definition tree : Type := list value.

(** Modelled from the spec: the tree library is not part of the source;
    [find(kind)] returns the "ordered list of matching nodes (document
    order)".  A node comes before the nodes below it, and the nodes
    below it are reached through its properties in their order. *)
Fixpoint find_in (ty : string) (v : value) : list value :=
  match v with
  | VArr xs => flat_map (find_in ty) xs
  | VObj fs =>
      (if has_type ty v then [v] else [])
        ++ flat_map (fun f => find_in ty (snd f)) fs
  | _ => []
  end.

Definition find (ty : string) (t : tree) : list value :=
  flat_map (find_in ty) t.

(** Modelled from the spec: [has(kind)] holds when "any node of kind
    exists". *)
Definition has (ty : string) (t : tree) : bool :=
  match find ty t with
  | [] => false
  | _ :: _ => true
  end.

(** Modelled from the spec: [remove(predicate)] "deletes all matching
    nodes in place".  A matching element of an array is dropped; a
    matching node held by a property leaves [null] there.  Nothing below
    a deleted node is visited. *)
Section RemoveItems.
Variable matches : value -> bool.
Variable below : value -> value.

Fixpoint remove_items (xs : list value) : list value :=
  match xs with
  | [] => []
  | x :: xs' =>
      if matches x then remove_items xs' else below x :: remove_items xs'
  end.

Definition remove_field (f : string * value) : string * value :=
  (fst f, if matches (snd f) then VNull else below (snd f)).
End RemoveItems.

Fixpoint remove_in (matches : value -> bool) (v : value) : value :=
  match v with
  | VArr xs => VArr (remove_items matches (remove_in matches) xs)
  | VObj fs => VObj (map (remove_field matches (remove_in matches)) fs)
  | _ => v
  end.

Definition remove (matches : value -> bool) (t : tree) : tree :=
  remove_items matches (remove_in matches) t.

(** Modelled from the spec: [replace({leave})] is the "post-order /
    bottom-up" traversal "returning, per visited node, either the same
    node or its replacement"; "returning nothing keeps the node
    unchanged".  The visitor sees a node after the nodes below it. *)
Definition keep_or (v : value) (r : option value) : value :=
  match r with
  | Some w => w
  | None => v
  end.

Fixpoint replace_leave_in (leave : value -> option value) (v : value)
  : value :=
  match v with
  | VArr xs => VArr (map (replace_leave_in leave) xs)
  | VObj fs =>
      let node :=
        VObj (map (fun f => (fst f, replace_leave_in leave (snd f))) fs) in
      keep_or node (leave node)
  | _ => v
  end.

Definition replace_leave (leave : value -> option value) (t : tree) : tree :=
  map (replace_leave_in leave) t.

(** Modelled from the spec: [replace({enter})] is the "pre-order /
    top-down" traversal; "replacing a node during pre-order causes its
    new subtree to be visited".  The walk goes below the node the visitor
    returned, so it is not structural; it is driven by the height of the
    tree, which bounds the walk for every visitor that returns a node no
    higher than the one it was given, as the two visitors of the program
    do. *)
Fixpoint height (v : value) : nat :=
  match v with
  | VArr xs => S (list_max (map height xs))
  | VObj fs => S (list_max (map (fun f => height (snd f)) fs))
  | _ => 0
  end.

Fixpoint replace_enter_in (fuel : nat) (enter : value -> option value)
  (v : value) : value :=
  match fuel with
  | O => v
  | S fuel' =>
      match v with
      | VArr xs => VArr (map (replace_enter_in fuel' enter) xs)
      | VObj _ =>
          match keep_or v (enter v) with
          | VObj fs =>
              VObj (map (fun f => (fst f, replace_enter_in fuel' enter (snd f)))
                      fs)
          | w => w
          end
      | _ => v
      end
  end.

Definition replace_enter (enter : value -> option value) (t : tree) : tree :=
  map (replace_enter_in (S (list_max (map height t))) enter) t.

(** Modelled from the spec: [prepend(node)] / [append(node)] "insert at
    start/end of the top-level body". *)
Definition prepend (node : value) (t : tree) : tree := node :: t.
Definition append (node : value) (t : tree) : tree := t ++ [node].

(** Modelled from the spec: [wrap(fn)] "replace[s] the entire top-level
    body with the sequence fn(currentBody) returns". *)
Definition wrap (fn : list value -> list value) (t : tree) : tree := fn t.

(** ** Helpers of [underscore] and [pure-utilities] *)

(** [unique(array)] of underscore: the first occurrence of each value. *)
Fixpoint unique_from (seen : list value) (l : list value) : list value :=
  match l with
  | [] => []
  | x :: l' =>
      if existsb (value_eqb x) seen then unique_from seen l'
      else x :: unique_from (seen ++ [x]) l'
  end.

Definition unique (l : list value) : list value := unique_from [] l.

(** [unique(array, iteratee)] of underscore: the first item of each
    computed key. *)
Fixpoint unique_by_from (key : value -> value) (seen : list value)
  (l : list value) : list value :=
  match l with
  | [] => []
  | x :: l' =>
      if existsb (value_eqb (key x)) seen then unique_by_from key seen l'
      else x :: unique_by_from key (seen ++ [key x]) l'
  end.

Definition unique_by (key : value -> value) (l : list value) : list value :=
  unique_by_from key [] l.

(** [flatten(array)] of pure-utilities: nested arrays are spliced into
    the result. *)
Fixpoint flatten_item (v : value) : list value :=
  match v with
  | VArr xs => flat_map flatten_item xs
  | _ => [v]
  end.

Definition flatten (l : list value) : list value := flat_map flatten_item l.

(** ** The class [Module] *)

(** [dependencyToIdentifierMap]: an object literal used as a map from
    module specifier to parameter name.  It is kept as the list of its
    own properties in insertion order, the order in which
    [Object.values] enumerates keys that are not array indices.

    The object inherits from [Object.prototype], and two keys show it.
    The write [map['__proto__'] = param] of a string goes to the
    accessor of the prototype, which ignores it: no own property is
    created, [hasOwnProperty('__proto__')] stays false and
    [Object.values] does not list the parameter.  Once the key
    [hasOwnProperty] has been written, the next call
    [map.hasOwnProperty(value)] calls the string stored there and
    raises a TypeError; the embedding has no error path, and the lookup
    below answers where the source raises. *)
Definition memo : Type := list (string * string).

Definition hasOwnProperty (k : string) (m : memo) : bool :=
  existsb (fun kv => String.eqb k (fst kv)) m.

Fixpoint memo_get (k : string) (m : memo) : value :=
  match m with
  | [] => VUndefined
  | (k', p) :: m' => if String.eqb k k' then VStr p else memo_get k m'
  end.

(** The write of an own property: an existing key keeps its place, a
    new key goes last. *)
Fixpoint memo_assign (k : string) (p : string) (m : memo) : memo :=
  match m with
  | [] => [(k, p)]
  | (k', q) :: m' =>
      if String.eqb k k' then (k', p) :: m' else (k', q) :: memo_assign k p m'
  end.

(** [map[k] = p]. *)
Definition memo_set (k : string) (p : string) (m : memo) : memo :=
  if String.eqb k "__proto__" then m else memo_assign k p m.

Definition memo_values (m : memo) : list value :=
  map (fun kv => VStr (snd kv)) m.

Section Module.

(** [identifier] of pure-utilities, the parameter allocator: it is
    given the names to avoid and returns a name.  The package is not
    part of the source, so the allocator is a parameter of the
    development. *)
Variable identifier : list value -> string.

Definition prependUseStrictLiteral (t : tree) : tree :=
  prepend (ExpressionStatement (Literal (VStr "use strict"))) t.

Definition isSideEffectImportDeclaration (node : value) : bool :=
  truthy (get "source" node)
  && has_type "Literal" (get "source" node)
  && value_eqb (array_length (get "specifiers" node)) (VNum 0).

Definition getLocalSpecifier (node specifier : value) : value :=
  VObj [("element", get "value" (get "source" node));
        ("param", get "name" (get "local" specifier))].

(** The callback of [node.specifiers.map] in [getDependencyPairs]; the
    map it closes over is passed in and handed back. *)
Definition specifierPair (ids : list value) (node specifier : value)
  (m : memo) : value * memo :=
  if has_type "ImportDefaultSpecifier" specifier
     || has_type "ImportNamespaceSpecifier" specifier
  then (getLocalSpecifier node specifier, m)
  else if has_type "ImportSpecifier" specifier then
    let value := get "value" (get "source" node) in
    if negb (value_eqb (get "name" (get "imported" specifier))
               (get "name" (get "local" specifier)))
    then (getLocalSpecifier node specifier, m)
    else
      let '(param, m') :=
        if hasOwnProperty (to_string value) m
        then (memo_get (to_string value) m, m)
        else
          let identifiers := unique (flatten ids) ++ memo_values m in
          let param := identifier identifiers in
          (VStr param, memo_set (to_string value) param m) in
      (VObj [("param", param);
             ("element", get "value" (get "source" node));
             ("name", get "name" (get "local" specifier))], m')
  else (VUndefined, m).

Fixpoint specifierPairs (ids : list value) (node : value)
  (specifiers : list value) (m : memo) : list value * memo :=
  match specifiers with
  | [] => ([], m)
  | specifier :: rest =>
      let '(r, m1) := specifierPair ids node specifier m in
      let '(rs, m2) := specifierPairs ids node rest m1 in
      (r :: rs, m2)
  end.

(** The callback of [imports.map] in [getDependencyPairs]. *)
Definition importPairs (ids : list value) (node : value) (m : memo)
  : value * memo :=
  if isSideEffectImportDeclaration node
  then (VObj [("element", get "value" (get "source" node))], m)
  else
    match get "specifiers" node with
    | VArr specifiers =>
        let '(pairs, m') := specifierPairs ids node specifiers m in
        (VArr pairs, m')
    | _ => (VUndefined, m)
    end.

Fixpoint importsPairs (ids : list value) (imports : list value) (m : memo)
  : list value * memo :=
  match imports with
  | [] => ([], m)
  | node :: rest =>
      let '(r, m1) := importPairs ids node m in
      let '(rs, m2) := importsPairs ids rest m1 in
      (r :: rs, m2)
  end.

Definition getDependencyPairs (t : tree) : list value :=
  let dependencyToIdentifierMap : memo := [] in
  let imports := find "ImportDeclaration" t in
  let ids := unique (map (fun item => get "name" item) imports) in
  let result :=
    flatten (fst (importsPairs ids imports dependencyToIdentifierMap)) in
  result.

Definition getDefine (nodes : list value) : value :=
  VObj [("type", VStr "ExpressionStatement");
        ("expression",
          VObj [("type", VStr "CallExpression");
                ("callee", VObj [("type", VStr "Identifier");
                                 ("name", VStr "define")]);
                ("arguments", VArr nodes)])].

Definition getFunctionExpression (params body : list value) : value :=
  VObj [("type", VStr "FunctionExpression");
        ("params", VArr params);
        ("body", VObj [("type", VStr "BlockStatement");
                       ("body", VArr body)])].

Definition getDefineWithFunctionExpression (body : list value) : value :=
  getDefine [getFunctionExpression [] body].

Definition getProperty (node shorthand : value) : value :=
  VObj [("type", VStr "Property");
        ("key", node);
        ("value", node);
        ("shorthand", shorthand);
        ("kind", VStr "init")].

(** For a node that has neither a declaration nor specifiers the source
    raises a TypeError at [declaration.declaration.type]; the embedding
    reads [undefined] there.  What is proved of the properties is
    stated for export nodes as a parser builds them. *)
Definition mapDeclarationToProperty (declaration : value) : value :=
  if negb (truthy (get "declaration" declaration))
     && truthy (get "specifiers" declaration)
  then array_map (fun node => getProperty (get "local" node) (VBool true))
         (get "specifiers" declaration)
  else if has_type "VariableDeclaration" (get "declaration" declaration)
  then array_map (fun node => getProperty (get "id" node) VUndefined)
         (get "declarations" (get "declaration" declaration))
  else getProperty (get "id" (get "declaration" declaration)) VUndefined.

Definition mapDeclarationsToProperties (declarations : list value)
  : list value :=
  flatten (map mapDeclarationToProperty declarations).

Definition getObjectExpression (declarations : list value) : value :=
  VObj [("type", VStr "ObjectExpression");
        ("properties", VArr (mapDeclarationsToProperties declarations))].

Definition convertExportNamedDeclarationToDeclaration (t : tree) : tree :=
  replace_enter
    (fun node =>
       if has_type "ExportNamedDeclaration" node
          && truthy (get "declaration" node)
       then Some (get "declaration" node)
       else None)
    t.

Definition convertExportNamedDeclarations (t : tree) : tree :=
  let declarations := find "ExportNamedDeclaration" t in
  let t := convertExportNamedDeclarationToDeclaration t in
  let t := remove (has_type "ExportNamedDeclaration") t in
  append (VObj [("type", VStr "ReturnStatement");
                ("argument", getObjectExpression declarations)]) t.

(** The visitor writes [node.type] and [node.argument] of the node it
    is given and returns that node. *)
Definition convertExportDefaultDeclarationToReturn (t : tree) : tree :=
  replace_enter
    (fun node =>
       if has_type "ExportDefaultDeclaration" node
       then Some (set_field "argument" (get "declaration" node)
                    (set_field "type" (VStr "ReturnStatement") node))
       else None)
    t.

Definition convertExportDefaultDeclarationToDefine (t : tree) : tree :=
  let t := prependUseStrictLiteral t in
  let t := convertExportDefaultDeclarationToReturn t in
  wrap (fun body => [getDefineWithFunctionExpression body]) t.

Definition convertExportNamedDeclarationToDefine (t : tree) : tree :=
  let t := prependUseStrictLiteral t in
  let t := convertExportNamedDeclarations t in
  wrap (fun body => [getDefineWithFunctionExpression body]) t.

Definition convertIdentifierToMemberExpression (pair : value) : value :=
  VObj [("type", VStr "MemberExpression");
        ("object", VObj [("type", VStr "Identifier");
                         ("name", get "param" pair)]);
        ("property", VObj [("type", VStr "Identifier");
                           ("name", get "name" pair)])].

Definition normalizePairs (pairs : list value) (t : tree) : tree :=
  let nodes := filter (fun pair => truthy (get "name" pair)) pairs in
  let names := map (fun node => get "name" node) nodes in
  replace_leave
    (fun current =>
       if has_type "Identifier" current then
         match indexOf (get "name" current) names with
         | Some index =>
             let pair := nth index nodes VUndefined in
             Some (convertIdentifierToMemberExpression pair)
         | None => Some current
         end
       else Some current)
    t.

Definition getArrayExpression (elements : list value) : value :=
  VObj [("type", VStr "ArrayExpression"); ("elements", VArr elements)].

Definition wrapWithDefineWithArrayExpression (pairs : list value)
  (t : tree) : tree :=
  let pairs :=
    unique_by (fun item => js_add (get "element" item) (get "param" item))
      pairs in
  let elements :=
    map (fun element => VObj [("type", VStr "Literal"); ("value", element)])
      (map (fun pair => get "element" pair) pairs) in
  let params :=
    map (fun param => VObj [("type", VStr "Identifier"); ("name", param)])
      (map (fun pair => get "param" pair)
         (filter (fun pair => truthy (get "param" pair)) pairs)) in
  wrap (fun body =>
          [getDefine [getArrayExpression elements;
                      getFunctionExpression params body]]) t.

Definition convertCodeWithImportDeclarations (t : tree) : tree :=
  let pairs := getDependencyPairs t in
  let t := remove (has_type "ImportDeclaration") t in
  let t := normalizePairs pairs t in
  let t :=
    if has "ExportDefaultDeclaration" t
    then convertExportDefaultDeclarationToReturn t
    else if has "ExportNamedDeclaration" t
    then convertExportNamedDeclarations t
    else t in
  let t := prependUseStrictLiteral t in
  wrapWithDefineWithArrayExpression pairs t.

Definition convert (t : tree) : tree :=
  if has "ImportDeclaration" t
  then convertCodeWithImportDeclarations t
  else if has "ExportDefaultDeclaration" t
  then convertExportDefaultDeclarationToDefine t
  else if has "ExportNamedDeclaration" t
  then convertExportNamedDeclarationToDefine t
  else t.

End Module.

(** ** Notions used to state the properties *)

(** [o.hasOwnProperty(k)] of a node or pair. *)
Definition has_key (k : string) (v : value) : bool :=
  match v with
  | VObj fs => existsb (fun f => String.eqb k (fst f)) fs
  | _ => false
  end.

(** The three node types [convert] asks for. *)
Definition is_module_declaration (v : value) : bool :=
  has_type "ImportDeclaration" v
  || has_type "ExportDefaultDeclaration" v
  || has_type "ExportNamedDeclaration" v.

(** [clean v]: no node of the three types is [v] or lies below [v]. *)
Fixpoint clean (v : value) : bool :=
  match v with
  | VArr xs => forallb clean xs
  | VObj fs =>
      negb (is_module_declaration v) && forallb (fun f => clean (snd f)) fs
  | _ => true
  end.

Definition clean_below (v : value) : bool :=
  match v with
  | VObj fs => forallb (fun f => clean (snd f)) fs
  | _ => clean v
  end.

(** The input format of a module: import and export declarations are
    statements of the program body and occur nowhere below a statement. *)
Definition top_level_only (t : tree) : bool := forallb clean_below t.

(** The node an [ExportDefaultDeclaration] becomes: its [type] is
    overwritten and [argument] is added, [declaration] stays. *)
Definition returnOfExportDefault (node : value) : value :=
  set_field "argument" (get "declaration" node)
    (set_field "type" (VStr "ReturnStatement") node).

Definition exportDefaultToReturn (node : value) : value :=
  if has_type "ExportDefaultDeclaration" node
  then returnOfExportDefault node
  else node.

(** What is left of a statement once named exports are unwrapped and the
    remaining wrappers removed. *)
Definition unwrapExportNamed (node : value) : list value :=
  if has_type "ExportNamedDeclaration" node
  then if truthy (get "declaration" node)
       then [get "declaration" node]
       else []
  else [node].

Definition useStrict : value :=
  ExpressionStatement (Literal (VStr "use strict")).

(** The pairs that carry a [name], as [normalizePairs] selects them, and
    the pair [indexOf] picks for a name: the first one. *)
Definition grouped (pairs : list value) : list value :=
  filter (fun pair => truthy (get "name" pair)) pairs.

Definition matching (pairs : list value) (name : value) : option value :=
  List.find (fun pair => value_eqb (get "name" pair) name) (grouped pairs).

(** The rewriting of references as the specification words it: an
    [Identifier] whose name is the [name] of a grouped pair becomes the
    member expression [param.name] of that pair, built once and not
    looked into again; every other node keeps its shape and has its
    parts rewritten. *)
#[local] Unset Elimination Schemes.
Inductive rewritten (pairs : list value) : value -> value -> Prop :=
| rewritten_reference fs gs pair :
    Forall2 (fun f g => fst f = fst g /\ rewritten pairs (snd f) (snd g))
      fs gs ->
    get "type" (VObj gs) = VStr "Identifier" ->
    matching pairs (get "name" (VObj gs)) = Some pair ->
    rewritten pairs (VObj fs)
      (MemberExpression (Identifier (get "param" pair))
         (Identifier (get "name" pair)))
| rewritten_node fs gs :
    Forall2 (fun f g => fst f = fst g /\ rewritten pairs (snd f) (snd g))
      fs gs ->
    (get "type" (VObj gs) = VStr "Identifier" ->
     matching pairs (get "name" (VObj gs)) = None) ->
    rewritten pairs (VObj fs) (VObj gs)
| rewritten_array xs ys :
    Forall2 (rewritten pairs) xs ys ->
    rewritten pairs (VArr xs) (VArr ys)
| rewritten_undefined : rewritten pairs VUndefined VUndefined
| rewritten_null : rewritten pairs VNull VNull
| rewritten_bool b : rewritten pairs (VBool b) (VBool b)
| rewritten_num n : rewritten pairs (VNum n) (VNum n)
| rewritten_str s : rewritten pairs (VStr s) (VStr s).
#[local] Set Elimination Schemes.

(** A sample allocator, for running the conversion on concrete trees:
    the names [a], ..., [z], [aa], [ab], ... in this order, the first one
    that is not among the names to avoid. *)
Fixpoint next_letters (ds : list nat) : list nat :=
  match ds with
  | [] => [0%nat]
  | d :: ds' =>
      if Nat.ltb d 25 then S d :: ds' else 0%nat :: next_letters ds'
  end.

Definition letters_name (ds : list nat) : string :=
  string_of_list_ascii
    (map (fun d => ascii_of_nat (97 + d)) (rev ds)).

Fixpoint first_free (fuel : nat) (ds : list nat) (excluded : list value)
  : string :=
  let name := letters_name ds in
  if existsb (value_eqb (VStr name)) excluded
  then match fuel with
       | O => name
       | S fuel' => first_free fuel' (next_letters ds) excluded
       end
  else name.

Definition shortest_free_name (excluded : list value) : string :=
  first_free (List.length excluded) [0%nat] excluded.

(** The map only grows: a key it has stays, with the value it had. *)
Definition memo_extends (m m' : memo) : Prop :=
  forall k, hasOwnProperty k m = true ->
    hasOwnProperty k m' = true /\ memo_get k m' = memo_get k m.

(** A pair that carries a [name] has the parameter the map records for
    its module specifier, when the map stores that specifier. *)
Definition memo_records (m : memo) (pair : value) : Prop :=
  has_key "name" pair = true ->
  to_string (get "element" pair) <> "__proto__" ->
  hasOwnProperty (to_string (get "element" pair)) m = true
  /\ memo_get (to_string (get "element" pair)) m = get "param" pair.

Definition module_kinds : list string :=
  ["ImportDeclaration"; "ExportDefaultDeclaration"; "ExportNamedDeclaration"].

(** The [leave] visitor of [normalizePairs], for its pairs. *)
Definition leaveReference (pairs : list value) (current : value)
  : option value :=
  if has_type "Identifier" current then
    match indexOf (get "name" current)
            (map (fun node => get "name" node) (grouped pairs)) with
    | Some index =>
        Some (convertIdentifierToMemberExpression
                (nth index (grouped pairs) VUndefined))
    | None => Some current
    end
  else Some current.

(** No key and no parameter name occurs twice in the map. *)
Definition memo_injective (m : memo) : Prop :=
  NoDup (map fst m) /\ NoDup (map snd m).

(** The rank of a name of the sample allocator in its enumeration. *)
Fixpoint letters_rank (ds : list nat) : nat :=
  match ds with
  | [] => 0
  | d :: ds' => S d + 26 * letters_rank ds'
  end.

(** [references pairs v]: some Identifier in [v] bears the name of a
    grouped pair. *)
Fixpoint references (pairs : list value) (v : value) : bool :=
  match v with
  | VArr xs => existsb (references pairs) xs
  | VObj fs =>
      (has_type "Identifier" v
       && match indexOf (get "name" v)
                  (map (fun node => get "name" node) (grouped pairs)) with
          | Some _ => true
          | None => false
          end)
      || existsb (fun f => references pairs (snd f)) fs
  | _ => false
  end.

Definition FunctionDeclaration (id : value) (params : list value)
  (body : list value) : value :=
  VObj [("type", VStr "FunctionDeclaration");
        ("id", id);
        ("params", VArr params);
        ("body", VObj [("type", VStr "BlockStatement");
                       ("body", VArr body)])].

(** The three shapes of a dependency pair: of a side-effect import, of a
    specifier bound under its local name, of a grouped specifier. *)
Definition dependency_pair (pair : value) : Prop :=
  (exists element, pair = VObj [("element", element)])
  \/ (exists element param,
        pair = VObj [("element", element); ("param", param)])
  \/ (exists param element name,
        pair = VObj [("param", VStr param); ("element", element);
                     ("name", name)]).

(** An import specifier of one of the three ESTree types. *)
Definition import_specifier (specifier : value) : bool :=
  has_type "ImportDefaultSpecifier" specifier
  || has_type "ImportNamespaceSpecifier" specifier
  || has_type "ImportSpecifier" specifier.

(** A named specifier whose imported name is its local name. *)
Definition unrenamed (specifier : value) : bool :=
  has_type "ImportSpecifier" specifier
  && value_eqb (get "name" (get "imported" specifier))
       (get "name" (get "local" specifier)).


(** The items of an array-valued property. *)
Definition items_of (v : value) : list value :=
  match v with
  | VArr xs => xs
  | _ => []
  end.

Definition is_array (v : value) : bool :=
  match v with
  | VArr _ => true
  | _ => false
  end.

(** The properties one ExportNamedDeclaration contributes to the export
    object, as the specification lists them: with an inline
    VariableDeclaration, one property per declarator, keyed and valued
    by the [id] of the declarator; with another inline declaration, one
    property keyed and valued by its [id]; without inline declaration,
    one shorthand property per specifier, keyed and valued by the
    [local] name of the specifier.  The properties that are not
    shorthand have no [shorthand] flag set ([undefined]). *)
Definition exportedProperties (declaration : value) : list value :=
  let inline := get "declaration" declaration in
  if truthy inline then
    if has_type "VariableDeclaration" inline
    then map (fun declarator =>
                Property (get "id" declarator) (get "id" declarator)
                  VUndefined)
           (items_of (get "declarations" inline))
    else [Property (get "id" inline) (get "id" inline) VUndefined]
  else
    map (fun specifier =>
           Property (get "local" specifier) (get "local" specifier)
             (VBool true))
      (items_of (get "specifiers" declaration)).

(** An ExportNamedDeclaration as a parser builds it: without inline
    declaration it has an array of specifiers, and an inline
    VariableDeclaration has an array of declarators. *)
Definition export_well_formed (declaration : value) : bool :=
  let inline := get "declaration" declaration in
  if truthy inline
  then negb (has_type "VariableDeclaration" inline)
       || is_array (get "declarations" inline)
  else is_array (get "specifiers" declaration).

(** The local name a pair stands for: the [name] of a grouped pair, the
    [param] of a pair bound under its local name, [undefined] for the
    pair of a side-effect import. *)
Definition pair_local (pair : value) : value :=
  if has_key "name" pair then get "name" pair else get "param" pair.

(** A side-effect import [import 'module']: the source is a Literal
    whose value is a string, and the array of specifiers is empty. *)
Definition side_effect_import (node : value) : bool :=
  has_type "Literal" (get "source" node)
  && match get "value" (get "source" node) with
     | VStr _ => true
     | _ => false
     end
  && value_eqb (get "specifiers" node) (VArr []).

(** The module specifiers of the import statements of a body, in their
    order. *)
Definition import_sources (t : tree) : list string :=
  flat_map
    (fun s =>
       if has_type "ImportDeclaration" s
       then match get "value" (get "source" s) with
            | VStr source => [source]
            | _ => []
            end
       else [])
    t.

(** A list of strings without the repetitions: each string stands where
    it occurs first. *)
Fixpoint first_occurrences (l : list string) : list string :=
  match l with
  | [] => []
  | x :: l' =>
      x :: filter (fun y => negb (String.eqb y x)) (first_occurrences l')
  end.

(** The keys for which the object [dependencyToIdentifierMap] works as
    a map: every string but [__proto__], which it does not store, and
    [hasOwnProperty], which shadows the method the resolver calls. *)
Definition plain_key (k : string) : bool :=
  negb (String.eqb k "__proto__") && negb (String.eqb k "hasOwnProperty").

(** An import declaration with at least one specifier, all of whose
    specifiers are unrenamed named specifiers, of a module whose
    specifier is a string and a plain key. *)
Definition grouped_import (node : value) : bool :=
  match get "specifiers" node, get "value" (get "source" node) with
  | VArr (s :: specifiers), VStr source =>
      forallb unrenamed (s :: specifiers) && plain_key source
  | _, _ => false
  end.

(** ** Facts about values *)

Lemma value_eqb_refl (v : value) : value_eqb v v = true.
Proof.
  induction v using value_deep_ind; simpl;
    try reflexivity.
  - apply Bool.eqb_reflx.
  - apply Z.eqb_refl.
  - apply String.eqb_refl.
  - induction xs as [|x xs IH]; [reflexivity|].
    rewrite (H x (or_introl eq_refl)); simpl.
    apply IH. intros y Hy. apply H. now right.
  - induction fs as [|[k x] fs IH]; [reflexivity|].
    rewrite String.eqb_refl, (H k x (or_introl eq_refl)); simpl.
    apply IH. intros k' y Hy. apply (H k'). now right.
Qed.

Lemma value_eqb_eq (a b : value) : value_eqb a b = true <-> a = b.
Proof.
  split; [|intros ->; apply value_eqb_refl].
  revert b. induction a using value_deep_ind; intros [] E; simpl in E;
    try discriminate; try reflexivity.
  - apply Bool.eqb_prop in E. now subst.
  - apply Z.eqb_eq in E. now subst.
  - apply String.eqb_eq in E. now subst.
  - f_equal. revert items E.
    induction xs as [|x xs IH]; intros [|y ys] E; try discriminate;
      [reflexivity|].
    apply andb_true_iff in E as [E1 E2].
    f_equal.
    + apply H; [now left|exact E1].
    + apply IH; [|exact E2]. intros z Hz. apply H. now right.
  - f_equal. revert fields E.
    induction fs as [|[k x] fs IH]; intros [|[k' y] gs] E; try discriminate;
      [reflexivity|].
    apply andb_true_iff in E as [E12 E3].
    apply andb_true_iff in E12 as [E1 E2].
    apply String.eqb_eq in E1. subst k'.
    f_equal.
    + f_equal. apply (H k); [now left|exact E2].
    + apply IH; [|exact E3]. intros k' z Hz. apply (H k'). now right.
Qed.

Lemma value_eqb_neq (a b : value) : value_eqb a b = false <-> a <> b.
Proof.
  rewrite <- value_eqb_eq. destruct (value_eqb a b); split; congruence.
Qed.

Lemma has_type_iff (ty : string) (v : value) :
  has_type ty v = true <-> get "type" v = VStr ty.
Proof. apply value_eqb_eq. Qed.

(** ** The pre-order walk does not depend on its fuel *)

Lemma height_item (x : value) (xs : list value) :
  In x xs -> height x <= list_max (map height xs).
Proof.
  intros Hx.
  assert (H : Forall (fun k => k <= list_max (map height xs))
                (map height xs)) by now apply list_max_le.
  rewrite Forall_forall in H. apply H. now apply in_map.
Qed.

Lemma height_field (f : string * value) (fs : list (string * value)) :
  In f fs -> height (snd f) <= list_max (map (fun g => height (snd g)) fs).
Proof.
  intros Hf.
  assert (H : Forall
                (fun k => k <= list_max (map (fun g => height (snd g)) fs))
                (map (fun g => height (snd g)) fs)) by now apply list_max_le.
  rewrite Forall_forall in H. apply H.
  apply in_map_iff. now exists f.
Qed.

Lemma height_lookup (k : string) (fs : list (string * value)) :
  height (lookup k fs) <= list_max (map (fun g => height (snd g)) fs).
Proof.
  induction fs as [|[k' x] fs IH]; simpl; [lia|].
  destruct (String.eqb k k'); lia.
Qed.

Lemma height_get (k : string) (v : value) : height (get k v) <= height v.
Proof.
  destruct v; simpl; try lia.
  pose proof (height_lookup k fields). lia.
Qed.

Lemma height_assign (k : string) (x : value) (fs : list (string * value)) :
  list_max (map (fun g => height (snd g)) (assign k x fs))
  <= Nat.max (height x) (list_max (map (fun g => height (snd g)) fs)).
Proof.
  induction fs as [|[k' y] fs IH]; simpl; [lia|].
  destruct (String.eqb k k'); simpl; lia.
Qed.

Lemma height_returnOfExportDefault (v : value) :
  height (returnOfExportDefault v) <= height v.
Proof.
  destruct v; simpl; try lia.
  pose proof (height_assign "argument" (lookup "declaration" fields)
                (assign "type" (VStr "ReturnStatement") fields)) as H1.
  pose proof (height_assign "type" (VStr "ReturnStatement") fields) as H2.
  pose proof (height_lookup "declaration" fields) as H3.
  simpl in H2. lia.
Qed.

Lemma replace_enter_in_fuel (enter : value -> option value) :
  (forall v w, enter v = Some w -> height w <= height v) ->
  forall (n m : nat) (v : value),
    height v < n -> height v < m ->
    replace_enter_in n enter v = replace_enter_in m enter v.
Proof.
  intros He n. induction n as [|n IH]; intros m v Hn Hm; [lia|].
  destruct m as [|m]; [lia|]. destruct v; try reflexivity.
  - cbn [replace_enter_in]. f_equal. apply map_ext_in. intros x Hx.
    pose proof (height_item x items Hx). cbn [height] in Hn, Hm.
    apply IH; lia.
  - cbn [replace_enter_in].
    assert (Hk : height (keep_or (VObj fields) (enter (VObj fields)))
                 <= height (VObj fields)).
    { destruct (enter (VObj fields)) as [w|] eqn:E; cbn [keep_or];
        [now apply He|lia]. }
    destruct (keep_or (VObj fields) (enter (VObj fields))) as
      [| | | | | |gs]; try reflexivity.
    f_equal. apply map_ext_in. intros g Hg.
    pose proof (height_field g gs Hg). cbn [height] in Hk, Hn, Hm.
    f_equal. apply IH; lia.
Qed.

(** Both [enter] visitors of the program return a node no higher than
    the one they are given, so [replace_enter] gives them all the fuel
    they can use. *)
Lemma replace_enter_enough_fuel (enter : value -> option value)
  (fuel : nat) (t : tree) :
  (forall v w, enter v = Some w -> height w <= height v) ->
  list_max (map height t) < fuel ->
  map (replace_enter_in fuel enter) t = replace_enter enter t.
Proof.
  intros He Hf. unfold replace_enter. apply map_ext_in. intros s Hs.
  pose proof (height_item s t Hs).
  apply replace_enter_in_fuel; [exact He|lia|lia].
Qed.

Lemma unwrap_visitor_height (v w : value) :
  (if has_type "ExportNamedDeclaration" v && truthy (get "declaration" v)
   then Some (get "declaration" v)
   else None) = Some w ->
  height w <= height v.
Proof.
  destruct (_ && _); [|discriminate]. intros [= <-]. apply height_get.
Qed.

Lemma return_visitor_height (v w : value) :
  (if has_type "ExportDefaultDeclaration" v
   then Some (set_field "argument" (get "declaration" v)
                (set_field "type" (VStr "ReturnStatement") v))
   else None) = Some w ->
  height w <= height v.
Proof.
  destruct (has_type _ v); [|discriminate]. intros [= <-].
  apply height_returnOfExportDefault.
Qed.

(** ** The dispatcher *)

(** C7: [convert] asks for an ImportDeclaration, then for an
    ExportDefaultDeclaration, then for an ExportNamedDeclaration, and runs
    the transformation of the first kind that is present and no other;
    with an ImportDeclaration present it runs the import path whatever
    the answers for the two export kinds are. *)
Theorem convert_dispatch (identifier : list value -> string) (t : tree) :
  convert identifier t =
    match has "ImportDeclaration" t,
          has "ExportDefaultDeclaration" t,
          has "ExportNamedDeclaration" t with
    | true, _, _ => convertCodeWithImportDeclarations identifier t
    | false, true, _ => convertExportDefaultDeclarationToDefine t
    | false, false, true => convertExportNamedDeclarationToDefine t
    | false, false, false => t
    end.
Proof.
  unfold convert.
  destruct (has "ImportDeclaration" t); [reflexivity|].
  destruct (has "ExportDefaultDeclaration" t); [reflexivity|].
  destruct (has "ExportNamedDeclaration" t); reflexivity.
Qed.

(** C9: a tree with no ImportDeclaration, no ExportDefaultDeclaration
    and no ExportNamedDeclaration node is returned as it is. *)
Theorem convert_noop (identifier : list value -> string) (t : tree) :
  find "ImportDeclaration" t = [] ->
  find "ExportDefaultDeclaration" t = [] ->
  find "ExportNamedDeclaration" t = [] ->
  convert identifier t = t.
Proof.
  intros Hi Hd Hn. unfold convert, has. now rewrite Hi, Hd, Hn.
Qed.

Lemma convert_noop_witness :
  find "ImportDeclaration" [ExpressionStatement (Identifier (VStr "x"))] = []
  /\ find "ExportDefaultDeclaration"
       [ExpressionStatement (Identifier (VStr "x"))] = []
  /\ find "ExportNamedDeclaration"
       [ExpressionStatement (Identifier (VStr "x"))] = []
  /\ convert shortest_free_name
       [ExpressionStatement (Identifier (VStr "x"))]
     = [ExpressionStatement (Identifier (VStr "x"))].
Proof.
  split; [reflexivity|]. split; [reflexivity|]. split; [reflexivity|].
  apply (convert_noop shortest_free_name
           [ExpressionStatement (Identifier (VStr "x"))]); reflexivity.
Defined.

(** ** The resolver: what the allocator is told to avoid *)

(** The names collected in [ids] are the [name] properties of the
    import declarations themselves; a node without that property
    contributes [undefined], so the list is [[undefined]]. *)
Lemma unique_from_all_seen (seen l : list value) :
  (forall x, In x l -> existsb (value_eqb x) seen = true) ->
  unique_from seen l = [].
Proof.
  revert seen. induction l as [|x l IH]; intros seen H; [reflexivity|].
  simpl. rewrite (H x (or_introl eq_refl)).
  apply IH. intros y Hy. apply H. now right.
Qed.

Lemma ids_of_imports (imports : list value) :
  imports <> [] ->
  (forall node, In node imports -> get "name" node = VUndefined) ->
  unique (map (fun item => get "name" item) imports) = [VUndefined].
Proof.
  destruct imports as [|n imports]; [congruence|]. intros _ H.
  unfold unique. simpl. rewrite (H n (or_introl eq_refl)). f_equal.
  apply unique_from_all_seen. intros x Hx.
  apply in_map_iff in Hx as [node [<- Hnode]].
  rewrite (H node (or_intror Hnode)). reflexivity.
Qed.

(** C1, evaluated: whatever the allocator is, the name it returns for
    the first grouped import is computed from the list [[undefined]]
    alone.  For [import p from 'n'; import {x} from 'm'], with [p] that
    very name, the grouped import of ['m'] is given the parameter [p],
    the local name of the default import of ['n']. *)
Theorem getDependencyPairs_collision (identifier : list value -> string) :
  let p := identifier [VUndefined] in
  getDependencyPairs identifier
    [ImportDeclaration [ImportDefaultSpecifier p] "n";
     ImportDeclaration [ImportSpecifier "x" "x"] "m"]
  = [VObj [("element", VStr "n"); ("param", VStr p)];
     VObj [("param", VStr p); ("element", VStr "m"); ("name", VStr "x")]].
Proof. reflexivity. Qed.

(** The same input under the sample allocator: [import a from 'n';
    import {x} from 'm'; x] becomes a factory with the parameter [a]
    twice. *)
Example convert_collision :
  convert shortest_free_name
    [ImportDeclaration [ImportDefaultSpecifier "a"] "n";
     ImportDeclaration [ImportSpecifier "x" "x"] "m";
     ExpressionStatement (Identifier (VStr "x"))]
  = [getDefine
       [getArrayExpression [Literal (VStr "n"); Literal (VStr "m")];
        getFunctionExpression
          [Identifier (VStr "a"); Identifier (VStr "a")]
          [useStrict;
           ExpressionStatement
             (MemberExpression (Identifier (VStr "a"))
                (Identifier (VStr "x")))]]].
Proof. reflexivity. Qed.

(** ** The resolver: one parameter per module *)

Lemma memo_extends_refl (m : memo) : memo_extends m m.
Proof. intros k H. now split. Qed.

Lemma memo_extends_trans (m1 m2 m3 : memo) :
  memo_extends m1 m2 -> memo_extends m2 m3 -> memo_extends m1 m3.
Proof.
  intros H12 H23 k H.
  destruct (H12 k H) as [H2 E2]. destruct (H23 k H2) as [H3 E3].
  split; [exact H3|congruence].
Qed.

Lemma memo_assign_has (k p : string) (m : memo) :
  hasOwnProperty k (memo_assign k p m) = true
  /\ memo_get k (memo_assign k p m) = VStr p.
Proof.
  induction m as [|[k' q] m IH]; simpl.
  - now rewrite String.eqb_refl.
  - destruct (String.eqb k k') eqn:E; simpl; rewrite E; simpl; auto.
Qed.

Lemma memo_set_has (k p : string) (m : memo) :
  k <> "__proto__" ->
  hasOwnProperty k (memo_set k p m) = true
  /\ memo_get k (memo_set k p m) = VStr p.
Proof.
  intros Hk. unfold memo_set. apply String.eqb_neq in Hk. rewrite Hk.
  apply memo_assign_has.
Qed.

Lemma memo_assign_extends (k p : string) (m : memo) :
  hasOwnProperty k m = false -> memo_extends m (memo_assign k p m).
Proof.
  intros Hk k0 H0. induction m as [|[k' q] m IH]; simpl in *;
    [discriminate|].
  apply orb_false_iff in Hk as [Hk1 Hk2]. rewrite Hk1. simpl.
  destruct (String.eqb k0 k') eqn:E; simpl; [now split|].
  apply IH; assumption.
Qed.

Lemma memo_set_extends (k p : string) (m : memo) :
  hasOwnProperty k m = false -> memo_extends m (memo_set k p m).
Proof.
  intros Hk. unfold memo_set.
  destruct (String.eqb k "__proto__");
    [apply memo_extends_refl|now apply memo_assign_extends].
Qed.

Lemma memo_records_extends (m m' : memo) (pair : value) :
  memo_extends m m' -> memo_records m pair -> memo_records m' pair.
Proof.
  intros Hext Hrec Hname Hkey. destruct (Hrec Hname Hkey) as [H1 H2].
  destruct (Hext _ H1) as [H3 H4]. split; [exact H3|congruence].
Qed.

Section Resolver.

Variable identifier : list value -> string.
Variable ids : list value.

Lemma specifierPair_records (node specifier : value) (m : memo) :
  let r := specifierPair identifier ids node specifier m in
  memo_extends m (snd r)
  /\ memo_records (snd r) (fst r)
  /\ flatten_item (fst r) = [fst r].
Proof.
  unfold specifierPair.
  destruct (has_type "ImportDefaultSpecifier" specifier
            || has_type "ImportNamespaceSpecifier" specifier).
  { simpl. split; [apply memo_extends_refl|]. split; [|reflexivity].
    intros H. discriminate. }
  destruct (has_type "ImportSpecifier" specifier).
  2:{ simpl. split; [apply memo_extends_refl|]. split; [|reflexivity].
      intros H. discriminate. }
  destruct (negb _).
  { simpl. split; [apply memo_extends_refl|]. split; [|reflexivity].
    intros H. discriminate. }
  set (key := to_string (get "value" (get "source" node))).
  destruct (hasOwnProperty key m) eqn:Hk; cbn [fst snd].
  - split; [apply memo_extends_refl|]. split; [|reflexivity].
    intros _ _. simpl. fold key. now split.
  - split; [now apply memo_set_extends|]. split; [|reflexivity].
    intros _ Hkey. simpl in *. fold key in Hkey |- *.
    now apply memo_set_has.
Qed.

Lemma specifierPairs_records (node : value) (specifiers : list value)
  (m : memo) :
  let r := specifierPairs identifier ids node specifiers m in
  memo_extends m (snd r)
  /\ Forall (memo_records (snd r)) (fst r)
  /\ flat_map flatten_item (fst r) = fst r.
Proof.
  revert m. induction specifiers as [|s rest IH]; intros m; simpl.
  - split; [apply memo_extends_refl|]. split; [constructor|reflexivity].
  - pose proof (specifierPair_records node s m) as H1. simpl in H1.
    destruct (specifierPair identifier ids node s m) as [r m1].
    specialize (IH m1). simpl in IH.
    destruct (specifierPairs identifier ids node rest m1) as [rs m2].
    simpl in *. destruct H1 as [E1 [R1 F1]]. destruct IH as [E2 [R2 F2]].
    split; [eapply memo_extends_trans; eassumption|].
    split.
    + constructor; [|exact R2].
      eapply memo_records_extends; eassumption.
    + rewrite F1, F2. reflexivity.
Qed.

Lemma importPairs_records (node : value) (m : memo) :
  let r := importPairs identifier ids node m in
  memo_extends m (snd r)
  /\ Forall (memo_records (snd r)) (flatten_item (fst r)).
Proof.
  unfold importPairs.
  destruct (isSideEffectImportDeclaration node).
  { simpl. split; [apply memo_extends_refl|].
    constructor; [|constructor]. intros H. discriminate. }
  destruct (get "specifiers" node) as [| | | | |specifiers|];
    try (simpl; split; [apply memo_extends_refl|];
         constructor; [|constructor]; intros H; discriminate).
  pose proof (specifierPairs_records node specifiers m) as H. simpl in H.
  destruct (specifierPairs identifier ids node specifiers m) as [rs m'].
  simpl in *. destruct H as [E [R F]]. rewrite F. now split.
Qed.

Lemma importsPairs_records (imports : list value) (m : memo) :
  let r := importsPairs identifier ids imports m in
  memo_extends m (snd r)
  /\ Forall (memo_records (snd r)) (flatten (fst r)).
Proof.
  revert m. induction imports as [|node rest IH]; intros m; simpl.
  - split; [apply memo_extends_refl|constructor].
  - pose proof (importPairs_records node m) as H1. simpl in H1.
    destruct (importPairs identifier ids node m) as [r m1].
    specialize (IH m1). simpl in IH.
    destruct (importsPairs identifier ids rest m1) as [rs m2].
    simpl in *. destruct H1 as [E1 R1]. destruct IH as [E2 R2].
    split; [eapply memo_extends_trans; eassumption|].
    unfold flatten in *. simpl. apply Forall_app. split; [|exact R2].
    eapply Forall_impl; [|exact R1].
    intros p Hp. eapply memo_records_extends; eassumption.
Qed.

End Resolver.

(** Within one call, two pairs that carry a [name] (the pairs of
    unrenamed named specifiers) and have the same module specifier as
    [element] have the same [param], when that specifier is one the map
    stores. *)
Lemma grouped_same_param (identifier : list value -> string) (t : tree)
  (p q : value) :
  In p (getDependencyPairs identifier t) ->
  In q (getDependencyPairs identifier t) ->
  has_key "name" p = true ->
  has_key "name" q = true ->
  get "element" p = get "element" q ->
  to_string (get "element" p) <> "__proto__" ->
  get "param" p = get "param" q.
Proof.
  unfold getDependencyPairs. intros Hp Hq Np Nq E Hkey.
  set (imports := find "ImportDeclaration" t) in *.
  set (ids := unique (map (fun item => get "name" item) imports)) in *.
  destruct (importsPairs_records identifier ids imports []) as [_ R].
  rewrite Forall_forall in R.
  destruct (R p Hp Np Hkey) as [_ Gp].
  rewrite E in Hkey. destruct (R q Hq Nq Hkey) as [_ Gq].
  rewrite <- Gp, <- Gq, E. reflexivity.
Qed.

(** C4, evaluated: the map is an object literal, and the write of the
    key [__proto__] creates no own property.  For
    [import {x} from '__proto__'; import {y} from 'm';
     import {z} from '__proto__'] the lookup fails at [z] as it did at
    [x], and a second name is allocated, against the names the map
    holds by then: the two unrenamed named imports of the module
    ['__proto__'] get the parameters [identifier([undefined])] and
    [identifier([undefined, a])], [a] being the first of them (and the
    parameter of ['m'] as well). *)
Theorem getDependencyPairs_proto_parameters
  (identifier : list value -> string) :
  let a := identifier [VUndefined] in
  let b := identifier [VUndefined; VStr a] in
  getDependencyPairs identifier
    [ImportDeclaration [ImportSpecifier "x" "x"] "__proto__";
     ImportDeclaration [ImportSpecifier "y" "y"] "m";
     ImportDeclaration [ImportSpecifier "z" "z"] "__proto__"]
  = [VObj [("param", VStr a); ("element", VStr "__proto__");
           ("name", VStr "x")];
     VObj [("param", VStr a); ("element", VStr "m"); ("name", VStr "y")];
     VObj [("param", VStr b); ("element", VStr "__proto__");
           ("name", VStr "z")]].
Proof. reflexivity. Qed.

(** The same input under the sample allocator: the parameters are [a],
    [a] and [b], and the factory has the three of them. *)
Example convert_proto_parameters :
  convert shortest_free_name
    [ImportDeclaration [ImportSpecifier "x" "x"] "__proto__";
     ImportDeclaration [ImportSpecifier "y" "y"] "m";
     ImportDeclaration [ImportSpecifier "z" "z"] "__proto__";
     ExpressionStatement (Identifier (VStr "z"))]
  = [ExpressionStatement
       (CallExpression (Identifier (VStr "define"))
          [ArrayExpression
             [Literal (VStr "__proto__"); Literal (VStr "m");
              Literal (VStr "__proto__")];
           FunctionExpression
             [Identifier (VStr "a"); Identifier (VStr "a");
              Identifier (VStr "b")]
             [ExpressionStatement (Literal (VStr "use strict"));
              ExpressionStatement
                (MemberExpression (Identifier (VStr "b"))
                   (Identifier (VStr "z")))]])].
Proof. reflexivity. Qed.

(** X19: within one call, two pairs that carry a [name] (the pairs of
    unrenamed named specifiers) and have the same module specifier as
    [element] have the same [param], for every module specifier other
    than [__proto__]: the unrenamed named imports of such a module share
    one parameter. *)
Theorem getDependencyPairs_stored_module_one_param
  (identifier : list value -> string) (t : tree) (p q : value) :
  In p (getDependencyPairs identifier t) ->
  In q (getDependencyPairs identifier t) ->
  has_key "name" p = true ->
  has_key "name" q = true ->
  get "element" p = get "element" q ->
  to_string (get "element" p) <> "__proto__" ->
  get "param" p = get "param" q.
Proof. apply grouped_same_param. Qed.

Lemma getDependencyPairs_stored_module_one_param_witness :
  get "param"
    (VObj [("param", VStr "a"); ("element", VStr "m"); ("name", VStr "x")])
  = get "param"
      (VObj [("param", VStr "a"); ("element", VStr "m"); ("name", VStr "y")]).
Proof.
  apply (getDependencyPairs_stored_module_one_param shortest_free_name
           [ImportDeclaration [ImportSpecifier "x" "x"] "m";
            ImportDeclaration [ImportDefaultSpecifier "d"] "n";
            ImportDeclaration [ImportSpecifier "y" "y"] "m"]);
    try reflexivity.
  - simpl. left. reflexivity.
  - simpl. right. right. left. reflexivity.
  - discriminate.
Defined.

(** The pairs that carry a [name] are those of the unrenamed named
    specifiers. *)
Lemma specifierPair_grouped (identifier : list value -> string)
  (ids : list value) (node specifier : value) (m : memo) :
  has_key "name" (fst (specifierPair identifier ids node specifier m)) = true
  <-> has_type "ImportSpecifier" specifier = true
      /\ get "name" (get "imported" specifier)
         = get "name" (get "local" specifier).
Proof.
  unfold specifierPair.
  destruct (has_type "ImportDefaultSpecifier" specifier) eqn:Hd.
  { simpl. apply has_type_iff in Hd. split; [discriminate|].
    intros [H _]. apply has_type_iff in H. congruence. }
  destruct (has_type "ImportNamespaceSpecifier" specifier) eqn:Hn.
  { simpl. apply has_type_iff in Hn. split; [discriminate|].
    intros [H _]. apply has_type_iff in H. congruence. }
  simpl. destruct (has_type "ImportSpecifier" specifier).
  2:{ simpl. split; [discriminate|]. intros [H _]. discriminate. }
  destruct (value_eqb _ _) eqn:E; simpl.
  - apply value_eqb_eq in E.
    destruct (hasOwnProperty _ m); simpl; split; auto.
  - apply value_eqb_neq in E. split; [discriminate|]. intros [_ H].
    contradiction.
Qed.

(** Every unrenamed named specifier of an import declaration has its
    pair in the result, with the module specifier as [element] and the
    local name as [name]. *)
Section ResolverComplete.

Variable identifier : list value -> string.
Variable ids : list value.

Lemma specifierPairs_In (node : value) (specifiers : list value)
  (m : memo) (s : value) :
  In s specifiers ->
  exists m',
    In (fst (specifierPair identifier ids node s m'))
      (fst (specifierPairs identifier ids node specifiers m)).
Proof.
  revert m. induction specifiers as [|s0 rest IH]; intros m; [intros []|].
  intros [->|Hs]; cbn [specifierPairs].
  - exists m. destruct (specifierPair identifier ids node s m) as [r m1].
    destruct (specifierPairs identifier ids node rest m1) as [rs m2].
    now left.
  - destruct (specifierPair identifier ids node s0 m) as [r m1].
    destruct (IH m1 Hs) as [m' Hin]. exists m'.
    destruct (specifierPairs identifier ids node rest m1) as [rs m2].
    now right.
Qed.

Lemma importPairs_In (node : value) (specifiers : list value) (m : memo)
  (s : value) :
  get "specifiers" node = VArr specifiers ->
  In s specifiers ->
  exists m',
    In (fst (specifierPair identifier ids node s m'))
      (flatten_item (fst (importPairs identifier ids node m))).
Proof.
  intros Hspecs Hs. unfold importPairs.
  assert (Hside : isSideEffectImportDeclaration node = false).
  { unfold isSideEffectImportDeclaration. rewrite Hspecs.
    destruct specifiers as [|s0 rest]; [destruct Hs|].
    apply andb_false_iff. right. apply value_eqb_neq.
    cbn [array_length List.length]. intros H. discriminate H. }
  rewrite Hside, Hspecs.
  destruct (specifierPairs_In node specifiers m s Hs) as [m' Hin].
  exists m'.
  destruct (specifierPairs_records identifier ids node specifiers m)
    as [_ [_ F]].
  destruct (specifierPairs identifier ids node specifiers m) as [rs m2].
  cbn [fst flatten_item] in *. now rewrite F.
Qed.

Lemma importsPairs_In (imports : list value) (m : memo) (node : value) :
  In node imports ->
  exists m1,
    forall x,
      In x (flatten_item (fst (importPairs identifier ids node m1))) ->
      In x (flatten (fst (importsPairs identifier ids imports m))).
Proof.
  revert m. induction imports as [|n rest IH]; intros m; [intros []|].
  intros [->|Hn]; cbn [importsPairs].
  - exists m. intros x Hx.
    destruct (importPairs identifier ids node m) as [r m1].
    destruct (importsPairs identifier ids rest m1) as [rs m2].
    unfold flatten. cbn [fst flat_map] in *. apply in_or_app. now left.
  - destruct (importPairs identifier ids n m) as [r m1].
    destruct (IH m1 Hn) as [m' H]. exists m'. intros x Hx.
    specialize (H x Hx).
    destruct (importsPairs identifier ids rest m1) as [rs m2].
    unfold flatten in *. cbn [fst flat_map] in *. apply in_or_app.
    now right.
Qed.

End ResolverComplete.

Lemma getDependencyPairs_grouped_In (identifier : list value -> string)
  (t : tree) (node : value) (specifiers : list value) (s : value) :
  In node (find "ImportDeclaration" t) ->
  get "specifiers" node = VArr specifiers ->
  In s specifiers ->
  has_type "ImportSpecifier" s = true ->
  get "name" (get "imported" s) = get "name" (get "local" s) ->
  exists pair,
    In pair (getDependencyPairs identifier t)
    /\ has_key "name" pair = true
    /\ get "element" pair = get "value" (get "source" node)
    /\ get "name" pair = get "name" (get "local" s).
Proof.
  intros Hnode Hspecs Hs Hty Hname. unfold getDependencyPairs.
  set (imports := find "ImportDeclaration" t) in *.
  set (ids := unique (map (fun item => get "name" item) imports)).
  destruct (importsPairs_In identifier ids imports [] node Hnode)
    as [m1 H1].
  destruct (importPairs_In identifier ids node specifiers m1 s Hspecs Hs)
    as [m' H2].
  exists (fst (specifierPair identifier ids node s m')).
  split; [now apply H1|].
  split; [apply specifierPair_grouped; now split|].
  unfold specifierPair.
  assert (Hd : has_type "ImportDefaultSpecifier" s = false).
  { apply not_true_is_false. intros H.
    apply has_type_iff in H, Hty. congruence. }
  assert (Hn : has_type "ImportNamespaceSpecifier" s = false).
  { apply not_true_is_false. intros H.
    apply has_type_iff in H, Hty. congruence. }
  rewrite Hd, Hn, Hty, Hname, value_eqb_refl. cbn [orb negb].
  destruct (hasOwnProperty _ m'); split; reflexivity.
Qed.

(** ** The resolver under an allocator that avoids the names it is given *)

Lemma NoDup_snoc (A : Type) (l : list A) (x : A) :
  NoDup l -> ~ In x l -> NoDup (l ++ [x]).
Proof.
  induction 1 as [|y l Hy N IH]; simpl; intros Hx.
  - constructor; [tauto|constructor].
  - constructor.
    + intros Hin. apply in_app_or in Hin as [Hin|[->|[]]]; tauto.
    + apply IH. tauto.
Qed.

Lemma hasOwnProperty_In (k : string) (m : memo) :
  hasOwnProperty k m = true <-> In k (map fst m).
Proof.
  unfold hasOwnProperty. rewrite existsb_exists, in_map_iff. split.
  - intros [kv [H E]]. apply String.eqb_eq in E. exists kv. now split.
  - intros [kv [E H]]. exists kv. split; [exact H|].
    apply String.eqb_eq. now symmetry.
Qed.

Lemma memo_assign_absent (k p : string) (m : memo) :
  hasOwnProperty k m = false -> memo_assign k p m = m ++ [(k, p)].
Proof.
  induction m as [|[k' q] m IH]; simpl; [reflexivity|]. intros H.
  apply orb_false_iff in H as [H1 H2]. rewrite H1. now rewrite IH.
Qed.

Lemma memo_get_In (k : string) (m : memo) :
  hasOwnProperty k m = true ->
  exists p, memo_get k m = VStr p /\ In (k, p) m.
Proof.
  induction m as [|[k' q] m IH]; simpl; [discriminate|].
  destruct (String.eqb k k') eqn:E; simpl.
  - apply String.eqb_eq in E. subst k'. intros _. exists q. auto.
  - intros H. destruct (IH H) as [p [H1 H2]]. exists p. auto.
Qed.

Lemma memo_injective_key (m : memo) (k1 k2 p : string) :
  NoDup (map snd m) -> In (k1, p) m -> In (k2, p) m -> k1 = k2.
Proof.
  induction m as [|[k q] m IH]; simpl; [tauto|]. intros N H1 H2.
  inversion N as [|? ? Hq N']; subst.
  destruct H1 as [H1|H1], H2 as [H2|H2].
  - congruence.
  - exfalso. apply Hq. apply in_map_iff. exists (k2, p).
    split; [simpl; congruence|exact H2].
  - exfalso. apply Hq. apply in_map_iff. exists (k1, p).
    split; [simpl; congruence|exact H1].
  - now apply IH.
Qed.

Section FreshAllocator.

Variable identifier : list value -> string.
Variable ids : list value.
Hypothesis identifier_avoids :
  forall excluded, ~ In (VStr (identifier excluded)) excluded.

Lemma specifierPair_injective (node specifier : value) (m : memo) :
  memo_injective m ->
  memo_injective (snd (specifierPair identifier ids node specifier m)).
Proof.
  intros Hm. unfold specifierPair.
  destruct (_ || _); [exact Hm|].
  destruct (has_type "ImportSpecifier" specifier); [|exact Hm].
  destruct (negb _); [exact Hm|].
  destruct (hasOwnProperty _ m) eqn:Hk; [exact Hm|]. cbn [snd].
  unfold memo_set. destruct (String.eqb _ "__proto__"); [exact Hm|].
  rewrite (memo_assign_absent _ _ m Hk). destruct Hm as [N1 N2].
  unfold memo_injective. rewrite !map_app. cbn [map fst snd]. split.
  - apply NoDup_snoc; [exact N1|]. intros Hin.
    apply hasOwnProperty_In in Hin. congruence.
  - apply NoDup_snoc; [exact N2|]. intros Hin.
    apply (identifier_avoids (unique (flatten ids) ++ memo_values m)).
    apply in_or_app. right. unfold memo_values.
    apply in_map_iff in Hin as [kv [E Hkv]].
    apply in_map_iff. exists kv. split; [now rewrite E|exact Hkv].
Qed.

Lemma specifierPairs_injective (node : value) (specifiers : list value)
  (m : memo) :
  memo_injective m ->
  memo_injective (snd (specifierPairs identifier ids node specifiers m)).
Proof.
  revert m. induction specifiers as [|s rest IH]; intros m Hm;
    [exact Hm|].
  cbn [specifierPairs].
  pose proof (specifierPair_injective node s m Hm) as H1.
  destruct (specifierPair identifier ids node s m) as [r m1].
  specialize (IH m1 H1).
  destruct (specifierPairs identifier ids node rest m1) as [rs m2].
  exact IH.
Qed.

Lemma importsPairs_injective (imports : list value) (m : memo) :
  memo_injective m ->
  memo_injective (snd (importsPairs identifier ids imports m)).
Proof.
  revert m. induction imports as [|node rest IH]; intros m Hm;
    [exact Hm|].
  cbn [importsPairs].
  assert (H1 : memo_injective (snd (importPairs identifier ids node m))).
  { unfold importPairs.
    destruct (isSideEffectImportDeclaration node); [exact Hm|].
    destruct (get "specifiers" node) as [| | | | |specifiers|];
      try exact Hm.
    pose proof (specifierPairs_injective node specifiers m Hm) as H.
    destruct (specifierPairs identifier ids node specifiers m) as [rs m'].
    exact H. }
  destruct (importPairs identifier ids node m) as [r m1].
  specialize (IH m1 H1).
  destruct (importsPairs identifier ids rest m1) as [rs m2].
  exact IH.
Qed.

End FreshAllocator.

(** With an allocator that never returns one of the names it is given,
    the grouped imports of two modules get two parameters: a name
    allocated earlier in the run is not allocated again. *)
Lemma getDependencyPairs_distinct_modules
  (identifier : list value -> string) (t : tree) (p q : value) :
  (forall excluded, ~ In (VStr (identifier excluded)) excluded) ->
  In p (getDependencyPairs identifier t) ->
  In q (getDependencyPairs identifier t) ->
  has_key "name" p = true ->
  has_key "name" q = true ->
  to_string (get "element" p) <> "__proto__" ->
  to_string (get "element" q) <> "__proto__" ->
  to_string (get "element" p) <> to_string (get "element" q) ->
  get "param" p <> get "param" q.
Proof.
  unfold getDependencyPairs. intros Hfresh Hp Hq Np Nq Kp Kq E.
  set (imports := find "ImportDeclaration" t) in *.
  set (ids := unique (map (fun item => get "name" item) imports)) in *.
  destruct (importsPairs_records identifier ids imports []) as [_ R].
  assert (Hinj : memo_injective
                   (snd (importsPairs identifier ids imports []))).
  { apply importsPairs_injective; [exact Hfresh|].
    split; constructor. }
  rewrite Forall_forall in R.
  destruct (R p Hp Np Kp) as [Op Gp]. destruct (R q Hq Nq Kq) as [Oq Gq].
  destruct (memo_get_In _ _ Op) as [a [Ea Ia]].
  destruct (memo_get_In _ _ Oq) as [b [Eb Ib]].
  rewrite <- Gp, <- Gq, Ea, Eb. intros [= ->].
  apply E. destruct Hinj as [_ N2].
  exact (memo_injective_key _ _ _ _ N2 Ia Ib).
Qed.

(** ** The rewriter of references *)

Lemma indexOf_matching (name : value) (nodes : list value) :
  match indexOf name (map (fun node => get "name" node) nodes) with
  | Some index =>
      List.find (fun pair => value_eqb (get "name" pair) name) nodes
      = Some (nth index nodes VUndefined)
  | None =>
      List.find (fun pair => value_eqb (get "name" pair) name) nodes = None
  end.
Proof.
  induction nodes as [|n nodes IH]; simpl; [reflexivity|].
  destruct (value_eqb (get "name" n) name); [reflexivity|].
  destruct (indexOf name _); exact IH.
Qed.

Section Rewriter.

Variable pairs : list value.

Lemma normalizePairs_unfold (t : tree) :
  normalizePairs pairs t = map (replace_leave_in (leaveReference pairs)) t.
Proof. reflexivity. Qed.

Lemma replace_leave_in_rewritten (v : value) :
  rewritten pairs v (replace_leave_in (leaveReference pairs) v).
Proof.
  induction v using value_deep_ind; simpl; try constructor.
  - induction xs as [|x xs IH]; simpl; constructor.
    + apply H. now left.
    + apply IH. intros y Hy. apply H. now right.
  - set (gs := map (fun f => (fst f, replace_leave_in (leaveReference pairs) (snd f))) fs).
    assert (F : Forall2
                  (fun f g => fst f = fst g /\ rewritten pairs (snd f) (snd g))
                  fs gs).
    { subst gs. induction fs as [|[k x] fs IH]; simpl; constructor.
      - split; [reflexivity|]. apply (H k). now left.
      - apply IH. intros k' y Hy. apply (H k'). now right. }
    unfold leaveReference at 1.
    destruct (has_type "Identifier" (VObj gs)) eqn:Ht.
    + apply has_type_iff in Ht.
      pose proof (indexOf_matching (get "name" (VObj gs)) (grouped pairs))
        as Hm.
      destruct (indexOf _ _) as [index|]; simpl.
      * eapply rewritten_reference; eassumption.
      * apply rewritten_node; [exact F|]. intros _. exact Hm.
    + simpl. apply rewritten_node; [exact F|]. intros Ht'.
      apply has_type_iff in Ht'. congruence.
Qed.

End Rewriter.

(** C3: the rewriter, run over the whole tree, relates every statement
    to its image by [rewritten]: each Identifier whose name is the
    [name] of a grouped pair has become the member expression
    [Identifier(param) . Identifier(name)] of the matching pair, the
    nodes of that expression are not rewritten in their turn, and all
    other nodes keep their shape over rewritten parts. *)
Theorem normalizePairs_rewritten (pairs : list value) (t : tree) :
  Forall2 (rewritten pairs) t (normalizePairs pairs t).
Proof.
  rewrite normalizePairs_unfold.
  induction t as [|s t IH]; simpl; constructor;
    [apply replace_leave_in_rewritten|exact IH].
Qed.

(** ** The relation [rewritten] determines the image *)

Lemma rewritten_fields (pairs : list value) (R : value -> value)
  (fs gs : list (string * value)) :
  (forall k x, In (k, x) fs -> forall w, rewritten pairs x w -> w = R x) ->
  Forall2 (fun f g => fst f = fst g /\ rewritten pairs (snd f) (snd g))
    fs gs ->
  gs = map (fun f => (fst f, R (snd f))) fs.
Proof.
  intros IH F. induction F as [|[k x] [k' y] fs gs [Hk Hr] F IHF];
    [reflexivity|].
  simpl in Hk, Hr. subst k'. simpl. f_equal.
  - f_equal. apply (IH k x); [now left|exact Hr].
  - apply IHF. intros k0 x0 H0. apply (IH k0 x0). now right.
Qed.

Lemma rewritten_unique (pairs : list value) (v w : value) :
  rewritten pairs v w ->
  w = replace_leave_in (leaveReference pairs) v.
Proof.
  revert w. induction v using value_deep_ind; intros w Hr;
    inversion Hr; subst; try reflexivity.
  - cbn [replace_leave_in]. f_equal.
    match goal with F : Forall2 _ xs _ |- _ =>
      induction F as [|x y xs ys Hxy F IHF]; [reflexivity|] end.
    simpl. f_equal.
    + apply H; [now left|exact Hxy].
    + apply IHF; [|constructor; assumption].
      intros z Hz. apply H. now right.
  - match goal with F : Forall2 _ fs gs |- _ =>
      pose proof (rewritten_fields pairs
                    (replace_leave_in (leaveReference pairs)) fs gs H F)
        as Hgs end.
    cbn [replace_leave_in]. rewrite <- Hgs.
    unfold leaveReference.
    match goal with Ht : get "type" (VObj gs) = _ |- _ =>
      apply has_type_iff in Ht; rewrite Ht end.
    pose proof (indexOf_matching (get "name" (VObj gs)) (grouped pairs))
      as Hm.
    match goal with Hp : matching _ _ = Some _ |- _ =>
      unfold matching in Hp end.
    destruct (indexOf _ _) as [index|]; [|congruence].
    cbn [keep_or]. replace (nth index (grouped pairs) VUndefined) with pair
      by congruence.
    reflexivity.
  - match goal with F : Forall2 _ fs gs |- _ =>
      pose proof (rewritten_fields pairs
                    (replace_leave_in (leaveReference pairs)) fs gs H F)
        as Hgs end.
    cbn [replace_leave_in]. rewrite <- Hgs.
    unfold leaveReference.
    destruct (has_type "Identifier" (VObj gs)) eqn:Ht; [|reflexivity].
    apply has_type_iff in Ht.
    pose proof (indexOf_matching (get "name" (VObj gs)) (grouped pairs))
      as Hm.
    match goal with Hp : _ -> matching _ _ = None |- _ =>
      specialize (Hp Ht); unfold matching in Hp end.
    destruct (indexOf _ _) as [index|]; [congruence|reflexivity].
Qed.

(** ** The assembler: the key of the deduplication *)

(** C2, evaluated: the key is the string [element + param], so the
    pairs [("ab", "c")] and [("a", "bc")] have one key.  For
    [import c from 'ab'; import bc from 'a'] the second dependency and
    its parameter are dropped. *)
Theorem convert_key_collision (identifier : list value -> string) :
  convert identifier
    [ImportDeclaration [ImportDefaultSpecifier "c"] "ab";
     ImportDeclaration [ImportDefaultSpecifier "bc"] "a"]
  = [getDefine
       [getArrayExpression [Literal (VStr "ab")];
        getFunctionExpression [Identifier (VStr "c")] [useStrict]]].
Proof. reflexivity. Qed.

(** ** The deduplication: what holds of it *)

Lemma existsb_value_eqb (x : value) (l : list value) :
  existsb (value_eqb x) l = true <-> In x l.
Proof.
  rewrite existsb_exists. split.
  - intros [y [Hy E]]. apply value_eqb_eq in E. now subst.
  - intros H. exists x. split; [exact H|apply value_eqb_refl].
Qed.

Lemma unique_by_from_keys (key : value -> value) (seen l : list value) :
  NoDup (map key (unique_by_from key seen l))
  /\ forall x, In x (unique_by_from key seen l) -> ~ In (key x) seen.
Proof.
  revert seen. induction l as [|x l IH]; intros seen; simpl.
  - split; [constructor|tauto].
  - destruct (existsb (value_eqb (key x)) seen) eqn:E; [apply IH|].
    destruct (IH (seen ++ [key x])) as [N S].
    split.
    + simpl. constructor; [|exact N]. intros Hin.
      apply in_map_iff in Hin as [y [Ey Hy]].
      apply (S y Hy). apply in_or_app. right. left. now symmetry.
    + intros y [<-|Hy].
      * intros Hin. apply existsb_value_eqb in Hin. congruence.
      * intros Hin. apply (S y Hy). apply in_or_app. now left.
Qed.

(** No key is kept twice. *)
Lemma unique_by_NoDup (key : value -> value) (l : list value) :
  NoDup (map key (unique_by key l)).
Proof. apply unique_by_from_keys. Qed.

Lemma unique_by_from_complete (key : value -> value) (seen l : list value)
  (x : value) :
  In x l ->
  In (key x) seen
  \/ exists y, In y (unique_by_from key seen l) /\ key y = key x.
Proof.
  revert seen. induction l as [|z l IH]; intros seen; simpl; [tauto|].
  intros [->|Hx].
  - destruct (existsb (value_eqb (key x)) seen) eqn:E.
    + left. now apply existsb_value_eqb.
    + right. exists x. split; [now left|reflexivity].
  - destruct (existsb (value_eqb (key z)) seen) eqn:E; [now apply IH|].
    destruct (IH (seen ++ [key z]) Hx) as [Hin|[y [Hy Ey]]].
    + apply in_app_or in Hin as [Hin|[Hin|[]]]; [now left|].
      right. exists z. split; [now left|exact Hin].
    + right. exists y. split; [now right|exact Ey].
Qed.

(** Every key of the list is kept once. *)
Lemma unique_by_complete (key : value -> value) (l : list value)
  (x : value) :
  In x l -> exists y, In y (unique_by key l) /\ key y = key x.
Proof.
  intros Hx. destruct (unique_by_from_complete key [] l x Hx) as [[]|H].
  exact H.
Qed.

Lemma append_cancel (s a b : string) : (s ++ a = s ++ b)%string -> a = b.
Proof.
  induction s as [|c s IH]; simpl; [tauto|]. intros [= H]. now apply IH.
Qed.

(** Under one element, two parameter names have one key only when they
    are one name. *)
Lemma key_same_element (element : value) (p q : string) :
  js_add element (VStr p) = js_add element (VStr q) -> p = q.
Proof. unfold js_add. simpl. intros [= H]. now apply append_cancel in H. Qed.

(** A side-effect import of a module and an import of that module whose
    local name is [undefined] have one key. *)
Example key_absent_param :
  js_add (get "element" (VObj [("element", VStr "a")]))
    (get "param" (VObj [("element", VStr "a")]))
  = js_add
      (get "element"
         (VObj [("element", VStr "a"); ("param", VStr "undefined")]))
      (get "param"
         (VObj [("element", VStr "a"); ("param", VStr "undefined")])).
Proof. reflexivity. Qed.

(** ** Trees whose module declarations are statements of the body *)

Lemma module_kind_declaration (ty : string) (v : value) :
  In ty module_kinds -> has_type ty v = true ->
  is_module_declaration v = true.
Proof.
  unfold is_module_declaration.
  intros [<-|[<-|[<-|[]]]] H; rewrite H; simpl;
    rewrite ?orb_true_r; reflexivity.
Qed.

Lemma clean_not_declaration (v : value) :
  clean v = true -> is_module_declaration v = false.
Proof.
  destruct v; try reflexivity. cbn [clean]. intros H.
  apply andb_true_iff in H as [H _]. now apply negb_true_iff in H.
Qed.

Lemma clean_has_type (ty : string) (v : value) :
  In ty module_kinds -> clean v = true -> has_type ty v = false.
Proof.
  intros Hty Hc. destruct (has_type ty v) eqn:E; [|reflexivity].
  pose proof (module_kind_declaration _ _ Hty E) as H.
  rewrite (clean_not_declaration _ Hc) in H. discriminate.
Qed.

Lemma clean_fields (fs : list (string * value)) :
  clean (VObj fs) = true -> forallb (fun f => clean (snd f)) fs = true.
Proof. cbn [clean]. intros H. now apply andb_true_iff in H. Qed.

Lemma clean_clean_below (v : value) : clean v = true -> clean_below v = true.
Proof. destruct v; auto. apply clean_fields. Qed.

Lemma clean_below_clean (v : value) :
  clean_below v = true -> is_module_declaration v = false -> clean v = true.
Proof.
  destruct v; auto. cbn [clean clean_below]. intros H1 H2.
  now rewrite H2, H1.
Qed.

Lemma clean_lookup (k : string) (fs : list (string * value)) :
  forallb (fun f => clean (snd f)) fs = true -> clean (lookup k fs) = true.
Proof.
  induction fs as [|[k' x] fs IH]; simpl; [reflexivity|]. intros H.
  apply andb_true_iff in H as [H1 H2].
  destruct (String.eqb k k'); auto.
Qed.

Lemma clean_below_get (k : string) (v : value) :
  clean_below v = true -> clean (get k v) = true.
Proof. destruct v; try reflexivity. apply clean_lookup. Qed.

Lemma clean_get (k : string) (v : value) :
  clean v = true -> clean (get k v) = true.
Proof. intros H. apply clean_below_get. now apply clean_clean_below. Qed.

Lemma flat_map_nil (A B : Type) (f : A -> list B) (l : list A) :
  (forall x, In x l -> f x = []) -> flat_map f l = [].
Proof.
  induction l as [|x l IH]; simpl; [reflexivity|]. intros H.
  rewrite (H x (or_introl eq_refl)). apply IH. intros y Hy. apply H.
  now right.
Qed.

Lemma map_fixed (A : Type) (f : A -> A) (l : list A) :
  (forall x, In x l -> f x = x) -> map f l = l.
Proof.
  induction l as [|x l IH]; simpl; [reflexivity|]. intros H.
  rewrite (H x (or_introl eq_refl)). f_equal. apply IH. intros y Hy.
  apply H. now right.
Qed.

(** Nothing is found in a clean value. *)
Lemma find_in_clean (ty : string) (v : value) :
  In ty module_kinds -> clean v = true -> find_in ty v = [].
Proof.
  intros Hty. induction v using value_deep_ind; intros Hc;
    try reflexivity.
  - simpl in *. rewrite forallb_forall in Hc.
    apply flat_map_nil. intros x Hx. apply H; auto.
  - cbn [find_in]. rewrite (clean_has_type _ _ Hty Hc). simpl.
    apply clean_fields in Hc. rewrite forallb_forall in Hc.
    apply flat_map_nil. intros [k x] Hx. apply (H k x Hx).
    apply (Hc _ Hx).
Qed.

(** Nothing is removed from a clean value. *)
Lemma remove_in_clean (ty : string) (v : value) :
  In ty module_kinds -> clean v = true -> remove_in (has_type ty) v = v.
Proof.
  intros Hty. induction v using value_deep_ind; intros Hc;
    try reflexivity.
  - simpl in *. f_equal. rewrite forallb_forall in Hc.
    induction xs as [|x xs IH]; simpl; [reflexivity|].
    rewrite (clean_has_type _ _ Hty (Hc x (or_introl eq_refl))).
    rewrite (H x (or_introl eq_refl) (Hc x (or_introl eq_refl))).
    f_equal. apply IH; intros; [apply H|apply Hc]; simpl; auto.
  - cbn [remove_in]. f_equal. apply clean_fields in Hc.
    rewrite forallb_forall in Hc.
    apply map_fixed. intros [k x] Hx. unfold remove_field. simpl.
    pose proof (Hc _ Hx) as Hcx. simpl in Hcx.
    rewrite (clean_has_type _ _ Hty Hcx), (H k x Hx Hcx). reflexivity.
Qed.

(** An [enter] visitor that acts on module declarations only leaves a
    clean value as it is, however far the walk goes. *)
Lemma replace_enter_in_clean (enter : value -> option value) :
  (forall v, is_module_declaration v = false -> enter v = None) ->
  forall (fuel : nat) (v : value),
    clean v = true -> replace_enter_in fuel enter v = v.
Proof.
  intros He fuel. induction fuel as [|fuel IH]; intros v Hc;
    [reflexivity|].
  destruct v; try reflexivity.
  - simpl in *. f_equal. rewrite forallb_forall in Hc.
    apply map_fixed. intros x Hx. apply IH. now apply Hc.
  - cbn [replace_enter_in].
    rewrite (He _ (clean_not_declaration _ Hc)). simpl. f_equal.
    apply clean_fields in Hc. rewrite forallb_forall in Hc.
    apply map_fixed. intros [k x] Hx. simpl. f_equal.
    apply IH. apply (Hc _ Hx).
Qed.

Lemma clean_below_fields (fs : list (string * value)) (k : string)
  (x : value) :
  clean_below (VObj fs) = true -> In (k, x) fs -> clean x = true.
Proof.
  cbn [clean_below]. intros H Hx. rewrite forallb_forall in H.
  apply (H _ Hx).
Qed.

Lemma find_in_statement (ty : string) (s : value) :
  In ty module_kinds -> clean_below s = true ->
  find_in ty s = if has_type ty s then [s] else [].
Proof.
  intros Hty Hc. destruct s;
    try (rewrite (find_in_clean _ _ Hty Hc), (clean_has_type _ _ Hty Hc);
         reflexivity).
  cbn [find_in]. rewrite flat_map_nil.
  - now rewrite app_nil_r.
  - intros [k x] Hx. apply find_in_clean; [exact Hty|].
    apply (clean_below_fields _ _ _ Hc Hx).
Qed.

Lemma remove_in_statement (ty : string) (s : value) :
  In ty module_kinds -> clean_below s = true ->
  remove_in (has_type ty) s = s.
Proof.
  intros Hty Hc. destruct s; try (now apply remove_in_clean).
  cbn [remove_in]. f_equal. apply map_fixed. intros [k x] Hx.
  pose proof (clean_below_fields _ _ _ Hc Hx) as Hcx.
  unfold remove_field. simpl.
  now rewrite (clean_has_type _ _ Hty Hcx), (remove_in_clean _ _ Hty Hcx).
Qed.

Lemma find_top_level (ty : string) (t : tree) :
  In ty module_kinds -> top_level_only t = true ->
  find ty t = filter (has_type ty) t.
Proof.
  intros Hty. unfold find, top_level_only.
  induction t as [|s t IH]; simpl; [reflexivity|]. intros H.
  apply andb_true_iff in H as [Hs Ht].
  rewrite (find_in_statement _ _ Hty Hs), (IH Ht).
  now destruct (has_type ty s).
Qed.

Lemma has_top_level (ty : string) (t : tree) :
  In ty module_kinds -> top_level_only t = true ->
  has ty t = existsb (has_type ty) t.
Proof.
  intros Hty Ht. unfold has. rewrite (find_top_level _ _ Hty Ht).
  induction t as [|s t IH]; simpl; [reflexivity|].
  apply andb_true_iff in Ht as [_ Ht].
  destruct (has_type ty s); simpl; auto.
Qed.

Lemma remove_top_level (ty : string) (t : tree) :
  In ty module_kinds -> top_level_only t = true ->
  remove (has_type ty) t = filter (fun s => negb (has_type ty s)) t.
Proof.
  intros Hty. unfold remove, top_level_only.
  induction t as [|s t IH]; simpl; [reflexivity|]. intros H.
  apply andb_true_iff in H as [Hs Ht].
  rewrite (IH Ht), (remove_in_statement _ _ Hty Hs).
  now destruct (has_type ty s).
Qed.

Lemma lookup_assign_same (k : string) (x : value)
  (fs : list (string * value)) :
  lookup k (assign k x fs) = x.
Proof.
  induction fs as [|[k' y] fs IH]; simpl.
  - now rewrite String.eqb_refl.
  - destruct (String.eqb k k') eqn:E; simpl; now rewrite E.
Qed.

Lemma lookup_assign_other (k k' : string) (x : value)
  (fs : list (string * value)) :
  String.eqb k' k = false -> lookup k' (assign k x fs) = lookup k' fs.
Proof.
  intros Hk. induction fs as [|[k0 y] fs IH]; simpl.
  - now rewrite Hk.
  - destruct (String.eqb k k0) eqn:E; simpl.
    + apply String.eqb_eq in E. subst k0. now rewrite Hk.
    + now rewrite IH.
Qed.

Lemma clean_assign (k : string) (x : value) (fs : list (string * value)) :
  clean x = true ->
  forallb (fun f => clean (snd f)) fs = true ->
  forallb (fun f => clean (snd f)) (assign k x fs) = true.
Proof.
  intros Hx. induction fs as [|[k' y] fs IH]; simpl.
  - now rewrite Hx.
  - intros H. apply andb_true_iff in H as [H1 H2].
    destruct (String.eqb k k'); simpl.
    + now rewrite Hx, H2.
    + now rewrite H1, IH.
Qed.

Lemma map_fields_clean (f : value -> value) (fs : list (string * value)) :
  (forall x, clean x = true -> f x = x) ->
  forallb (fun g => clean (snd g)) fs = true ->
  map (fun g => (fst g, f (snd g))) fs = fs.
Proof.
  intros Hf H. rewrite forallb_forall in H.
  apply map_fixed. intros [k x] Hx. simpl. f_equal. apply Hf.
  apply (H _ Hx).
Qed.

Lemma has_type_object (ty : string) (v : value) :
  has_type ty v = true -> exists fs, v = VObj fs.
Proof. destruct v; try discriminate. intros _. now eexists. Qed.

Lemma returnOfExportDefault_fields (fs : list (string * value)) :
  returnOfExportDefault (VObj fs)
  = VObj (assign "argument" (lookup "declaration" fs)
            (assign "type" (VStr "ReturnStatement") fs)).
Proof. reflexivity. Qed.

Lemma convertExportDefaultDeclarationToReturn_top_level (t : tree) :
  top_level_only t = true ->
  convertExportDefaultDeclarationToReturn t = map exportDefaultToReturn t.
Proof.
  intros Ht. unfold convertExportDefaultDeclarationToReturn, replace_enter.
  set (enter := fun node => if has_type "ExportDefaultDeclaration" node
                            then _ else None).
  assert (He : forall v, is_module_declaration v = false -> enter v = None).
  { intros v Hv. unfold enter, is_module_declaration in *.
    apply orb_false_iff in Hv as [Hv _].
    apply orb_false_iff in Hv as [_ Hv]. now rewrite Hv. }
  apply map_ext_in. intros s Hs.
  unfold top_level_only in Ht. rewrite forallb_forall in Ht.
  specialize (Ht s Hs). unfold exportDefaultToReturn.
  destruct (has_type "ExportDefaultDeclaration" s) eqn:E.
  - destruct (has_type_object _ _ E) as [fs ->].
    cbn [replace_enter_in].
    assert (Hn : enter (VObj fs) = Some (returnOfExportDefault (VObj fs))).
    { unfold enter. now rewrite E. }
    rewrite Hn. cbn [keep_or].
    rewrite returnOfExportDefault_fields. f_equal.
    apply map_fields_clean.
    + intros x Hx. now apply replace_enter_in_clean.
    + apply clean_assign; [now apply clean_lookup|].
      now apply clean_assign.
  - destruct s; try solve [apply replace_enter_in_clean; auto].
    cbn [replace_enter_in].
    assert (Hn : enter (VObj fields) = None).
    { unfold enter. now rewrite E. }
    rewrite Hn. cbn [keep_or]. f_equal.
    apply map_fields_clean; [|exact Ht].
    intros x Hx. now apply replace_enter_in_clean.
Qed.

Lemma below_clean_fixed (f : value -> value) (d : value) :
  (forall x, clean x = true -> f x = x) ->
  clean d = true ->
  match d with
  | VUndefined => VUndefined
  | VNull => VNull
  | VBool b => VBool b
  | VNum n => VNum n
  | VStr s => VStr s
  | VArr xs => VArr xs
  | VObj gs => VObj (map (fun g => (fst g, f (snd g))) gs)
  end = d.
Proof.
  intros Hf Hd. destruct d; try reflexivity. f_equal.
  apply map_fields_clean; [exact Hf|]. now apply clean_fields.
Qed.

Lemma unwrap_statement (fuel : nat) (s : value) :
  clean_below s = true ->
  replace_enter_in (S fuel)
    (fun node =>
       if has_type "ExportNamedDeclaration" node
          && truthy (get "declaration" node)
       then Some (get "declaration" node)
       else None) s
  = if has_type "ExportNamedDeclaration" s && truthy (get "declaration" s)
    then get "declaration" s
    else s.
Proof.
  set (enter := fun node =>
                  if has_type "ExportNamedDeclaration" node
                     && truthy (get "declaration" node)
                  then Some (get "declaration" node)
                  else None).
  assert (He : forall v, is_module_declaration v = false -> enter v = None).
  { intros v Hv. unfold enter, is_module_declaration in *.
    apply orb_false_iff in Hv as [_ Hv]. now rewrite Hv. }
  intros Hs.
  destruct (has_type "ExportNamedDeclaration" s
            && truthy (get "declaration" s)) eqn:E.
  - assert (Hn : enter s = Some (get "declaration" s)).
    { unfold enter. now rewrite E. }
    apply andb_true_iff in E as [E _].
    destruct (has_type_object _ _ E) as [fs ->].
    cbn [replace_enter_in]. rewrite Hn. cbn [keep_or].
    apply (below_clean_fixed (replace_enter_in fuel enter)).
    + intros x Hx. now apply replace_enter_in_clean.
    + now apply clean_below_get.
  - assert (Hn : enter s = None).
    { unfold enter. now rewrite E. }
    destruct s; try solve [apply replace_enter_in_clean; auto].
    cbn [replace_enter_in]. rewrite Hn. cbn [keep_or]. f_equal.
    apply map_fields_clean; [|exact Hs].
    intros x Hx. now apply replace_enter_in_clean.
Qed.

Lemma unwrap_then_remove (fuel : nat) (t : tree) :
  top_level_only t = true ->
  remove (has_type "ExportNamedDeclaration")
    (map (replace_enter_in (S fuel)
            (fun node =>
               if has_type "ExportNamedDeclaration" node
                  && truthy (get "declaration" node)
               then Some (get "declaration" node)
               else None)) t)
  = flat_map unwrapExportNamed t.
Proof.
  assert (Hkind : In "ExportNamedDeclaration" module_kinds).
  { simpl. auto. }
  unfold remove, top_level_only.
  induction t as [|s t IH]; [reflexivity|].
  cbn [forallb map flat_map remove_items]. intros H.
  apply andb_true_iff in H as [Hs Ht]. rewrite (IH Ht). clear IH.
  rewrite (unwrap_statement fuel s Hs).
  assert (U : unwrapExportNamed s
              = if has_type "ExportNamedDeclaration" s
                then if truthy (get "declaration" s)
                     then [get "declaration" s] else []
                else [s]) by reflexivity.
  rewrite U. clear U.
  destruct (has_type "ExportNamedDeclaration" s) eqn:E; cbn [andb].
  - pose proof (clean_below_get "declaration" _ Hs) as Hd.
    destruct (truthy (get "declaration" s)).
    + rewrite (clean_has_type _ _ Hkind Hd).
      now rewrite (remove_in_clean _ _ Hkind Hd).
    + now rewrite E.
  - rewrite E. now rewrite (remove_in_statement _ _ Hkind Hs).
Qed.

Lemma convertExportNamedDeclarations_top_level (t : tree) :
  top_level_only t = true ->
  convertExportNamedDeclarations t
  = flat_map unwrapExportNamed t
      ++ [ReturnStatement
            (getObjectExpression
               (filter (has_type "ExportNamedDeclaration") t))].
Proof.
  intros Ht. unfold convertExportNamedDeclarations, append.
  rewrite find_top_level; [|simpl; auto|exact Ht].
  unfold convertExportNamedDeclarationToDeclaration, replace_enter.
  now rewrite unwrap_then_remove.
Qed.

Lemma unwrapExportNamed_kept (s x : value) :
  clean_below s = true -> In x (unwrapExportNamed s) ->
  clean_below x = true /\ has_type "ExportNamedDeclaration" x = false.
Proof.
  intros Hs. unfold unwrapExportNamed.
  destruct (has_type "ExportNamedDeclaration" s) eqn:E.
  - destruct (truthy _); simpl; [|tauto]. intros [<-|[]].
    pose proof (clean_below_get "declaration" _ Hs) as Hd.
    split; [now apply clean_clean_below|].
    apply clean_has_type; simpl; auto.
  - simpl. intros [<-|[]]. now split.
Qed.

Lemma unwrapExportNamed_tree (t : tree) :
  top_level_only t = true ->
  top_level_only (flat_map unwrapExportNamed t) = true
  /\ existsb (has_type "ExportNamedDeclaration")
       (flat_map unwrapExportNamed t) = false.
Proof.
  unfold top_level_only. intros Ht. rewrite forallb_forall in Ht.
  split.
  - apply forallb_forall. intros x Hx.
    apply in_flat_map in Hx as [s [Hs Hx]].
    now apply (unwrapExportNamed_kept s x (Ht s Hs)).
  - apply not_true_is_false. intros H.
    apply existsb_exists in H as [x [Hx E]].
    apply in_flat_map in Hx as [s [Hs Hx]].
    destruct (unwrapExportNamed_kept s x (Ht s Hs) Hx) as [_ E'].
    congruence.
Qed.

(** ** Named exports *)

Lemma flatten_objects (f : value -> value) (l : list value) :
  (forall x, flatten_item (f x) = [f x]) ->
  flat_map flatten_item (map f l) = map f l.
Proof.
  intros Hf. induction l as [|x l IH]; [reflexivity|].
  cbn [map flat_map]. now rewrite Hf, IH.
Qed.

(** On a well-formed export node, the properties the program builds are
    those the specification lists. *)
Lemma mapDeclarationToProperty_exported (d : value) :
  export_well_formed d = true ->
  flatten_item (mapDeclarationToProperty d) = exportedProperties d.
Proof.
  unfold export_well_formed, mapDeclarationToProperty, exportedProperties.
  cbv zeta. destruct (truthy (get "declaration" d)); cbn [negb andb].
  - destruct (has_type "VariableDeclaration" (get "declaration" d));
      [|reflexivity].
    cbn [negb orb]. intros H.
    destruct (get "declarations" (get "declaration" d)); try discriminate.
    cbn [array_map flatten_item items_of].
    now apply flatten_objects.
  - intros H. destruct (get "specifiers" d); try discriminate.
    cbn [truthy array_map flatten_item items_of].
    now apply flatten_objects.
Qed.

Lemma getObjectExpression_exported (declarations : list value) :
  forallb export_well_formed declarations = true ->
  getObjectExpression declarations
  = ObjectExpression (flat_map exportedProperties declarations).
Proof.
  intros H.
  assert (E : mapDeclarationsToProperties declarations
              = flat_map exportedProperties declarations).
  { unfold mapDeclarationsToProperties, flatten.
    induction declarations as [|d ds IH]; [reflexivity|].
    cbn [forallb] in H. apply andb_true_iff in H as [Hd Hds].
    cbn [map flat_map].
    now rewrite (mapDeclarationToProperty_exported d Hd), (IH Hds). }
  unfold getObjectExpression, ObjectExpression. now rewrite E.
Qed.

Lemma items_clean (v : value) :
  clean v = true -> forallb clean (items_of v) = true.
Proof. destruct v; try reflexivity. intros H. exact H. Qed.

Lemma clean_Property (key val shorthand : value) :
  clean key = true -> clean val = true -> clean shorthand = true ->
  clean (Property key val shorthand) = true.
Proof. intros H1 H2 H3. unfold Property. cbn. now rewrite H1, H2, H3. Qed.

Lemma exportedProperties_clean (d : value) :
  clean_below d = true -> forallb clean (exportedProperties d) = true.
Proof.
  intros Hd. unfold exportedProperties. cbv zeta.
  pose proof (clean_below_get "declaration" d Hd) as Hi.
  destruct (truthy (get "declaration" d)).
  - destruct (has_type "VariableDeclaration" (get "declaration" d)).
    + pose proof (items_clean _ (clean_get "declarations" _ Hi)) as Hr.
      rewrite forallb_forall in Hr. apply forallb_forall. intros x Hx.
      apply in_map_iff in Hx as [r [<- Hin]].
      apply clean_Property; try reflexivity; apply clean_get; auto.
    + cbn [forallb]. rewrite andb_true_r.
      apply clean_Property; try reflexivity; now apply clean_get.
  - pose proof (items_clean _ (clean_below_get "specifiers" d Hd)) as Hs.
    rewrite forallb_forall in Hs. apply forallb_forall. intros x Hx.
    apply in_map_iff in Hx as [s [<- Hin]].
    apply clean_Property; try reflexivity; apply clean_get; auto.
Qed.

(** The named-export pass on a module in its input format: every
    statement is kept, an ExportNamedDeclaration being replaced by its
    inline declaration or dropped when it has none, and one return
    statement of the export object comes last. *)
Lemma convertExportNamedDeclarations_exported (t : tree) :
  top_level_only t = true ->
  forallb export_well_formed (filter (has_type "ExportNamedDeclaration") t)
  = true ->
  convertExportNamedDeclarations t
  = flat_map unwrapExportNamed t
      ++ [ReturnStatement
            (ObjectExpression
               (flat_map exportedProperties
                  (filter (has_type "ExportNamedDeclaration") t)))].
Proof.
  intros Ht Hw. rewrite (convertExportNamedDeclarations_top_level t Ht).
  now rewrite getObjectExpression_exported.
Qed.

Lemma exported_return_clean (t : tree) :
  top_level_only t = true ->
  clean
    (ReturnStatement
       (ObjectExpression
          (flat_map exportedProperties
             (filter (has_type "ExportNamedDeclaration") t))))
  = true.
Proof.
  intros Ht. unfold ReturnStatement, ObjectExpression. cbn.
  rewrite !andb_true_r. apply forallb_forall. intros x Hx.
  apply in_flat_map in Hx as [d [Hd Hx]]. apply filter_In in Hd as [Hd _].
  unfold top_level_only in Ht. rewrite forallb_forall in Ht.
  pose proof (exportedProperties_clean d (Ht d Hd)) as Hc.
  rewrite forallb_forall in Hc. now apply Hc.
Qed.

(** C5: for a module in its input format (import and export
    declarations are statements of the body, export nodes are as a
    parser builds them), the named-export pass returns the statements in
    their order, every ExportNamedDeclaration replaced by its inline
    declaration or dropped when it has none, followed by exactly one
    return statement whose argument is an ObjectExpression; its
    properties are those of the export nodes in their order, and no
    ExportNamedDeclaration is left in the result.  An export node
    without inline declaration leaves no statement and gives one
    Property per specifier, in the order of the specifiers, with the
    [local] node of the specifier as key and as value and the
    [shorthand] flag [true] (the [exported] name is not read).  An
    export node with an inline VariableDeclaration leaves that
    declaration as a statement and gives one Property per declarator,
    with the [id] of the declarator as key and as value and no
    [shorthand] flag. *)
Theorem convertExportNamedDeclarations_properties (t : tree) :
  top_level_only t = true ->
  forallb export_well_formed (filter (has_type "ExportNamedDeclaration") t)
  = true ->
  convertExportNamedDeclarations t
  = flat_map unwrapExportNamed t
      ++ [ReturnStatement
            (ObjectExpression
               (flat_map exportedProperties
                  (filter (has_type "ExportNamedDeclaration") t)))]
  /\ has "ExportNamedDeclaration" (convertExportNamedDeclarations t) = false
  /\ (forall d specifiers,
        has_type "ExportNamedDeclaration" d = true ->
        truthy (get "declaration" d) = false ->
        get "specifiers" d = VArr specifiers ->
        unwrapExportNamed d = []
        /\ mapDeclarationToProperty d
           = VArr (map (fun s => Property (get "local" s) (get "local" s)
                                  (VBool true))
                     specifiers)
        /\ exportedProperties d
           = map (fun s =>
                    VObj [("type", VStr "Property");
                          ("key", get "local" s);
                          ("value", get "local" s);
                          ("shorthand", VBool true);
                          ("kind", VStr "init")])
               specifiers)
  /\ (forall d declarators,
        has_type "ExportNamedDeclaration" d = true ->
        has_type "VariableDeclaration" (get "declaration" d) = true ->
        get "declarations" (get "declaration" d) = VArr declarators ->
        unwrapExportNamed d = [get "declaration" d]
        /\ mapDeclarationToProperty d
           = VArr (map (fun r => Property (get "id" r) (get "id" r)
                                  VUndefined)
                     declarators)
        /\ exportedProperties d
           = map (fun r =>
                    VObj [("type", VStr "Property");
                          ("key", get "id" r);
                          ("value", get "id" r);
                          ("shorthand", VUndefined);
                          ("kind", VStr "init")])
               declarators).
Proof.
  intros Ht Hw.
  pose proof (convertExportNamedDeclarations_exported t Ht Hw) as Hc.
  split; [exact Hc|]. split; [|split].
  - rewrite Hc. destruct (unwrapExportNamed_tree t Ht) as [H1 H2].
    pose proof (exported_return_clean t Ht) as Hr.
    rewrite has_top_level; [|simpl; auto|].
    + rewrite existsb_app, H2. cbn [existsb orb].
      rewrite (clean_has_type "ExportNamedDeclaration" _
                 (or_intror (or_intror (or_introl eq_refl))) Hr).
      reflexivity.
    + unfold top_level_only in *. rewrite forallb_app, H1.
      cbn [forallb andb]. now rewrite (clean_clean_below _ Hr).
  - intros d specifiers Hd Hn Hs.
    unfold unwrapExportNamed, exportedProperties, mapDeclarationToProperty.
    cbv zeta. now rewrite Hd, Hn, Hs.
  - intros d declarators Hd Hv Hs.
    assert (Hi : truthy (get "declaration" d) = true).
    { destruct (has_type_object _ _ Hv) as [fs ->]. reflexivity. }
    unfold unwrapExportNamed, exportedProperties, mapDeclarationToProperty.
    cbv zeta. now rewrite Hd, Hi, Hv, Hs.
Qed.

Lemma convertExportNamedDeclarations_properties_witness :
  convertExportNamedDeclarations
    [ExportNamedDeclaration
       (VariableDeclaration
          [VariableDeclarator (Identifier (VStr "a")) (Literal (VNum 1))]
          "const") [];
     ExpressionStatement (Identifier (VStr "f"));
     ExportNamedDeclaration VNull
       [ExportSpecifier (Identifier (VStr "b")) (Identifier (VStr "c"))]]
  = [VariableDeclaration
       [VariableDeclarator (Identifier (VStr "a")) (Literal (VNum 1))]
       "const";
     ExpressionStatement (Identifier (VStr "f"));
     ReturnStatement
       (ObjectExpression
          [Property (Identifier (VStr "a")) (Identifier (VStr "a"))
             VUndefined;
           Property (Identifier (VStr "b")) (Identifier (VStr "b"))
             (VBool true)])].
Proof.
  exact (proj1
           (convertExportNamedDeclarations_properties
              [ExportNamedDeclaration
                 (VariableDeclaration
                    [VariableDeclarator (Identifier (VStr "a"))
                       (Literal (VNum 1))]
                    "const") [];
               ExpressionStatement (Identifier (VStr "f"));
               ExportNamedDeclaration VNull
                 [ExportSpecifier (Identifier (VStr "b"))
                    (Identifier (VStr "c"))]]
              eq_refl eq_refl)).
Defined.

(** ** The import-free paths *)

Lemma useStrict_clean : clean useStrict = true.
Proof. reflexivity. Qed.

Lemma replace_enter_useStrict (enter : value -> option value) (t : tree) :
  (forall v, is_module_declaration v = false -> enter v = None) ->
  exists fuel,
    replace_enter enter (useStrict :: t)
    = useStrict :: map (replace_enter_in (S fuel) enter) t.
Proof.
  intros He. unfold replace_enter. eexists. cbn [map]. f_equal.
  apply replace_enter_in_clean; [exact He|reflexivity].
Qed.

Lemma top_level_useStrict (t : tree) :
  top_level_only (useStrict :: t) = top_level_only t.
Proof. reflexivity. Qed.

Lemma convertExportDefaultDeclarationToDefine_top_level (t : tree) :
  top_level_only t = true ->
  convertExportDefaultDeclarationToDefine t
  = [getDefineWithFunctionExpression
       (useStrict :: map exportDefaultToReturn t)].
Proof.
  intros Ht. unfold convertExportDefaultDeclarationToDefine, wrap.
  unfold prependUseStrictLiteral, prepend. fold useStrict.
  rewrite convertExportDefaultDeclarationToReturn_top_level;
    [reflexivity|exact Ht].
Qed.

(** What [find] sees in the emitted call: the nodes of the wrapper are
    of none of the three types, so what is found is found among the
    parameters and in the body. *)
Lemma find_getDefine (ty : string) (nodes : list value) :
  In ty module_kinds ->
  find ty [getDefine nodes] = flat_map (find_in ty) nodes.
Proof.
  intros [<-|[<-|[<-|[]]]]; unfold find, getDefine; cbn;
    now rewrite !app_nil_r.
Qed.

Lemma find_in_getFunctionExpression (ty : string) (params body : list value) :
  In ty module_kinds ->
  find_in ty (getFunctionExpression params body)
  = flat_map (find_in ty) params ++ flat_map (find_in ty) body.
Proof.
  intros [<-|[<-|[<-|[]]]]; unfold getFunctionExpression; cbn;
    now rewrite !app_nil_r.
Qed.

Lemma has_true_iff (ty : string) (t : tree) :
  has ty t = true <-> find ty t <> [].
Proof. unfold has. destruct (find ty t); split; congruence. Qed.

(** C10: without imports and with both export forms, [convert] runs the
    default-export conversion alone; every ExportNamedDeclaration
    statement stands as it was in the body of the emitted factory, and
    the output still has ExportNamedDeclaration nodes. *)
Theorem convert_default_keeps_named_exports
  (identifier : list value -> string) (t : tree) :
  has "ImportDeclaration" t = false ->
  has "ExportDefaultDeclaration" t = true ->
  has "ExportNamedDeclaration" t = true ->
  convert identifier t = convertExportDefaultDeclarationToDefine t
  /\ (top_level_only t = true ->
      convert identifier t
      = [getDefineWithFunctionExpression
           (useStrict :: map exportDefaultToReturn t)]
      /\ (forall s, In s t ->
            has_type "ExportNamedDeclaration" s = true ->
            In s (map exportDefaultToReturn t))
      /\ has "ExportNamedDeclaration" (convert identifier t) = true).
Proof.
  intros Hi Hd Hn.
  assert (Hc : convert identifier t
               = convertExportDefaultDeclarationToDefine t).
  { unfold convert. now rewrite Hi, Hd. }
  split; [exact Hc|]. intros Ht.
  assert (Hkeep : forall s, In s t ->
            has_type "ExportNamedDeclaration" s = true ->
            In s (map exportDefaultToReturn t)).
  { intros s Hs E. apply in_map_iff. exists s. split; [|exact Hs].
    unfold exportDefaultToReturn.
    destruct (has_type "ExportDefaultDeclaration" s) eqn:E'; [|reflexivity].
    apply has_type_iff in E, E'. congruence. }
  rewrite Hc, (convertExportDefaultDeclarationToDefine_top_level t Ht).
  split; [reflexivity|]. split; [exact Hkeep|].
  apply has_true_iff. unfold getDefineWithFunctionExpression.
  rewrite find_getDefine by (simpl; auto). cbn [flat_map].
  rewrite find_in_getFunctionExpression by (simpl; auto).
  rewrite has_top_level in Hn by (simpl; auto).
  apply existsb_exists in Hn as [s [Hs E]].
  specialize (Hkeep s Hs E).
  cbn [flat_map app]. rewrite app_nil_r.
  intros Hnil. apply app_eq_nil in Hnil as [_ Hnil].
  assert (Hin : In s (flat_map (find_in "ExportNamedDeclaration")
                        (map exportDefaultToReturn t))).
  { apply in_flat_map. exists s. split; [exact Hkeep|].
    destruct (has_type_object _ _ E) as [fs ->].
    cbn [find_in]. rewrite E. now left. }
  rewrite Hnil in Hin. exact Hin.
Qed.

Lemma convert_default_keeps_named_exports_witness :
  has "ExportNamedDeclaration"
    (convert shortest_free_name
       [ExportDefaultDeclaration (Literal (VNum 42));
        ExportNamedDeclaration VNull
          [ExportSpecifier (Identifier (VStr "a"))
             (Identifier (VStr "a"))]])
  = true.
Proof.
  apply (convert_default_keeps_named_exports shortest_free_name
           [ExportDefaultDeclaration (Literal (VNum 42));
            ExportNamedDeclaration VNull
              [ExportSpecifier (Identifier (VStr "a"))
                 (Identifier (VStr "a"))]]);
    reflexivity.
Defined.

Lemma returnOfExportDefault_return (s : value) :
  has_type "ExportDefaultDeclaration" s = true ->
  has_type "ReturnStatement" (exportDefaultToReturn s) = true
  /\ get "argument" (exportDefaultToReturn s) = get "declaration" s.
Proof.
  intros E. unfold exportDefaultToReturn. rewrite E.
  destruct (has_type_object _ _ E) as [fs ->].
  rewrite returnOfExportDefault_fields. split.
  - apply has_type_iff. cbn [get].
    rewrite lookup_assign_other by reflexivity.
    apply lookup_assign_same.
  - cbn [get]. apply lookup_assign_same.
Qed.

Lemma convertExportNamedDeclarationToDefine_shape (t : tree) :
  exists kept,
    convertExportNamedDeclarationToDefine t
    = [getDefineWithFunctionExpression
         (useStrict
            :: kept
            ++ [ReturnStatement
                  (getObjectExpression
                     (find "ExportNamedDeclaration" t))])].
Proof.
  unfold convertExportNamedDeclarationToDefine, wrap.
  unfold prependUseStrictLiteral, prepend. fold useStrict.
  unfold convertExportNamedDeclarations, append.
  unfold convertExportNamedDeclarationToDeclaration.
  destruct (replace_enter_useStrict
              (fun node =>
                 if has_type "ExportNamedDeclaration" node
                    && truthy (get "declaration" node)
                 then Some (get "declaration" node)
                 else None) t) as [fuel Hr].
  { intros v Hv. unfold is_module_declaration in Hv.
    apply orb_false_iff in Hv as [_ Hv]. now rewrite Hv. }
  rewrite Hr. eexists. reflexivity.
Qed.

Lemma convertExportDefaultDeclarationToDefine_shape (t : tree) :
  exists stmts,
    convertExportDefaultDeclarationToDefine t
    = [getDefineWithFunctionExpression (useStrict :: stmts)].
Proof.
  unfold convertExportDefaultDeclarationToDefine, wrap.
  unfold prependUseStrictLiteral, prepend. fold useStrict.
  unfold convertExportDefaultDeclarationToReturn.
  destruct (replace_enter_useStrict
              (fun node =>
                 if has_type "ExportDefaultDeclaration" node
                 then Some (set_field "argument" (get "declaration" node)
                              (set_field "type" (VStr "ReturnStatement")
                                 node))
                 else None) t) as [fuel Hr].
  { intros v Hv. unfold is_module_declaration in Hv.
    apply orb_false_iff in Hv as [Hv _].
    apply orb_false_iff in Hv as [_ Hv]. now rewrite Hv. }
  rewrite Hr. eexists. reflexivity.
Qed.

Lemma find_useStrict (ty : string) (t : tree) :
  In ty module_kinds -> find ty (useStrict :: t) = find ty t.
Proof. intros [<-|[<-|[<-|[]]]]; reflexivity. Qed.

Lemma convertExportNamedDeclarationToDefine_top_level (t : tree) :
  top_level_only t = true ->
  convertExportNamedDeclarationToDefine t
  = [getDefineWithFunctionExpression
       (useStrict
          :: flat_map unwrapExportNamed t
          ++ [ReturnStatement
                (getObjectExpression
                   (filter (has_type "ExportNamedDeclaration") t))])].
Proof.
  intros Ht. unfold convertExportNamedDeclarationToDefine, wrap.
  unfold prependUseStrictLiteral, prepend. fold useStrict.
  rewrite convertExportNamedDeclarations_top_level by exact Ht.
  reflexivity.
Qed.

(** C6, as the code has it: without imports and with an export, the
    output is one expression statement, the call of [define] with one
    argument, a function expression without parameters whose block
    starts with the "use strict" directive.  With named exports and no
    default export (export nodes as a parser builds them) the block
    ends with one return statement whose argument is the
    ObjectExpression of the exported properties; for a module in its
    input format the statements between the directive and that return
    are the statements of the module in their order, every
    ExportNamedDeclaration replaced by its inline declaration or dropped
    when it has none.  With a default export, for a module in its input
    format, the directive is followed by the statements of the module
    in their order, every ExportDefaultDeclaration turned where it
    stands into a ReturnStatement whose argument is its declaration. *)
Theorem convert_without_imports_shape
  (identifier : list value -> string) (t : tree) :
  has "ImportDeclaration" t = false ->
  has "ExportDefaultDeclaration" t = true
  \/ has "ExportNamedDeclaration" t = true ->
  exists stmts,
    convert identifier t
    = [ExpressionStatement
         (CallExpression (Identifier (VStr "define"))
            [FunctionExpression []
               (ExpressionStatement (Literal (VStr "use strict"))
                  :: stmts)])]
    /\ (has "ExportDefaultDeclaration" t = false ->
        forallb export_well_formed (find "ExportNamedDeclaration" t)
        = true ->
        exists kept,
          stmts
          = kept
              ++ [ReturnStatement
                    (ObjectExpression
                       (flat_map exportedProperties
                          (find "ExportNamedDeclaration" t)))]
          /\ (top_level_only t = true ->
              kept = flat_map unwrapExportNamed t))
    /\ (has "ExportDefaultDeclaration" t = true ->
        top_level_only t = true ->
        stmts = map exportDefaultToReturn t
        /\ forall s, has_type "ExportDefaultDeclaration" s = true ->
             has_type "ReturnStatement" (exportDefaultToReturn s) = true
             /\ get "argument" (exportDefaultToReturn s)
                = get "declaration" s).
Proof.
  intros Hi Hex. unfold convert. rewrite Hi.
  destruct (has "ExportDefaultDeclaration" t) eqn:Hd.
  - destruct (top_level_only t) eqn:Ht.
    + exists (map exportDefaultToReturn t).
      split; [now apply convertExportDefaultDeclarationToDefine_top_level|].
      split; [discriminate|]. intros _ _.
      split; [reflexivity|apply returnOfExportDefault_return].
    + destruct (convertExportDefaultDeclarationToDefine_shape t)
        as [stmts Hs].
      exists stmts. split; [exact Hs|]. split; discriminate.
  - destruct Hex as [Hex|Hn]; [discriminate|]. rewrite Hn.
    destruct (top_level_only t) eqn:Ht.
    + eexists. split;
        [now apply convertExportNamedDeclarationToDefine_top_level|].
      split; [|discriminate]. intros _ Hw.
      exists (flat_map unwrapExportNamed t). split; [|reflexivity].
      rewrite getObjectExpression_exported.
      * now rewrite (find_top_level "ExportNamedDeclaration" t)
          by (simpl; auto).
      * now rewrite (find_top_level "ExportNamedDeclaration" t) in Hw
          by (simpl; auto).
    + destruct (convertExportNamedDeclarationToDefine_shape t)
        as [kept Hk].
      eexists. split; [exact Hk|]. split; [|discriminate].
      intros _ Hw. exists kept. split; [|discriminate].
      now rewrite getObjectExpression_exported.
Qed.

Lemma convert_without_imports_shape_witness :
  exists stmts,
    convert shortest_free_name
      [ExportNamedDeclaration
         (VariableDeclaration
            [VariableDeclarator (Identifier (VStr "a")) (Literal (VNum 1))]
            "const") [];
       ExpressionStatement (Identifier (VStr "f"))]
    = [ExpressionStatement
         (CallExpression (Identifier (VStr "define"))
            [FunctionExpression []
               (ExpressionStatement (Literal (VStr "use strict"))
                  :: stmts)])]
    /\ stmts
       = [VariableDeclaration
            [VariableDeclarator (Identifier (VStr "a")) (Literal (VNum 1))]
            "const";
          ExpressionStatement (Identifier (VStr "f"));
          ReturnStatement
            (ObjectExpression
               [Property (Identifier (VStr "a")) (Identifier (VStr "a"))
                  VUndefined])].
Proof.
  destruct (convert_without_imports_shape shortest_free_name
              [ExportNamedDeclaration
                 (VariableDeclaration
                    [VariableDeclarator (Identifier (VStr "a"))
                       (Literal (VNum 1))]
                    "const") [];
               ExpressionStatement (Identifier (VStr "f"))]
              eq_refl (or_intror eq_refl))
    as [stmts [H1 [H2 _]]].
  destruct (H2 eq_refl eq_refl) as [kept [Hs Hk]].
  exists stmts. split; [exact H1|].
  rewrite Hs, (Hk eq_refl). reflexivity.
Defined.

(** C6 as stated fails: for [export default 42; foo] the block of the
    factory ends with the statement [foo], not with a return statement. *)
Lemma convert_default_not_last :
  has "ImportDeclaration"
    [ExportDefaultDeclaration (Literal (VNum 42));
     ExpressionStatement (Identifier (VStr "foo"))] = false
  /\ has "ExportDefaultDeclaration"
       [ExportDefaultDeclaration (Literal (VNum 42));
        ExpressionStatement (Identifier (VStr "foo"))] = true
  /\ ~ (exists stmts ret,
          convert shortest_free_name
            [ExportDefaultDeclaration (Literal (VNum 42));
             ExpressionStatement (Identifier (VStr "foo"))]
          = [getDefineWithFunctionExpression
               (useStrict :: stmts ++ [ret])]
          /\ has_type "ReturnStatement" ret = true).
Proof.
  split; [reflexivity|]. split; [reflexivity|].
  intros [stmts [ret [H E]]].
  assert (Hb : [exportDefaultToReturn
                  (ExportDefaultDeclaration (Literal (VNum 42)))]
                 ++ [ExpressionStatement (Identifier (VStr "foo"))]
               = stmts ++ [ret]).
  { vm_compute in H. injection H as H. exact H. }
  apply app_inj_tail in Hb as [_ <-]. discriminate.
Qed.

(** ** A converted tree is clean *)

Lemma clean_tree_has (ty : string) (t : tree) :
  In ty module_kinds -> forallb clean t = true -> has ty t = false.
Proof.
  intros Hty Ht. unfold has, find. rewrite flat_map_nil; [reflexivity|].
  rewrite forallb_forall in Ht. intros s Hs.
  apply find_in_clean; auto.
Qed.

Lemma clean_getDefine (nodes : list value) :
  clean (getDefine nodes) = forallb clean nodes.
Proof. unfold getDefine. cbn. now rewrite !andb_true_r. Qed.

Lemma clean_getFunctionExpression (params body : list value) :
  clean (getFunctionExpression params body)
  = forallb clean params && forallb clean body.
Proof. unfold getFunctionExpression. cbn. now rewrite !andb_true_r. Qed.

Lemma existsb_false (A : Type) (f : A -> bool) (l : list A) (x : A) :
  existsb f l = false -> In x l -> f x = false.
Proof.
  intros H Hx. destruct (f x) eqn:E; [|reflexivity].
  assert (existsb f l = true) by (apply existsb_exists; eauto).
  congruence.
Qed.

Lemma is_module_declaration_false (s : value) :
  has_type "ImportDeclaration" s = false ->
  has_type "ExportDefaultDeclaration" s = false ->
  has_type "ExportNamedDeclaration" s = false ->
  is_module_declaration s = false.
Proof.
  intros H1 H2 H3. unfold is_module_declaration. now rewrite H1, H2, H3.
Qed.

Lemma exportDefaultToReturn_clean (s : value) :
  clean_below s = true ->
  has_type "ImportDeclaration" s = false ->
  has_type "ExportNamedDeclaration" s = false ->
  clean (exportDefaultToReturn s) = true.
Proof.
  intros Hs Hi Hn. unfold exportDefaultToReturn.
  destruct (has_type "ExportDefaultDeclaration" s) eqn:E.
  - destruct (has_type_object _ _ E) as [fs ->].
    rewrite returnOfExportDefault_fields.
    apply clean_below_clean.
    + cbn [clean_below]. apply clean_assign; [now apply clean_lookup|].
      now apply clean_assign.
    + assert (Hty : get "type"
                      (VObj (assign "argument" (lookup "declaration" fs)
                               (assign "type" (VStr "ReturnStatement") fs)))
                    = VStr "ReturnStatement").
      { cbn [get]. rewrite lookup_assign_other by reflexivity.
        apply lookup_assign_same. }
      unfold is_module_declaration, has_type. now rewrite Hty.
  - apply clean_below_clean; [exact Hs|].
    now apply is_module_declaration_false.
Qed.

Lemma default_step_clean (t : tree) :
  top_level_only t = true ->
  existsb (has_type "ImportDeclaration") t = false ->
  existsb (has_type "ExportNamedDeclaration") t = false ->
  forallb clean (map exportDefaultToReturn t) = true.
Proof.
  intros Ht Hi Hn. apply forallb_forall. intros x Hx.
  apply in_map_iff in Hx as [s [<- Hs]].
  unfold top_level_only in Ht. rewrite forallb_forall in Ht.
  apply exportDefaultToReturn_clean; [now apply Ht| |].
  - exact (existsb_false _ _ _ s Hi Hs).
  - exact (existsb_false _ _ _ s Hn Hs).
Qed.

Lemma none_step_clean (t : tree) :
  top_level_only t = true ->
  existsb (has_type "ImportDeclaration") t = false ->
  existsb (has_type "ExportDefaultDeclaration") t = false ->
  existsb (has_type "ExportNamedDeclaration") t = false ->
  forallb clean t = true.
Proof.
  intros Ht Hi Hd Hn. apply forallb_forall. intros s Hs.
  unfold top_level_only in Ht. rewrite forallb_forall in Ht.
  apply clean_below_clean; [now apply Ht|].
  apply is_module_declaration_false.
  - exact (existsb_false _ _ _ s Hi Hs).
  - exact (existsb_false _ _ _ s Hd Hs).
  - exact (existsb_false _ _ _ s Hn Hs).
Qed.

Lemma flatten_item_clean (v x : value) :
  clean v = true -> In x (flatten_item v) -> clean x = true.
Proof.
  revert x. induction v using value_deep_ind; intros y Hc Hy;
    try (destruct Hy as [<-|[]]; exact Hc).
  cbn [flatten_item] in Hy. apply in_flat_map in Hy as [x [Hx Hy]].
  cbn [clean] in Hc. rewrite forallb_forall in Hc.
  apply (H x Hx y); auto.
Qed.

Lemma clean_array_map (f : value -> value) (v : value) :
  (forall x, clean x = true -> clean (f x) = true) ->
  clean v = true -> clean (array_map f v) = true.
Proof.
  intros Hf Hc. destruct v; try reflexivity. cbn [array_map clean] in *.
  rewrite forallb_forall in *. intros y Hy.
  apply in_map_iff in Hy as [x [<- Hx]]. auto.
Qed.

Lemma clean_getProperty (node shorthand : value) :
  clean node = true -> clean shorthand = true ->
  clean (getProperty node shorthand) = true.
Proof.
  intros H1 H2. unfold getProperty. cbn. now rewrite H1, H2.
Qed.

Lemma mapDeclarationToProperty_clean (declaration : value) :
  clean_below declaration = true ->
  clean (mapDeclarationToProperty declaration) = true.
Proof.
  intros Hd. unfold mapDeclarationToProperty.
  destruct (negb _ && _).
  - apply clean_array_map; [|now apply clean_below_get].
    intros x Hx. apply clean_getProperty; [now apply clean_get|reflexivity].
  - destruct (has_type "VariableDeclaration" _).
    + apply clean_array_map.
      * intros x Hx. apply clean_getProperty;
          [now apply clean_get|reflexivity].
      * apply clean_get. now apply clean_below_get.
    + apply clean_getProperty; [|reflexivity].
      apply clean_get. now apply clean_below_get.
Qed.

Lemma getObjectExpression_clean (declarations : list value) :
  (forall d, In d declarations -> clean_below d = true) ->
  clean (getObjectExpression declarations) = true.
Proof.
  intros Hd. unfold getObjectExpression. cbn. rewrite andb_true_r.
  apply forallb_forall. intros x Hx.
  unfold mapDeclarationsToProperties, flatten in Hx.
  apply in_flat_map in Hx as [p [Hp Hx]].
  apply in_map_iff in Hp as [d [<- Hin]].
  apply (flatten_item_clean (mapDeclarationToProperty d) x); [|exact Hx].
  apply mapDeclarationToProperty_clean. now apply Hd.
Qed.

Lemma clean_ReturnStatement (argument : value) :
  clean (ReturnStatement argument) = clean argument.
Proof. unfold ReturnStatement. cbn. now rewrite andb_true_r. Qed.

Lemma named_step_clean (t : tree) :
  top_level_only t = true ->
  existsb (has_type "ImportDeclaration") t = false ->
  existsb (has_type "ExportDefaultDeclaration") t = false ->
  forallb clean
    (flat_map unwrapExportNamed t
       ++ [ReturnStatement
             (getObjectExpression
                (filter (has_type "ExportNamedDeclaration") t))])
  = true.
Proof.
  intros Ht Hi Hd. unfold top_level_only in Ht.
  rewrite forallb_forall in Ht.
  rewrite forallb_app. apply andb_true_iff. split.
  - apply forallb_forall. intros x Hx.
    apply in_flat_map in Hx as [s [Hs Hx]].
    destruct (unwrapExportNamed_kept s x (Ht s Hs) Hx) as [Hc Hn].
    revert Hx. unfold unwrapExportNamed.
    destruct (has_type "ExportNamedDeclaration" s) eqn:E.
    + destruct (truthy _); [|intros []]. intros [<-|[]].
      apply clean_below_get. now apply Ht.
    + intros [<-|[]]. apply clean_below_clean; [exact Hc|].
      apply is_module_declaration_false; [| |exact E].
      * exact (existsb_false _ _ _ s Hi Hs).
      * exact (existsb_false _ _ _ s Hd Hs).
  - cbn [forallb]. rewrite andb_true_r.
    assert (Ho : clean (getObjectExpression
                          (filter (has_type "ExportNamedDeclaration") t))
                 = true).
    { apply getObjectExpression_clean. intros d Hin.
      apply filter_In in Hin as [Hin _]. now apply Ht. }
    now rewrite clean_ReturnStatement.
Qed.

Lemma memo_get_clean (k : string) (m : memo) : clean (memo_get k m) = true.
Proof.
  induction m as [|[k' p] m IH]; simpl; [reflexivity|].
  now destruct (String.eqb k k').
Qed.

Section ResolverClean.

Variable identifier : list value -> string.
Variable ids : list value.

Lemma getLocalSpecifier_clean (node specifier : value) :
  clean_below node = true -> clean specifier = true ->
  clean (getLocalSpecifier node specifier) = true.
Proof.
  intros Hn Hs. unfold getLocalSpecifier. cbn.
  rewrite (clean_get "value" _ (clean_below_get "source" _ Hn)).
  now rewrite (clean_get "name" _ (clean_get "local" _ Hs)).
Qed.

Lemma specifierPair_clean (node specifier : value) (m : memo) :
  clean_below node = true -> clean specifier = true ->
  clean (fst (specifierPair identifier ids node specifier m)) = true.
Proof.
  intros Hn Hs. unfold specifierPair.
  destruct (_ || _); [now apply getLocalSpecifier_clean|].
  destruct (has_type "ImportSpecifier" specifier); [|reflexivity].
  destruct (negb _); [now apply getLocalSpecifier_clean|].
  pose proof (clean_get "value" _ (clean_below_get "source" _ Hn)) as He.
  pose proof (clean_get "name" _ (clean_get "local" _ Hs)) as Hl.
  destruct (hasOwnProperty _ m); cbn; rewrite He, Hl, ?memo_get_clean;
    reflexivity.
Qed.

Lemma specifierPairs_clean (node : value) (specifiers : list value)
  (m : memo) :
  clean_below node = true -> forallb clean specifiers = true ->
  forallb clean (fst (specifierPairs identifier ids node specifiers m))
  = true.
Proof.
  intros Hn. revert m. induction specifiers as [|s rest IH]; intros m Hs;
    [reflexivity|].
  cbn [forallb] in Hs. apply andb_true_iff in Hs as [Hs Hrest].
  cbn [specifierPairs].
  pose proof (specifierPair_clean node s m Hn Hs) as H1.
  destruct (specifierPair identifier ids node s m) as [r m1].
  specialize (IH m1 Hrest).
  destruct (specifierPairs identifier ids node rest m1) as [rs m2].
  cbn [fst forallb] in *. now rewrite H1, IH.
Qed.

Lemma importPairs_clean (node : value) (m : memo) :
  clean_below node = true ->
  clean (fst (importPairs identifier ids node m)) = true.
Proof.
  intros Hn. unfold importPairs.
  destruct (isSideEffectImportDeclaration node).
  { cbn. now rewrite (clean_get "value" _ (clean_below_get "source" _ Hn)). }
  pose proof (clean_below_get "specifiers" _ Hn) as Hs.
  destruct (get "specifiers" node) as [| | | | |specifiers|];
    try reflexivity.
  pose proof (specifierPairs_clean node specifiers m Hn Hs) as H.
  destruct (specifierPairs identifier ids node specifiers m) as [rs m'].
  exact H.
Qed.

Lemma importsPairs_clean (imports : list value) (m : memo) :
  forallb clean_below imports = true ->
  forallb clean (fst (importsPairs identifier ids imports m)) = true.
Proof.
  revert m. induction imports as [|node rest IH]; intros m Hi;
    [reflexivity|].
  cbn [forallb] in Hi. apply andb_true_iff in Hi as [Hn Hrest].
  cbn [importsPairs].
  pose proof (importPairs_clean node m Hn) as H1.
  destruct (importPairs identifier ids node m) as [r m1].
  specialize (IH m1 Hrest).
  destruct (importsPairs identifier ids rest m1) as [rs m2].
  cbn [fst forallb] in *. now rewrite H1, IH.
Qed.

End ResolverClean.

Lemma getDependencyPairs_clean (identifier : list value -> string)
  (t : tree) :
  top_level_only t = true ->
  forall pair, In pair (getDependencyPairs identifier t) ->
               clean pair = true.
Proof.
  intros Ht pair Hp. unfold getDependencyPairs, flatten in Hp.
  apply in_flat_map in Hp as [r [Hr Hp]].
  apply (flatten_item_clean r pair); [|exact Hp]. clear Hp.
  revert r Hr. apply forallb_forall. apply importsPairs_clean.
  rewrite find_top_level by (simpl; auto).
  apply forallb_forall. intros n Hn. apply filter_In in Hn as [Hn _].
  unfold top_level_only in Ht. rewrite forallb_forall in Ht. now apply Ht.
Qed.

(** The rewriter keeps a clean value clean and the type of a statement
    as it is, for the three types. *)
Section RewriterClean.

Variable pairs : list value.
Hypothesis pairs_clean : forall pair, In pair pairs -> clean pair = true.

Lemma leaveReference_result (node : value) :
  leaveReference pairs node = Some node
  \/ (has_type "Identifier" node = true
      /\ exists pair,
           clean pair = true
           /\ leaveReference pairs node
              = Some (convertIdentifierToMemberExpression pair)).
Proof.
  unfold leaveReference.
  destruct (has_type "Identifier" node); [|now left].
  destruct (indexOf _ _) as [index|]; [|now left].
  right. split; [reflexivity|]. eexists. split; [|reflexivity].
  destruct (nth_in_or_default index (grouped pairs) VUndefined) as [H | ->];
    [|reflexivity].
  apply pairs_clean. unfold grouped in H. now apply filter_In in H.
Qed.

Lemma convertIdentifierToMemberExpression_clean (pair : value) :
  clean pair = true ->
  clean (convertIdentifierToMemberExpression pair) = true.
Proof.
  intros Hp. unfold convertIdentifierToMemberExpression. cbn.
  now rewrite (clean_get "param" _ Hp), (clean_get "name" _ Hp).
Qed.

Lemma replace_leave_in_string (v : value) (s : string) :
  replace_leave_in (leaveReference pairs) v = VStr s <-> v = VStr s.
Proof.
  destruct v; cbn [replace_leave_in]; try tauto.
  - split; discriminate.
  - set (node := VObj _).
    destruct (leaveReference_result node) as [->|[_ [pair [_ ->]]]];
      cbn [keep_or]; split; discriminate.
Qed.

Lemma lookup_replace_leave (k : string) (fs : list (string * value)) :
  lookup k
    (map (fun f => (fst f, replace_leave_in (leaveReference pairs) (snd f)))
       fs)
  = replace_leave_in (leaveReference pairs) (lookup k fs).
Proof.
  induction fs as [|[k' x] fs IH]; simpl; [reflexivity|].
  now destruct (String.eqb k k').
Qed.

Lemma has_type_replace_leave (ty : string) (fs : list (string * value)) :
  has_type ty
    (VObj (map (fun f => (fst f,
                          replace_leave_in (leaveReference pairs) (snd f)))
             fs))
  = has_type ty (VObj fs).
Proof.
  unfold has_type. cbn [get]. rewrite lookup_replace_leave.
  destruct (value_eqb (lookup "type" fs) (VStr ty)) eqn:E.
  - apply value_eqb_eq in E. rewrite E. apply value_eqb_refl.
  - apply value_eqb_neq. apply value_eqb_neq in E. intros H. apply E.
    exact (proj1 (replace_leave_in_string _ _) H).
Qed.

Lemma replace_leave_in_clean (v : value) :
  clean v = true -> clean (replace_leave_in (leaveReference pairs) v) = true.
Proof.
  induction v using value_deep_ind; intros Hc; try reflexivity.
  - cbn [replace_leave_in clean] in *. rewrite forallb_forall in *.
    intros y Hy. apply in_map_iff in Hy as [x [<- Hx]]. auto.
  - cbn [replace_leave_in]. set (node := VObj _).
    assert (Hnode : clean node = true).
    { subst node. cbn [clean]. apply andb_true_iff. split.
      - unfold is_module_declaration. rewrite !has_type_replace_leave.
        apply negb_true_iff. now apply clean_not_declaration.
      - apply clean_fields in Hc. rewrite forallb_forall in *.
        intros [k y] Hy. apply in_map_iff in Hy as [[k' x] [Hxy Hx]].
        injection Hxy as <- <-. simpl. apply (H k' x Hx).
        apply (Hc _ Hx). }
    destruct (leaveReference_result node) as [->|[_ [pair [Hp ->]]]];
      cbn [keep_or]; [exact Hnode|].
    now apply convertIdentifierToMemberExpression_clean.
Qed.

Lemma replace_leave_in_statement (s : value) :
  clean_below s = true ->
  clean_below (replace_leave_in (leaveReference pairs) s) = true
  /\ forall ty, In ty module_kinds ->
       has_type ty (replace_leave_in (leaveReference pairs) s)
       = has_type ty s.
Proof.
  intros Hs. destruct s;
    try (split; [reflexivity|intros ty _; reflexivity]).
  - split; [|intros ty _; reflexivity].
    apply clean_clean_below. now apply replace_leave_in_clean.
  - cbn [replace_leave_in]. set (node := VObj _).
    assert (Hnode : clean_below node = true).
    { subst node. cbn [clean_below] in *. rewrite forallb_forall in *.
      intros [k y] Hy. apply in_map_iff in Hy as [[k' x] [Hxy Hx]].
      injection Hxy as <- <-. simpl. apply replace_leave_in_clean.
      apply (Hs _ Hx). }
    assert (Hty : forall ty, has_type ty node = has_type ty (VObj fields)).
    { intros ty. apply has_type_replace_leave. }
    destruct (leaveReference_result node) as [->|[Hid [pair [Hp ->]]]];
      cbn [keep_or]; [now split|].
    split.
    + apply clean_clean_below.
      now apply convertIdentifierToMemberExpression_clean.
    + intros ty Hk. rewrite <- Hty. apply has_type_iff in Hid.
      unfold has_type at 2. rewrite Hid.
      destruct Hk as [<-|[<-|[<-|[]]]]; reflexivity.
Qed.

Lemma normalizePairs_top_level (t : tree) :
  top_level_only t = true ->
  top_level_only (normalizePairs pairs t) = true
  /\ forall ty, In ty module_kinds ->
       existsb (has_type ty) (normalizePairs pairs t)
       = existsb (has_type ty) t.
Proof.
  rewrite normalizePairs_unfold. unfold top_level_only.
  induction t as [|s t IH]; [now split|].
  cbn [forallb map existsb]. intros H.
  apply andb_true_iff in H as [Hs Ht].
  destruct (replace_leave_in_statement s Hs) as [H1 H2].
  destruct (IH Ht) as [H3 H4]. split.
  - now rewrite H1, H3.
  - intros ty Hk. now rewrite (H2 ty Hk), (H4 ty Hk).
Qed.

End RewriterClean.

Lemma unique_by_from_In (key : value -> value) (seen l : list value)
  (x : value) :
  In x (unique_by_from key seen l) -> In x l.
Proof.
  revert seen. induction l as [|y l IH]; intros seen; simpl; [tauto|].
  destruct (existsb _ seen); simpl.
  - intros H. right. now apply (IH seen).
  - intros [H|H]; [now left|right; now apply (IH _ H)].
Qed.

Lemma clean_getArrayExpression (elements : list value) :
  clean (getArrayExpression elements) = forallb clean elements.
Proof. unfold getArrayExpression. cbn. now rewrite !andb_true_r. Qed.

Lemma wrapWithDefineWithArrayExpression_clean (pairs : list value)
  (body : tree) :
  (forall pair, In pair pairs -> clean pair = true) ->
  forallb clean body = true ->
  forallb clean (wrapWithDefineWithArrayExpression pairs body) = true.
Proof.
  intros Hp Hb. unfold wrapWithDefineWithArrayExpression, wrap.
  cbn [forallb]. rewrite andb_true_r, clean_getDefine. cbn [forallb].
  rewrite andb_true_r, clean_getArrayExpression,
    clean_getFunctionExpression, Hb, andb_true_r.
  apply andb_true_iff. split; apply forallb_forall; intros x Hx.
  - apply in_map_iff in Hx as [e [<- He]].
    apply in_map_iff in He as [pair [<- Hin]].
    apply unique_by_from_In in Hin. cbn.
    now rewrite (clean_get "element" _ (Hp _ Hin)).
  - apply in_map_iff in Hx as [e [<- He]].
    apply in_map_iff in He as [pair [<- Hin]].
    apply filter_In in Hin as [Hin _].
    apply unique_by_from_In in Hin. cbn.
    now rewrite (clean_get "param" _ (Hp _ Hin)).
Qed.

Lemma filter_top_level (f : value -> bool) (t : tree) :
  top_level_only t = true -> top_level_only (filter f t) = true.
Proof.
  unfold top_level_only. intros H. rewrite forallb_forall in *.
  intros s Hs. apply filter_In in Hs as [Hs _]. now apply H.
Qed.

Lemma existsb_filter_true (f g : value -> bool) (t : tree) :
  existsb f (filter g t) = true -> existsb f t = true.
Proof.
  intros H. apply existsb_exists in H as [s [Hs E]].
  apply filter_In in Hs as [Hs _]. apply existsb_exists. eauto.
Qed.

Lemma existsb_filter_negb (f : value -> bool) (t : tree) :
  existsb f (filter (fun s => negb (f s)) t) = false.
Proof.
  apply not_true_is_false. intros H.
  apply existsb_exists in H as [s [Hs E]].
  apply filter_In in Hs as [_ Hs]. rewrite E in Hs. discriminate.
Qed.

(** The export step of either path, on a tree without import
    statements that does not have both export forms. *)
Lemma export_step_clean (t : tree) :
  top_level_only t = true ->
  existsb (has_type "ImportDeclaration") t = false ->
  existsb (has_type "ExportDefaultDeclaration") t
  && existsb (has_type "ExportNamedDeclaration") t = false ->
  forallb clean
    (if has "ExportDefaultDeclaration" t
     then convertExportDefaultDeclarationToReturn t
     else if has "ExportNamedDeclaration" t
          then convertExportNamedDeclarations t
          else t) = true.
Proof.
  intros Ht Hi Hboth.
  rewrite !has_top_level by (simpl; auto || exact Ht).
  destruct (existsb (has_type "ExportDefaultDeclaration") t) eqn:Hd.
  - rewrite (convertExportDefaultDeclarationToReturn_top_level t Ht).
    now apply default_step_clean.
  - destruct (existsb (has_type "ExportNamedDeclaration") t) eqn:Hn.
    + rewrite (convertExportNamedDeclarations_top_level t Ht).
      now apply named_step_clean.
    + now apply none_step_clean.
Qed.

Lemma convert_clean (identifier : list value -> string) (t : tree) :
  top_level_only t = true ->
  has "ExportDefaultDeclaration" t && has "ExportNamedDeclaration" t = false ->
  forallb clean (convert identifier t) = true.
Proof.
  intros Ht Hboth.
  rewrite !has_top_level in Hboth by (simpl; auto || exact Ht).
  unfold convert.
  destruct (has "ImportDeclaration" t) eqn:Hi.
  - unfold convertCodeWithImportDeclarations.
    pose proof (getDependencyPairs_clean identifier t Ht) as Hp.
    set (pairs := getDependencyPairs identifier t) in *.
    rewrite (remove_top_level "ImportDeclaration" t) by (simpl; auto).
    set (t1 := filter (fun s => negb (has_type "ImportDeclaration" s)) t).
    assert (Ht1 : top_level_only t1 = true) by now apply filter_top_level.
    destruct (normalizePairs_top_level pairs Hp t1 Ht1) as [Ht2 He2].
    set (t2 := normalizePairs pairs t1) in *.
    apply wrapWithDefineWithArrayExpression_clean; [exact Hp|].
    unfold prependUseStrictLiteral, prepend. cbn [forallb].
    rewrite andb_true_l. apply export_step_clean; [exact Ht2| |].
    + rewrite He2 by (simpl; auto). apply existsb_filter_negb.
    + rewrite !He2 by (simpl; auto).
      destruct (existsb (has_type "ExportDefaultDeclaration") t1) eqn:Hd;
        [|reflexivity].
      destruct (existsb (has_type "ExportNamedDeclaration") t1) eqn:Hn;
        [|reflexivity].
      apply existsb_filter_true in Hd, Hn. now rewrite Hd, Hn in Hboth.
  - rewrite has_top_level in Hi by (simpl; auto).
    rewrite !has_top_level by (simpl; auto || exact Ht).
    destruct (existsb (has_type "ExportDefaultDeclaration") t) eqn:Hd.
    + rewrite (convertExportDefaultDeclarationToDefine_top_level t Ht).
      cbn [forallb]. unfold getDefineWithFunctionExpression.
      rewrite clean_getDefine. cbn [forallb].
      rewrite clean_getFunctionExpression. cbn [forallb].
      rewrite useStrict_clean, !andb_true_r, andb_true_l.
      now apply default_step_clean.
    + destruct (existsb (has_type "ExportNamedDeclaration") t) eqn:Hn.
      * unfold convertExportNamedDeclarationToDefine, wrap.
        unfold prependUseStrictLiteral, prepend. fold useStrict.
        rewrite convertExportNamedDeclarations_top_level by exact Ht.
        cbn [forallb]. unfold getDefineWithFunctionExpression.
        rewrite clean_getDefine. cbn [forallb].
        rewrite clean_getFunctionExpression. cbn [forallb].
        rewrite !andb_true_r.
        apply (named_step_clean (useStrict :: t)); [exact Ht| |].
        -- cbn [existsb]. exact Hi.
        -- cbn [existsb]. exact Hd.
      * now apply none_step_clean.
Qed.

(** ** Converting twice *)

(** C8, as the code has it: for a module whose import and export
    declarations are statements of the body and which does not have
    both a default export and named exports, the output of [convert]
    has no ImportDeclaration, ExportDefaultDeclaration or
    ExportNamedDeclaration node, and converting it again changes
    nothing. *)
Theorem convert_idempotent (identifier : list value -> string) (t : tree) :
  top_level_only t = true ->
  has "ExportDefaultDeclaration" t && has "ExportNamedDeclaration" t = false ->
  (has "ImportDeclaration" (convert identifier t) = false
   /\ has "ExportDefaultDeclaration" (convert identifier t) = false
   /\ has "ExportNamedDeclaration" (convert identifier t) = false)
  /\ convert identifier (convert identifier t) = convert identifier t.
Proof.
  intros Ht Hboth.
  pose proof (convert_clean identifier t Ht Hboth) as Hc.
  assert (H : has "ImportDeclaration" (convert identifier t) = false
              /\ has "ExportDefaultDeclaration" (convert identifier t)
                 = false
              /\ has "ExportNamedDeclaration" (convert identifier t)
                 = false).
  { repeat split; apply clean_tree_has; simpl; auto. }
  split; [exact H|]. destruct H as [H1 [H2 H3]].
  unfold convert at 1. now rewrite H1, H2, H3.
Qed.

Lemma convert_idempotent_witness :
  convert shortest_free_name
    (convert shortest_free_name
       [ImportDeclaration
          [ImportSpecifier "x" "x"; ImportSpecifier "y" "y"] "m";
        ExportDefaultDeclaration
          (CallExpression (Identifier (VStr "f"))
             [Identifier (VStr "x"); Identifier (VStr "y")])])
  = convert shortest_free_name
      [ImportDeclaration
         [ImportSpecifier "x" "x"; ImportSpecifier "y" "y"] "m";
       ExportDefaultDeclaration
         (CallExpression (Identifier (VStr "f"))
            [Identifier (VStr "x"); Identifier (VStr "y")])].
Proof.
  apply (convert_idempotent shortest_free_name
           [ImportDeclaration
              [ImportSpecifier "x" "x"; ImportSpecifier "y" "y"] "m";
            ExportDefaultDeclaration
              (CallExpression (Identifier (VStr "f"))
                 [Identifier (VStr "x"); Identifier (VStr "y")])]);
    reflexivity.
Defined.

(** C8 as stated fails: [export default 42; export {a}] is converted
    with its named export left in the factory body, and a second
    conversion wraps that output once more. *)
Lemma convert_twice_differs :
  has "ExportNamedDeclaration"
    (convert shortest_free_name
       [ExportDefaultDeclaration (Literal (VNum 42));
        ExportNamedDeclaration VNull
          [ExportSpecifier (Identifier (VStr "a"))
             (Identifier (VStr "a"))]]) = true
  /\ convert shortest_free_name
       (convert shortest_free_name
          [ExportDefaultDeclaration (Literal (VNum 42));
           ExportNamedDeclaration VNull
             [ExportSpecifier (Identifier (VStr "a"))
                (Identifier (VStr "a"))]])
     <> convert shortest_free_name
          [ExportDefaultDeclaration (Literal (VNum 42));
           ExportNamedDeclaration VNull
             [ExportSpecifier (Identifier (VStr "a"))
                (Identifier (VStr "a"))]].
Proof.
  split; [reflexivity|]. intros H. vm_compute in H. discriminate.
Qed.

(** ** The scenarios of the specification, run with the sample allocator *)

Example scenario_side_effect_import :
  convert shortest_free_name [ImportDeclaration [] "a"]
  = [getDefine [getArrayExpression [Literal (VStr "a")];
                getFunctionExpression [] [useStrict]]].
Proof. reflexivity. Qed.

Example scenario_default_import :
  convert shortest_free_name
    [ImportDeclaration [ImportDefaultSpecifier "foo"] "a"]
  = [getDefine [getArrayExpression [Literal (VStr "a")];
                getFunctionExpression [Identifier (VStr "foo")]
                  [useStrict]]].
Proof. reflexivity. Qed.

Example scenario_namespace_import :
  convert shortest_free_name
    [ImportDeclaration [ImportNamespaceSpecifier "foo"] "a"]
  = [getDefine [getArrayExpression [Literal (VStr "a")];
                getFunctionExpression [Identifier (VStr "foo")]
                  [useStrict]]].
Proof. reflexivity. Qed.

(** [import {x, y} from 'm'; f(x, y)]: one parameter for the two names,
    here [a], and the references rewritten to [a.x] and [a.y]. *)
Example scenario_grouped_imports :
  convert shortest_free_name
    [ImportDeclaration
       [ImportSpecifier "x" "x"; ImportSpecifier "y" "y"] "m";
     ExpressionStatement
       (CallExpression (Identifier (VStr "f"))
          [Identifier (VStr "x"); Identifier (VStr "y")])]
  = [getDefine
       [getArrayExpression [Literal (VStr "m")];
        getFunctionExpression [Identifier (VStr "a")]
          [useStrict;
           ExpressionStatement
             (CallExpression (Identifier (VStr "f"))
                [MemberExpression (Identifier (VStr "a"))
                   (Identifier (VStr "x"));
                 MemberExpression (Identifier (VStr "a"))
                   (Identifier (VStr "y"))])]]].
Proof. reflexivity. Qed.

Example scenario_renamed_import :
  convert shortest_free_name
    [ImportDeclaration [ImportSpecifier "x" "y"] "a"]
  = [getDefine [getArrayExpression [Literal (VStr "a")];
                getFunctionExpression [Identifier (VStr "y")]
                  [useStrict]]].
Proof. reflexivity. Qed.

(** A default import and a grouped import of one module: the module is
    listed twice, once for each parameter. *)
Example scenario_default_and_grouped :
  convert shortest_free_name
    [ImportDeclaration
       [ImportDefaultSpecifier "d"; ImportSpecifier "x" "x"] "m"]
  = [getDefine
       [getArrayExpression [Literal (VStr "m"); Literal (VStr "m")];
        getFunctionExpression
          [Identifier (VStr "d"); Identifier (VStr "a")]
          [useStrict]]].
Proof. reflexivity. Qed.

Example scenario_export_default :
  convert shortest_free_name [ExportDefaultDeclaration (Literal (VNum 42))]
  = [getDefineWithFunctionExpression
       [useStrict;
        VObj [("type", VStr "ReturnStatement");
              ("declaration", Literal (VNum 42));
              ("argument", Literal (VNum 42))]]].
Proof. reflexivity. Qed.

Example scenario_export_declaration :
  convert shortest_free_name
    [ExportNamedDeclaration
       (VariableDeclaration
          [VariableDeclarator (Identifier (VStr "a")) (Literal (VNum 1))]
          "const") []]
  = [getDefineWithFunctionExpression
       [useStrict;
        VariableDeclaration
          [VariableDeclarator (Identifier (VStr "a")) (Literal (VNum 1))]
          "const";
        ReturnStatement
          (VObj [("type", VStr "ObjectExpression");
                 ("properties",
                   VArr [getProperty (Identifier (VStr "a")) VUndefined])])]].
Proof. reflexivity. Qed.

Example scenario_export_specifiers :
  convert shortest_free_name
    [ExportNamedDeclaration VNull
       [ExportSpecifier (Identifier (VStr "a")) (Identifier (VStr "a"));
        ExportSpecifier (Identifier (VStr "b")) (Identifier (VStr "c"))]]
  = [getDefineWithFunctionExpression
       [useStrict;
        ReturnStatement
          (VObj [("type", VStr "ObjectExpression");
                 ("properties",
                   VArr [getProperty (Identifier (VStr "a")) (VBool true);
                         getProperty (Identifier (VStr "b"))
                           (VBool true)])])]].
Proof. reflexivity. Qed.

(** A second pass of the rewriter would rewrite the property of the
    member expression the first pass built; one pass leaves it. *)
Example rewriter_single_pass :
  let pairs :=
    [VObj [("param", VStr "a"); ("element", VStr "m"); ("name", VStr "x")]] in
  normalizePairs pairs [Identifier (VStr "x")]
  = [MemberExpression (Identifier (VStr "a")) (Identifier (VStr "x"))]
  /\ normalizePairs pairs (normalizePairs pairs [Identifier (VStr "x")])
     = [MemberExpression (Identifier (VStr "a"))
          (MemberExpression (Identifier (VStr "a"))
             (Identifier (VStr "x")))].
Proof. split; reflexivity. Qed.

(** ** The sample allocator avoids the names it is given *)

Lemma next_letters_ok (ds : list nat) :
  Forall (fun d => d <= 25) ds ->
  Forall (fun d => d <= 25) (next_letters ds)
  /\ letters_rank (next_letters ds) = S (letters_rank ds).
Proof.
  induction 1 as [|d ds Hd Hds IH]; simpl.
  - split; [repeat constructor; lia|reflexivity].
  - destruct (Nat.ltb d 25) eqn:E.
    + apply Nat.ltb_lt in E. split; [constructor; [lia|exact Hds]|].
      simpl. lia.
    + apply Nat.ltb_ge in E. destruct IH as [IH1 IH2].
      split; [constructor; [lia|exact IH1]|]. simpl. lia.
Qed.

Lemma map_injective_on (A B : Type) (f : A -> B) (P : A -> Prop)
  (l1 l2 : list A) :
  (forall x y, P x -> P y -> f x = f y -> x = y) ->
  Forall P l1 -> Forall P l2 -> map f l1 = map f l2 -> l1 = l2.
Proof.
  intros Hf H1. revert l2.
  induction H1 as [|x l1 Hx H1 IH]; intros [|y l2] H2 E;
    try discriminate; [reflexivity|].
  inversion H2; subst. simpl in E. injection E as E1 E2.
  f_equal; [now apply Hf|now apply IH].
Qed.

Lemma letters_name_injective (ds1 ds2 : list nat) :
  Forall (fun d => d <= 25) ds1 ->
  Forall (fun d => d <= 25) ds2 ->
  letters_name ds1 = letters_name ds2 -> ds1 = ds2.
Proof.
  intros H1 H2 E. unfold letters_name in E.
  apply (f_equal list_ascii_of_string) in E.
  rewrite !list_ascii_of_string_of_list_ascii in E.
  apply (map_injective_on _ _ _ (fun d => d <= 25)) in E.
  - rewrite <- (rev_involutive ds1), <- (rev_involutive ds2).
    now rewrite E.
  - intros x y Hx Hy Exy. apply (f_equal nat_of_ascii) in Exy.
    rewrite !nat_ascii_embedding in Exy by lia. lia.
  - now apply Forall_rev.
  - now apply Forall_rev.
Qed.

Lemma first_free_avoids (fuel : nat) (ds : list nat)
  (excluded : list value) :
  Forall (fun d => d <= 25) ds ->
  (forall l, NoDup l ->
     (forall x, In x l ->
        In x excluded
        /\ exists ds', Forall (fun d => d <= 25) ds'
                       /\ letters_rank ds <= letters_rank ds'
                       /\ x = VStr (letters_name ds')) ->
     List.length l <= fuel) ->
  ~ In (VStr (first_free fuel ds excluded)) excluded.
Proof.
  revert ds. induction fuel as [|fuel IH]; intros ds Hds Hl;
    cbn [first_free];
    destruct (existsb (value_eqb (VStr (letters_name ds))) excluded) eqn:E;
    try (intros Hin; apply existsb_value_eqb in Hin; congruence).
  - apply existsb_value_eqb in E. exfalso.
    specialize (Hl [VStr (letters_name ds)]). simpl in Hl.
    assert (1 <= 0); [|lia].
    apply Hl; [constructor; [tauto|constructor]|].
    intros x [<-|[]]. split; [exact E|]. exists ds. auto.
  - apply existsb_value_eqb in E.
    destruct (next_letters_ok ds Hds) as [Hok Hrank].
    apply IH; [exact Hok|]. intros l Hnd Hin.
    assert (Hlen : List.length (VStr (letters_name ds) :: l) <= S fuel).
    { apply Hl.
      - constructor; [|exact Hnd]. intros Hc.
        destruct (Hin _ Hc) as [_ [ds' [Hds' [Hr [= Hn]]]]].
        apply letters_name_injective in Hn; [|assumption|assumption].
        subst ds'. lia.
      - intros x [<-|Hx].
        + split; [exact E|]. exists ds. auto.
        + destruct (Hin x Hx) as [Hex [ds' [Hds' [Hr Hn]]]].
          split; [exact Hex|]. exists ds'. repeat split; auto. lia. }
    simpl in Hlen. lia.
Qed.

Lemma shortest_free_name_avoids (excluded : list value) :
  ~ In (VStr (shortest_free_name excluded)) excluded.
Proof.
  unfold shortest_free_name. apply first_free_avoids.
  - repeat constructor.
  - intros l Hnd Hin. apply NoDup_incl_length; [exact Hnd|].
    intros x Hx. now apply Hin.
Qed.

(** X1: with an allocator that never returns one of the names it is
    given, two grouped imports of different modules have different
    parameters, when neither module specifier is [__proto__], the key
    the map does not store. *)
Theorem getDependencyPairs_module_parameters_differ
  (identifier : list value -> string) (t : tree) (p q : value) :
  (forall excluded, ~ In (VStr (identifier excluded)) excluded) ->
  In p (getDependencyPairs identifier t) ->
  In q (getDependencyPairs identifier t) ->
  has_key "name" p = true ->
  has_key "name" q = true ->
  to_string (get "element" p) <> "__proto__" ->
  to_string (get "element" q) <> "__proto__" ->
  to_string (get "element" p) <> to_string (get "element" q) ->
  get "param" p <> get "param" q.
Proof. apply getDependencyPairs_distinct_modules. Qed.

Lemma getDependencyPairs_module_parameters_differ_witness :
  get "param"
    (VObj [("param", VStr "a"); ("element", VStr "m"); ("name", VStr "x")])
  <> get "param"
       (VObj [("param", VStr "b"); ("element", VStr "n"); ("name", VStr "y")]).
Proof.
  apply (getDependencyPairs_module_parameters_differ shortest_free_name
           [ImportDeclaration [ImportSpecifier "x" "x"] "m";
            ImportDeclaration [ImportSpecifier "y" "y"] "n"]).
  - exact shortest_free_name_avoids.
  - simpl. left. reflexivity.
  - simpl. right. left. reflexivity.
  - reflexivity.
  - reflexivity.
  - discriminate.
  - discriminate.
  - discriminate.
Defined.

(** The hypothesis on the module specifiers is needed: the parameter
    allocated for ['__proto__'] is not kept, and the next module is given
    the same one. *)
Example getDependencyPairs_proto_shared
  (identifier : list value -> string) :
  map (fun pair => get "param" pair)
    (getDependencyPairs identifier
       [ImportDeclaration [ImportSpecifier "x" "x"] "__proto__";
        ImportDeclaration [ImportSpecifier "y" "y"] "m"])
  = [VStr (identifier [VUndefined]); VStr (identifier [VUndefined])].
Proof. reflexivity. Qed.

(** ** The resolver: the pairs it returns *)

Section ResolverShapes.

Variable identifier : list value -> string.
Variable ids : list value.

Lemma specifierPair_shape (node specifier : value) (m : memo) :
  import_specifier specifier = true ->
  dependency_pair (fst (specifierPair identifier ids node specifier m)).
Proof.
  unfold import_specifier, specifierPair. intros H.
  destruct (has_type "ImportDefaultSpecifier" specifier
            || has_type "ImportNamespaceSpecifier" specifier).
  { right. left. unfold getLocalSpecifier. simpl. eauto. }
  simpl in H. rewrite H.
  destruct (negb _).
  { right. left. unfold getLocalSpecifier. simpl. eauto. }
  right. right.
  destruct (hasOwnProperty _ m) eqn:Hk; simpl; [|eauto].
  destruct (memo_get_In _ _ Hk) as [p [-> _]]. eauto.
Qed.

Lemma specifierPairs_shape (node : value) (specifiers : list value)
  (m : memo) :
  forallb import_specifier specifiers = true ->
  Forall dependency_pair
    (fst (specifierPairs identifier ids node specifiers m)).
Proof.
  revert m. induction specifiers as [|s rest IH]; intros m Hs;
    [constructor|].
  cbn [forallb] in Hs. apply andb_true_iff in Hs as [Hs Hrest].
  cbn [specifierPairs].
  pose proof (specifierPair_shape node s m Hs) as H1.
  destruct (specifierPair identifier ids node s m) as [r m1].
  specialize (IH m1 Hrest).
  destruct (specifierPairs identifier ids node rest m1) as [rs m2].
  now constructor.
Qed.

Lemma importPairs_shape (node : value) (specifiers : list value)
  (m : memo) :
  get "specifiers" node = VArr specifiers ->
  forallb import_specifier specifiers = true ->
  Forall dependency_pair
    (flatten_item (fst (importPairs identifier ids node m))).
Proof.
  intros Hspecs Hs. unfold importPairs.
  destruct (isSideEffectImportDeclaration node).
  { constructor; [|constructor]. left. simpl. eauto. }
  rewrite Hspecs.
  pose proof (specifierPairs_shape node specifiers m Hs) as H.
  destruct (specifierPairs_records identifier ids node specifiers m)
    as [_ [_ F]].
  destruct (specifierPairs identifier ids node specifiers m) as [rs m'].
  cbn [fst flatten_item] in *. now rewrite F.
Qed.

Lemma importsPairs_shape (imports : list value) (m : memo) :
  (forall node, In node imports ->
     exists specifiers,
       get "specifiers" node = VArr specifiers
       /\ forallb import_specifier specifiers = true) ->
  Forall dependency_pair
    (flatten (fst (importsPairs identifier ids imports m))).
Proof.
  revert m. induction imports as [|node rest IH]; intros m Hi;
    [constructor|].
  cbn [importsPairs].
  destruct (Hi node (or_introl eq_refl)) as [specifiers [Hspecs Hs]].
  pose proof (importPairs_shape node specifiers m Hspecs Hs) as H1.
  destruct (importPairs identifier ids node m) as [r m1].
  assert (IH' : Forall dependency_pair
                  (flatten (fst (importsPairs identifier ids rest m1)))).
  { apply IH. intros n Hn. apply Hi. now right. }
  destruct (importsPairs identifier ids rest m1) as [rs m2].
  unfold flatten in *. cbn [fst flat_map] in *. apply Forall_app.
  now split.
Qed.

End ResolverShapes.

(** X2: when every import declaration has an array of specifiers of the
    three ESTree types, every pair of the resolver has one of three
    shapes: [{element}] for a side-effect import, [{element, param}]
    for a specifier bound under its local name, and
    [{param, element, name}] with an allocated parameter name for a
    grouped specifier.  So [element] is always present, and [name]
    comes only with an allocated [param]. *)
Theorem getDependencyPairs_shapes (identifier : list value -> string)
  (t : tree) (pair : value) :
  (forall node, In node (find "ImportDeclaration" t) ->
     exists specifiers,
       get "specifiers" node = VArr specifiers
       /\ forallb import_specifier specifiers = true) ->
  In pair (getDependencyPairs identifier t) ->
  dependency_pair pair.
Proof.
  intros Hi Hp. unfold getDependencyPairs in Hp.
  pose proof (importsPairs_shape identifier
                (unique (map (fun item => get "name" item)
                           (find "ImportDeclaration" t)))
                (find "ImportDeclaration" t) [] Hi) as H.
  rewrite Forall_forall in H. now apply H.
Qed.

Lemma getDependencyPairs_shapes_witness :
  dependency_pair
    (VObj [("param", VStr "a"); ("element", VStr "m"); ("name", VStr "x")]).
Proof.
  apply (getDependencyPairs_shapes shortest_free_name
           [ImportDeclaration [] "s";
            ImportDeclaration
              [ImportDefaultSpecifier "d"; ImportSpecifier "x" "x"] "m"]).
  - intros node [<-|[<-|[]]]; eexists; split; reflexivity.
  - simpl. right. right. left. reflexivity.
Defined.

(** X3: every unrenamed named specifier of an import declaration has its
    pair in the result: it owns a [name], its [element] is the module
    specifier of the declaration and its [name] is the local name. *)
Theorem getDependencyPairs_grouped_complete
  (identifier : list value -> string) (t : tree) (node : value)
  (specifiers : list value) (s : value) :
  In node (find "ImportDeclaration" t) ->
  get "specifiers" node = VArr specifiers ->
  In s specifiers ->
  unrenamed s = true ->
  exists pair,
    In pair (getDependencyPairs identifier t)
    /\ has_key "name" pair = true
    /\ get "element" pair = get "value" (get "source" node)
    /\ get "name" pair = get "name" (get "local" s).
Proof.
  intros Hnode Hspecs Hs Hu. unfold unrenamed in Hu.
  apply andb_true_iff in Hu as [Hty Hname]. apply value_eqb_eq in Hname.
  now apply (getDependencyPairs_grouped_In identifier t node specifiers s).
Qed.

Lemma getDependencyPairs_grouped_complete_witness :
  exists pair,
    In pair
      (getDependencyPairs shortest_free_name
         [ImportDeclaration
            [ImportSpecifier "x" "x"; ImportSpecifier "y" "y"] "m"])
    /\ has_key "name" pair = true
    /\ get "element" pair
       = get "value"
           (get "source"
              (ImportDeclaration
                 [ImportSpecifier "x" "x"; ImportSpecifier "y" "y"] "m"))
    /\ get "name" pair = get "name" (get "local" (ImportSpecifier "y" "y")).
Proof.
  apply (getDependencyPairs_grouped_complete shortest_free_name
           [ImportDeclaration
              [ImportSpecifier "x" "x"; ImportSpecifier "y" "y"] "m"]
           (ImportDeclaration
              [ImportSpecifier "x" "x"; ImportSpecifier "y" "y"] "m")
           [ImportSpecifier "x" "x"; ImportSpecifier "y" "y"]
           (ImportSpecifier "y" "y")).
  - simpl. left. reflexivity.
  - reflexivity.
  - simpl. right. left. reflexivity.
  - reflexivity.
Defined.

Section ResolverLocal.

Variable identifier : list value -> string.
Variable ids : list value.

Lemma specifierPair_local (node specifier : value) (m : memo) :
  import_specifier specifier = true ->
  unrenamed specifier = false ->
  specifierPair identifier ids node specifier m
  = (getLocalSpecifier node specifier, m).
Proof.
  unfold import_specifier, unrenamed, specifierPair. intros Hs Hu.
  destruct (has_type "ImportDefaultSpecifier" specifier
            || has_type "ImportNamespaceSpecifier" specifier);
    [reflexivity|].
  simpl in Hs. rewrite Hs in *. simpl in Hu. now rewrite Hu.
Qed.

End ResolverLocal.

(** X4: a side-effect import has the pair [{element}] of its module
    specifier in the result, and a default, namespace or renamed
    specifier has the pair [{element, param}] that binds the module
    under its local name. *)
Theorem getDependencyPairs_local_complete
  (identifier : list value -> string) (t : tree) (node : value) :
  In node (find "ImportDeclaration" t) ->
  (isSideEffectImportDeclaration node = true ->
   In (VObj [("element", get "value" (get "source" node))])
     (getDependencyPairs identifier t))
  /\ (forall specifiers s,
        get "specifiers" node = VArr specifiers ->
        In s specifiers ->
        import_specifier s = true ->
        unrenamed s = false ->
        In (VObj [("element", get "value" (get "source" node));
                  ("param", get "name" (get "local" s))])
          (getDependencyPairs identifier t)).
Proof.
  intros Hnode. unfold getDependencyPairs.
  set (imports := find "ImportDeclaration" t) in *.
  set (ids := unique (map (fun item => get "name" item) imports)).
  destruct (importsPairs_In identifier ids imports [] node Hnode)
    as [m1 H1].
  split.
  - intros Hside. apply H1. unfold importPairs. rewrite Hside.
    now left.
  - intros specifiers s Hspecs Hs Hi Hu.
    destruct (importPairs_In identifier ids node specifiers m1 s Hspecs Hs)
      as [m' H2].
    rewrite (specifierPair_local identifier ids node s m' Hi Hu) in H2.
    now apply H1.
Qed.

Lemma getDependencyPairs_local_complete_witness :
  In (VObj [("element", VStr "m"); ("param", VStr "y")])
    (getDependencyPairs shortest_free_name
       [ImportDeclaration [ImportSpecifier "x" "y"] "m"]).
Proof.
  apply (proj2
           (getDependencyPairs_local_complete shortest_free_name
              [ImportDeclaration [ImportSpecifier "x" "y"] "m"]
              (ImportDeclaration [ImportSpecifier "x" "y"] "m")
              (or_introl eq_refl))
           [ImportSpecifier "x" "y"] (ImportSpecifier "x" "y")).
  - reflexivity.
  - simpl. left. reflexivity.
  - reflexivity.
  - reflexivity.
Defined.

(** ** The resolver: the first allocation and the runs without one *)

Section FirstAllocation.

Variable identifier : list value -> string.
Variable ids : list value.

(** Starting from the empty map, either nothing was allocated, or the
    first grouped pair has the name allocated against [ids] alone. *)
Lemma specifierPairs_first_allocation (node : value)
  (specifiers : list value) :
  let r := specifierPairs identifier ids node specifiers [] in
  (snd r = [] /\ Forall (fun p => has_key "name" p = false) (fst r))
  \/ exists p,
       In p (fst r) /\ has_key "name" p = true
       /\ get "param" p
          = VStr (identifier (unique (flatten ids) ++ memo_values [])).
Proof.
  induction specifiers as [|s rest IH]; cbn [specifierPairs].
  - left. split; [reflexivity|constructor].
  - pose proof (specifierPair_grouped identifier ids node s []) as Hg.
    assert (Hm : has_key "name"
                   (fst (specifierPair identifier ids node s [])) = false ->
                 snd (specifierPair identifier ids node s []) = []).
    { unfold specifierPair.
      destruct (_ || _); [reflexivity|].
      destruct (has_type "ImportSpecifier" s); [|reflexivity].
      destruct (negb _); [reflexivity|]. simpl. discriminate. }
    assert (Hp : has_key "name"
                   (fst (specifierPair identifier ids node s [])) = true ->
                 get "param" (fst (specifierPair identifier ids node s []))
                 = VStr (identifier
                           (unique (flatten ids) ++ memo_values []))).
    { unfold specifierPair.
      destruct (_ || _); [discriminate|].
      destruct (has_type "ImportSpecifier" s); [|discriminate].
      destruct (negb _); [discriminate|]. reflexivity. }
    destruct (specifierPair identifier ids node s []) as [r m1].
    cbn [fst snd] in *.
    destruct (has_key "name" r) eqn:E.
    + right. exists r.
      destruct (specifierPairs identifier ids node rest m1) as [rs m2].
      cbn [fst]. split; [now left|]. split; [exact E|now apply Hp].
    + rewrite (Hm eq_refl).
      destruct (specifierPairs identifier ids node rest []) as [rs m2].
      cbn [fst snd] in *.
      destruct IH as [[-> Hn]|[p [Hin Hrest]]].
      * left. split; [reflexivity|now constructor].
      * right. exists p. split; [now right|exact Hrest].
Qed.

Lemma importsPairs_first_allocation (imports : list value) :
  let r := importsPairs identifier ids imports [] in
  (snd r = []
   /\ Forall (fun p => has_key "name" p = false) (flatten (fst r)))
  \/ exists p,
       In p (flatten (fst r)) /\ has_key "name" p = true
       /\ get "param" p
          = VStr (identifier (unique (flatten ids) ++ memo_values [])).
Proof.
  induction imports as [|node rest IH]; cbn [importsPairs].
  - left. split; [reflexivity|constructor].
  - assert (H1 : let r := importPairs identifier ids node [] in
                 (snd r = []
                  /\ Forall (fun p => has_key "name" p = false)
                       (flatten_item (fst r)))
                 \/ exists p,
                      In p (flatten_item (fst r))
                      /\ has_key "name" p = true
                      /\ get "param" p
                         = VStr (identifier
                                   (unique (flatten ids)
                                      ++ memo_values []))).
    { unfold importPairs.
      destruct (isSideEffectImportDeclaration node).
      { left. split; [reflexivity|]. now repeat constructor. }
      destruct (get "specifiers" node) as [| | | | |specifiers|];
        try (left; split; [reflexivity|now repeat constructor]).
      pose proof (specifierPairs_first_allocation node specifiers) as H.
      destruct (specifierPairs_records identifier ids node specifiers [])
        as [_ [_ F]].
      destruct (specifierPairs identifier ids node specifiers [])
        as [rs m']. cbn [fst snd flatten_item] in *. now rewrite F. }
    destruct (importPairs identifier ids node []) as [r m1].
    cbn [fst snd] in *. unfold flatten. cbn [flat_map].
    destruct H1 as [[-> Hn]|[p [Hin Hrest]]].
    + destruct (importsPairs identifier ids rest []) as [rs m2].
      cbn [fst snd] in *. unfold flatten in IH.
      destruct IH as [[-> Hn']|[p [Hin Hrest]]].
      * left. split; [reflexivity|]. apply Forall_app. now split.
      * right. exists p. split; [|exact Hrest]. apply in_or_app.
        now right.
    + right. exists p.
      destruct (importsPairs identifier ids rest m1) as [rs m2].
      cbn [fst]. split; [|exact Hrest]. apply in_or_app. now left.
Qed.

End FirstAllocation.

(** X5: whatever names the module imports or uses, the parameter of its
    first grouped import is the name the allocator returns for the list
    [[undefined]]: the import declarations have no [name] property, so
    the names collected for the allocator are that list. *)
Theorem getDependencyPairs_first_parameter
  (identifier : list value -> string) (t : tree) (q : value) :
  (forall node, In node (find "ImportDeclaration" t) ->
     get "name" node = VUndefined) ->
  In q (getDependencyPairs identifier t) ->
  has_key "name" q = true ->
  exists p,
    In p (getDependencyPairs identifier t)
    /\ has_key "name" p = true
    /\ get "param" p = VStr (identifier [VUndefined]).
Proof.
  intros Hnames Hq Nq. unfold getDependencyPairs in *.
  set (imports := find "ImportDeclaration" t) in *.
  assert (Hne : imports <> []).
  { intros E. rewrite E in Hq. destruct Hq. }
  rewrite (ids_of_imports imports Hne Hnames) in *.
  destruct (importsPairs_first_allocation identifier [VUndefined] imports)
    as [[_ Hn]|H].
  - rewrite Forall_forall in Hn. rewrite (Hn q Hq) in Nq. discriminate.
  - exact H.
Qed.

Lemma getDependencyPairs_first_parameter_witness :
  exists p,
    In p
      (getDependencyPairs shortest_free_name
         [ImportDeclaration [ImportDefaultSpecifier "a"] "n";
          ImportDeclaration [ImportSpecifier "x" "x"] "m"])
    /\ has_key "name" p = true
    /\ get "param" p = VStr (shortest_free_name [VUndefined]).
Proof.
  apply (getDependencyPairs_first_parameter shortest_free_name
           [ImportDeclaration [ImportDefaultSpecifier "a"] "n";
            ImportDeclaration [ImportSpecifier "x" "x"] "m"]
           (VObj [("param", VStr "a"); ("element", VStr "m");
                  ("name", VStr "x")])).
  - intros node [<-|[<-|[]]]; reflexivity.
  - simpl. right. left. reflexivity.
  - reflexivity.
Defined.

(** ** The rewriter: what it leaves alone *)

Lemma existsb_false_In (A : Type) (f : A -> bool) (l : list A) :
  existsb f l = false -> forall x, In x l -> f x = false.
Proof. intros H x Hx. exact (existsb_false A f l x H Hx). Qed.

Lemma replace_leave_in_no_references (pairs : list value) (v : value) :
  references pairs v = false ->
  replace_leave_in (leaveReference pairs) v = v.
Proof.
  induction v using value_deep_ind; intros Hr; try reflexivity.
  - cbn [replace_leave_in references] in *. f_equal.
    apply map_fixed. intros x Hx. apply H; [exact Hx|].
    exact (existsb_false_In _ _ _ Hr x Hx).
  - cbn [references] in Hr. apply orb_false_iff in Hr as [Hhead Hbelow].
    cbn [replace_leave_in].
    rewrite (map_fixed _
               (fun f => (fst f,
                          replace_leave_in (leaveReference pairs) (snd f)))
               fs).
    + unfold leaveReference.
      destruct (has_type "Identifier" (VObj fs)); [|reflexivity].
      cbn [andb] in Hhead.
      destruct (indexOf _ _); [discriminate|reflexivity].
    + intros [k x] Hx. simpl. f_equal. apply (H k x Hx).
      exact (existsb_false_In _ _ _ Hbelow (k, x) Hx).
Qed.

(** X6: a tree in which no Identifier bears the name of a grouped pair
    is returned by the rewriter as it is. *)
Theorem normalizePairs_no_references (pairs : list value) (t : tree) :
  existsb (references pairs) t = false ->
  normalizePairs pairs t = t.
Proof.
  intros Hr. rewrite normalizePairs_unfold. apply map_fixed.
  intros s Hs. apply replace_leave_in_no_references.
  exact (existsb_false_In _ _ _ Hr s Hs).
Qed.

Lemma normalizePairs_no_references_witness :
  normalizePairs
    [VObj [("param", VStr "a"); ("element", VStr "m"); ("name", VStr "x")]]
    [ExpressionStatement
       (CallExpression (Identifier (VStr "f")) [Identifier (VStr "y")])]
  = [ExpressionStatement
       (CallExpression (Identifier (VStr "f")) [Identifier (VStr "y")])].
Proof.
  apply (normalizePairs_no_references
           [VObj [("param", VStr "a"); ("element", VStr "m");
                  ("name", VStr "x")]]
           [ExpressionStatement
              (CallExpression (Identifier (VStr "f"))
                 [Identifier (VStr "y")])]).
  reflexivity.
Defined.

Lemma references_no_grouped (pairs : list value) (v : value) :
  grouped pairs = [] -> references pairs v = false.
Proof.
  intros Hg. induction v using value_deep_ind; try reflexivity.
  - cbn [references]. apply not_true_is_false. intros E.
    apply existsb_exists in E as [x [Hx E]]. rewrite (H x Hx) in E.
    discriminate.
  - cbn [references]. rewrite Hg. cbn [map indexOf].
    rewrite andb_false_r. cbn [orb].
    apply not_true_is_false. intros E.
    apply existsb_exists in E as [[k x] [Hx E]]. simpl in E.
    rewrite (H k x Hx) in E. discriminate.
Qed.

(** ** The resolver: modules without unrenamed named imports *)

Section NoGroupedImports.

Variable ids : list value.
Variables identifier1 identifier2 : list value -> string.

Lemma specifierPair_no_unrenamed (node specifier : value) (m1 m2 : memo) :
  unrenamed specifier = false ->
  fst (specifierPair identifier1 ids node specifier m1)
  = fst (specifierPair identifier2 ids node specifier m2)
  /\ snd (specifierPair identifier1 ids node specifier m1) = m1
  /\ get "name" (fst (specifierPair identifier1 ids node specifier m1))
     = VUndefined.
Proof.
  unfold unrenamed, specifierPair. intros Hu.
  destruct (has_type "ImportDefaultSpecifier" specifier
            || has_type "ImportNamespaceSpecifier" specifier);
    [now repeat split|].
  destruct (has_type "ImportSpecifier" specifier); [|now repeat split].
  cbn [andb] in Hu. rewrite Hu. now repeat split.
Qed.

Lemma specifierPairs_no_unrenamed (node : value) (specifiers : list value)
  (m1 m2 : memo) :
  forallb (fun s => negb (unrenamed s)) specifiers = true ->
  fst (specifierPairs identifier1 ids node specifiers m1)
  = fst (specifierPairs identifier2 ids node specifiers m2)
  /\ snd (specifierPairs identifier1 ids node specifiers m1) = m1
  /\ Forall (fun p => get "name" p = VUndefined)
       (fst (specifierPairs identifier1 ids node specifiers m1)).
Proof.
  revert m1 m2. induction specifiers as [|s rest IH]; intros m1 m2 Hs;
    cbn [specifierPairs].
  - now repeat split.
  - cbn [forallb] in Hs. apply andb_true_iff in Hs as [Hs Hrest].
    apply negb_true_iff in Hs.
    destruct (specifierPair_no_unrenamed node s m1 m2 Hs) as [E [S N]].
    destruct (specifierPair identifier1 ids node s m1) as [r1 n1].
    destruct (specifierPair identifier2 ids node s m2) as [r2 n2].
    cbn [fst snd] in *. subst.
    destruct (IH m1 n2 Hrest) as [E' [S' N']].
    destruct (specifierPairs identifier1 ids node rest m1) as [rs1 k1].
    destruct (specifierPairs identifier2 ids node rest n2) as [rs2 k2].
    cbn [fst snd] in *. subst. repeat split. now constructor.
Qed.

Lemma importPairs_no_unrenamed (node : value) (m1 m2 : memo) :
  (forall specifiers, get "specifiers" node = VArr specifiers ->
     forallb (fun s => negb (unrenamed s)) specifiers = true) ->
  fst (importPairs identifier1 ids node m1)
  = fst (importPairs identifier2 ids node m2)
  /\ snd (importPairs identifier1 ids node m1) = m1
  /\ Forall (fun p => get "name" p = VUndefined)
       (flatten_item (fst (importPairs identifier1 ids node m1))).
Proof.
  intros Hs. unfold importPairs.
  destruct (isSideEffectImportDeclaration node).
  { now repeat split; repeat constructor. }
  destruct (get "specifiers" node) as [| | | | |specifiers|];
    try (now repeat split; repeat constructor).
  destruct (specifierPairs_no_unrenamed node specifiers m1 m2
              (Hs specifiers eq_refl)) as [E [S N]].
  destruct (specifierPairs_records identifier1 ids node specifiers m1)
    as [_ [_ Hflat]].
  destruct (specifierPairs identifier1 ids node specifiers m1) as [rs1 k1].
  destruct (specifierPairs identifier2 ids node specifiers m2) as [rs2 k2].
  cbn [fst snd flatten_item] in *. subst. rewrite Hflat. now repeat split.
Qed.

Lemma importsPairs_no_unrenamed (imports : list value) (m1 m2 : memo) :
  (forall node specifiers, In node imports ->
     get "specifiers" node = VArr specifiers ->
     forallb (fun s => negb (unrenamed s)) specifiers = true) ->
  fst (importsPairs identifier1 ids imports m1)
  = fst (importsPairs identifier2 ids imports m2)
  /\ snd (importsPairs identifier1 ids imports m1) = m1
  /\ Forall (fun p => get "name" p = VUndefined)
       (flatten (fst (importsPairs identifier1 ids imports m1))).
Proof.
  revert m1 m2. induction imports as [|node rest IH]; intros m1 m2 Hi;
    cbn [importsPairs].
  - now repeat split.
  - assert (Hnode : forall specifiers,
              get "specifiers" node = VArr specifiers ->
              forallb (fun s => negb (unrenamed s)) specifiers = true).
    { intros specifiers. apply Hi. now left. }
    assert (Hrest : forall node0 specifiers, In node0 rest ->
              get "specifiers" node0 = VArr specifiers ->
              forallb (fun s => negb (unrenamed s)) specifiers = true).
    { intros n specifiers Hn. apply Hi. now right. }
    destruct (importPairs_no_unrenamed node m1 m2 Hnode) as [E [S N]].
    destruct (importPairs identifier1 ids node m1) as [r1 n1].
    destruct (importPairs identifier2 ids node m2) as [r2 n2].
    cbn [fst snd] in *. subst.
    destruct (IH m1 n2 Hrest) as [E' [S' N']].
    destruct (importsPairs identifier1 ids rest m1) as [rs1 k1].
    destruct (importsPairs identifier2 ids rest n2) as [rs2 k2].
    cbn [fst snd] in *. subst. repeat split.
    unfold flatten in *. cbn [flat_map]. apply Forall_app. now split.
Qed.

End NoGroupedImports.

(** X7: when no import declaration has an unrenamed named specifier,
    the allocator plays no part: the conversion gives the same tree for
    every allocator, and the rewriter, run with the pairs of the
    resolver, leaves every tree as it is. *)
Theorem convert_without_unrenamed_imports
  (identifier1 identifier2 : list value -> string) (t : tree) :
  (forall node specifiers, In node (find "ImportDeclaration" t) ->
     get "specifiers" node = VArr specifiers ->
     forallb (fun s => negb (unrenamed s)) specifiers = true) ->
  convert identifier1 t = convert identifier2 t
  /\ forall u, normalizePairs (getDependencyPairs identifier1 t) u = u.
Proof.
  intros H.
  set (ids := unique (map (fun item => get "name" item)
                        (find "ImportDeclaration" t))).
  destruct (importsPairs_no_unrenamed ids identifier1 identifier2
              (find "ImportDeclaration" t) [] [] H) as [E [_ F]].
  assert (Hp : getDependencyPairs identifier1 t
               = getDependencyPairs identifier2 t).
  { unfold getDependencyPairs. fold ids. now rewrite E. }
  split.
  - unfold convert, convertCodeWithImportDeclarations. now rewrite Hp.
  - intros u. unfold getDependencyPairs. fold ids.
    set (pairs := flatten _) in *.
    assert (Hg : grouped pairs = []).
    { unfold grouped. rewrite Forall_forall in F. clear -F.
      induction pairs as [|p pairs IH]; [reflexivity|]. simpl.
      rewrite (F p (or_introl eq_refl)). simpl. apply IH.
      intros x Hx. apply F. now right. }
    rewrite normalizePairs_unfold. apply map_fixed. intros s _.
    apply replace_leave_in_no_references.
    now apply references_no_grouped.
Qed.

Lemma convert_without_unrenamed_imports_witness :
  convert shortest_free_name
    [ImportDeclaration [ImportDefaultSpecifier "d"] "m";
     ExpressionStatement (Identifier (VStr "d"))]
  = convert (fun _ => "z")
      [ImportDeclaration [ImportDefaultSpecifier "d"] "m";
       ExpressionStatement (Identifier (VStr "d"))].
Proof.
  apply (convert_without_unrenamed_imports shortest_free_name
           (fun _ => "z")
           [ImportDeclaration [ImportDefaultSpecifier "d"] "m";
            ExpressionStatement (Identifier (VStr "d"))]).
  intros node specifiers [<-|[]] [= <-]. reflexivity.
Defined.

(** ** The import path, step by step *)

Lemma filter_all (A : Type) (f : A -> bool) (l : list A) :
  forallb f l = true -> filter f l = l.
Proof.
  induction l as [|x l IH]; simpl; [reflexivity|]. intros H.
  apply andb_true_iff in H as [H1 H2]. rewrite H1. now rewrite IH.
Qed.

Lemma has_type_exclusive (ty1 ty2 : string) (v : value) :
  ty1 <> ty2 -> has_type ty1 v = true -> has_type ty2 v = false.
Proof.
  intros Hne H. apply not_true_is_false. intros H'.
  apply has_type_iff in H, H'. congruence.
Qed.

Lemma existsb_filter_kept (f g : value -> bool) (t : tree) :
  (forall s, f s = true -> g s = true) ->
  existsb f (filter g t) = existsb f t.
Proof.
  intros H. induction t as [|s t IH]; simpl; [reflexivity|].
  destruct (g s) eqn:G; simpl; [now rewrite IH|].
  destruct (f s) eqn:F; [|exact IH].
  rewrite (H s F) in G. discriminate.
Qed.

Lemma import_path_rest (identifier : list value -> string) (t : tree) :
  top_level_only t = true ->
  let rest :=
    normalizePairs (getDependencyPairs identifier t)
      (filter (fun s => negb (has_type "ImportDeclaration" s)) t) in
  top_level_only rest = true
  /\ existsb (has_type "ImportDeclaration") rest = false
  /\ existsb (has_type "ExportDefaultDeclaration") rest
     = existsb (has_type "ExportDefaultDeclaration") t
  /\ existsb (has_type "ExportNamedDeclaration") rest
     = existsb (has_type "ExportNamedDeclaration") t.
Proof.
  intros Ht rest.
  pose proof (getDependencyPairs_clean identifier t Ht) as Hp.
  destruct (normalizePairs_top_level (getDependencyPairs identifier t) Hp
              (filter (fun s => negb (has_type "ImportDeclaration" s)) t)
              (filter_top_level _ t Ht)) as [H1 H2].
  fold rest in H1, H2. split; [exact H1|].
  rewrite !H2 by (simpl; auto). split; [apply existsb_filter_negb|].
  split; apply existsb_filter_kept; intros s Hs; apply negb_true_iff.
  - apply (has_type_exclusive "ExportDefaultDeclaration" _ s);
      [discriminate|exact Hs].
  - apply (has_type_exclusive "ExportNamedDeclaration" _ s);
      [discriminate|exact Hs].
Qed.

Lemma import_path_unfold (identifier : list value -> string) (t : tree) :
  top_level_only t = true ->
  let pairs := getDependencyPairs identifier t in
  let rest :=
    normalizePairs pairs
      (filter (fun s => negb (has_type "ImportDeclaration" s)) t) in
  convertCodeWithImportDeclarations identifier t
  = wrapWithDefineWithArrayExpression pairs
      (useStrict
         :: (if has "ExportDefaultDeclaration" rest
             then convertExportDefaultDeclarationToReturn rest
             else if has "ExportNamedDeclaration" rest
                  then convertExportNamedDeclarations rest
                  else rest)).
Proof.
  intros Ht pairs rest. unfold convertCodeWithImportDeclarations.
  rewrite (remove_top_level "ImportDeclaration" t)
    by (simpl; auto || exact Ht).
  reflexivity.
Qed.

(** X10: with imports, the conversion is the assembled call over the
    pairs of the resolver; the block of its factory is the directive
    followed by the statements that are not imports, rewritten and in
    their order, where a default export is turned into a return
    statement in place, or else the named exports are unwrapped and one
    return statement of the export object is appended, or else, without
    exports, nothing is added. *)
Theorem convert_import_path (identifier : list value -> string)
  (t : tree) :
  top_level_only t = true ->
  has "ImportDeclaration" t = true ->
  let pairs := getDependencyPairs identifier t in
  let rest :=
    normalizePairs pairs
      (filter (fun s => negb (has_type "ImportDeclaration" s)) t) in
  exists block,
    convert identifier t
    = wrapWithDefineWithArrayExpression pairs (useStrict :: block)
    /\ (has "ExportDefaultDeclaration" t = true ->
        block = map exportDefaultToReturn rest)
    /\ (has "ExportDefaultDeclaration" t = false ->
        has "ExportNamedDeclaration" t = true ->
        block
        = flat_map unwrapExportNamed rest
            ++ [ReturnStatement
                  (getObjectExpression
                     (filter (has_type "ExportNamedDeclaration") rest))])
    /\ (has "ExportDefaultDeclaration" t = false ->
        has "ExportNamedDeclaration" t = false ->
        block = rest).
Proof.
  intros Ht Hi pairs rest.
  destruct (import_path_rest identifier t Ht) as [H1 [_ [H3 H4]]].
  fold pairs in H1, H3, H4. fold rest in H1, H3, H4.
  unfold convert. rewrite Hi, (import_path_unfold identifier t Ht).
  cbv zeta. fold pairs. fold rest.
  rewrite !(has_top_level _ rest) by (simpl; auto || exact H1).
  rewrite !(has_top_level _ t) by (simpl; auto || exact Ht).
  rewrite H3, H4.
  destruct (existsb (has_type "ExportDefaultDeclaration") t).
  - eexists. split; [reflexivity|].
    split; [|split; discriminate]. intros _.
    now apply convertExportDefaultDeclarationToReturn_top_level.
  - destruct (existsb (has_type "ExportNamedDeclaration") t).
    + eexists. split; [reflexivity|].
      split; [discriminate|]. split; [|discriminate]. intros _ _.
      now apply convertExportNamedDeclarations_top_level.
    + eexists. split; [reflexivity|].
      split; [discriminate|]. split; [discriminate|]. reflexivity.
Qed.

Lemma convert_import_path_witness :
  exists block,
    convert shortest_free_name
      [ImportDeclaration [ImportSpecifier "x" "x"] "m";
       ExpressionStatement (Identifier (VStr "x"))]
    = wrapWithDefineWithArrayExpression
        (getDependencyPairs shortest_free_name
           [ImportDeclaration [ImportSpecifier "x" "x"] "m";
            ExpressionStatement (Identifier (VStr "x"))])
        (useStrict :: block)
    /\ block
       = [ExpressionStatement
            (MemberExpression (Identifier (VStr "a"))
               (Identifier (VStr "x")))].
Proof.
  destruct (convert_import_path shortest_free_name
              [ImportDeclaration [ImportSpecifier "x" "x"] "m";
               ExpressionStatement (Identifier (VStr "x"))]
              eq_refl eq_refl)
    as [block [H1 [_ [_ H4]]]].
  exists block. split; [exact H1|]. exact (H4 eq_refl eq_refl).
Defined.

(** ** No import is left *)

Lemma exportDefaultToReturn_statement (s : value) :
  clean_below s = true ->
  has_type "ImportDeclaration" s = false ->
  clean_below (exportDefaultToReturn s) = true
  /\ has_type "ImportDeclaration" (exportDefaultToReturn s) = false.
Proof.
  intros Hs Hi. unfold exportDefaultToReturn.
  destruct (has_type "ExportDefaultDeclaration" s) eqn:E; [|now split].
  destruct (has_type_object _ _ E) as [fs ->].
  rewrite returnOfExportDefault_fields. split.
  - cbn [clean_below]. apply clean_assign; [now apply clean_lookup|].
    now apply clean_assign.
  - apply value_eqb_neq. cbn [get].
    rewrite lookup_assign_other by reflexivity.
    rewrite lookup_assign_same. discriminate.
Qed.

Lemma default_step_no_import (t : tree) :
  top_level_only t = true ->
  existsb (has_type "ImportDeclaration") t = false ->
  top_level_only (map exportDefaultToReturn t) = true
  /\ existsb (has_type "ImportDeclaration") (map exportDefaultToReturn t)
     = false.
Proof.
  unfold top_level_only. induction t as [|s t IH]; [now split|].
  cbn [forallb existsb map]. intros Ht Hi.
  apply andb_true_iff in Ht as [Hs Ht].
  apply orb_false_iff in Hi as [Hsi Hi].
  destruct (exportDefaultToReturn_statement s Hs Hsi) as [H1 H2].
  destruct (IH Ht Hi) as [H3 H4]. now rewrite H1, H2, H3, H4.
Qed.

Lemma ReturnStatement_not_import (argument : value) :
  has_type "ImportDeclaration" (ReturnStatement argument) = false.
Proof. reflexivity. Qed.

Lemma named_step_no_import (t : tree) :
  top_level_only t = true ->
  existsb (has_type "ImportDeclaration") t = false ->
  let body :=
    flat_map unwrapExportNamed t
      ++ [ReturnStatement
            (getObjectExpression
               (filter (has_type "ExportNamedDeclaration") t))] in
  top_level_only body = true
  /\ existsb (has_type "ImportDeclaration") body = false.
Proof.
  intros Ht Hi body. subst body. unfold top_level_only in *.
  rewrite forallb_app, existsb_app. cbn [forallb existsb].
  rewrite forallb_forall in Ht.
  assert (Hret : clean_below
                   (ReturnStatement
                      (getObjectExpression
                         (filter (has_type "ExportNamedDeclaration") t)))
                 = true).
  { apply clean_clean_below. rewrite clean_ReturnStatement.
    apply getObjectExpression_clean. intros d Hd.
    apply filter_In in Hd as [Hd _]. now apply Ht. }
  rewrite Hret. split.
  - rewrite andb_true_r. apply forallb_forall. intros x Hx.
    apply in_flat_map in Hx as [s [Hs Hx]].
    now apply (unwrapExportNamed_kept s x (Ht s Hs)).
  - rewrite ReturnStatement_not_import.
    rewrite !orb_false_r. apply not_true_is_false. intros E.
    apply existsb_exists in E as [x [Hx E]].
    apply in_flat_map in Hx as [s [Hs Hx]].
    pose proof (existsb_false _ _ _ s Hi Hs) as Hsi.
    unfold unwrapExportNamed in Hx.
    destruct (has_type "ExportNamedDeclaration" s).
    + destruct (truthy _); [|destruct Hx]. destruct Hx as [<-|[]].
      rewrite (clean_has_type "ImportDeclaration" _) in E;
        [discriminate|simpl; auto|].
      apply clean_below_get. now apply Ht.
    + destruct Hx as [<-|[]]. congruence.
Qed.

Lemma find_define_block (ty : string) (before params body : list value) :
  In ty module_kinds ->
  forallb clean before = true ->
  forallb clean params = true ->
  find ty [getDefine (before ++ [getFunctionExpression params body])]
  = find ty body.
Proof.
  intros Hty Hb Hp. rewrite find_getDefine by exact Hty.
  rewrite flat_map_app. cbn [flat_map].
  rewrite find_in_getFunctionExpression by exact Hty.
  rewrite forallb_forall in Hb, Hp.
  rewrite (flat_map_nil _ _ (find_in ty) before)
    by (intros x Hx; apply find_in_clean; auto).
  rewrite (flat_map_nil _ _ (find_in ty) params)
    by (intros x Hx; apply find_in_clean; auto).
  cbn [app]. now rewrite app_nil_r.
Qed.

Lemma has_false_find (ty : string) (t : tree) :
  find ty t = [] -> has ty t = false.
Proof. unfold has. now intros ->. Qed.

Lemma find_define_array (ty : string) (array : value)
  (params body : list value) :
  In ty module_kinds ->
  clean array = true ->
  forallb clean params = true ->
  find ty [getDefine [array; getFunctionExpression params body]]
  = find ty body.
Proof.
  intros Hty Ha Hp. apply (find_define_block ty [array]); auto.
  cbn [forallb]. now rewrite Ha.
Qed.

Lemma find_define_function (ty : string) (body : list value) :
  In ty module_kinds ->
  find ty [getDefine [getFunctionExpression [] body]] = find ty body.
Proof. intros Hty. now apply (find_define_block ty [] []). Qed.

(** X11: when the import and export declarations of the input are
    statements of the body, the output has no ImportDeclaration node,
    whatever export forms the input has. *)
Theorem convert_removes_imports (identifier : list value -> string)
  (t : tree) :
  top_level_only t = true ->
  has "ImportDeclaration" (convert identifier t) = false.
Proof.
  intros Ht.
  assert (Hbody : forall body,
            top_level_only body = true ->
            existsb (has_type "ImportDeclaration") body = false ->
            find "ImportDeclaration" (useStrict :: body) = []).
  { intros body H1 H2.
    rewrite (find_top_level "ImportDeclaration" (useStrict :: body))
      by (simpl; auto || exact H1).
    cbn [filter]. replace (has_type "ImportDeclaration" useStrict)
      with false by reflexivity.
    induction body as [|s body IH]; [reflexivity|].
    cbn [existsb filter] in *. apply orb_false_iff in H2 as [-> H2].
    apply IH; [|exact H2]. unfold top_level_only in *.
    cbn [forallb] in H1. now apply andb_true_iff in H1. }
  unfold convert. destruct (has "ImportDeclaration" t) eqn:Hi.
  - rewrite (import_path_unfold identifier t Ht). cbv zeta.
    destruct (import_path_rest identifier t Ht) as [H1 [H2 _]].
    set (pairs := getDependencyPairs identifier t) in *.
    set (rest := normalizePairs pairs _) in *.
    pose proof (getDependencyPairs_clean identifier t Ht) as Hp.
    fold pairs in Hp.
    unfold wrapWithDefineWithArrayExpression, wrap.
    apply has_false_find. rewrite find_define_array.
    + rewrite !(has_top_level _ rest) by (simpl; auto || exact H1).
      destruct (existsb (has_type "ExportDefaultDeclaration") rest).
      * rewrite (convertExportDefaultDeclarationToReturn_top_level rest H1).
        destruct (default_step_no_import rest H1 H2) as [H3 H4].
        now rewrite Hbody.
      * destruct (existsb (has_type "ExportNamedDeclaration") rest).
        -- rewrite (convertExportNamedDeclarations_top_level rest H1).
           destruct (named_step_no_import rest H1 H2) as [H3 H4].
           now rewrite Hbody.
        -- now rewrite Hbody.
    + simpl; auto.
    + rewrite clean_getArrayExpression.
      apply forallb_forall. intros x Hx.
      apply in_map_iff in Hx as [e [<- He]].
      apply in_map_iff in He as [pair [<- Hin]].
      apply unique_by_from_In in Hin. cbn.
      now rewrite (clean_get "element" _ (Hp _ Hin)).
    + apply forallb_forall. intros x Hx.
      apply in_map_iff in Hx as [e [<- He]].
      apply in_map_iff in He as [pair [<- Hin]].
      apply filter_In in Hin as [Hin _].
      apply unique_by_from_In in Hin. cbn.
      now rewrite (clean_get "param" _ (Hp _ Hin)).
  - rewrite has_top_level in Hi by (simpl; auto).
    destruct (has "ExportDefaultDeclaration" t).
    + rewrite (convertExportDefaultDeclarationToDefine_top_level t Ht).
      unfold getDefineWithFunctionExpression.
      apply has_false_find.
      rewrite find_define_function by (simpl; auto).
      destruct (default_step_no_import t Ht Hi) as [H3 H4].
      now rewrite Hbody.
    + destruct (has "ExportNamedDeclaration" t).
      * unfold convertExportNamedDeclarationToDefine, wrap.
        unfold prependUseStrictLiteral, prepend. fold useStrict.
        rewrite convertExportNamedDeclarations_top_level by exact Ht.
        unfold getDefineWithFunctionExpression.
        apply has_false_find.
        rewrite find_define_function by (simpl; auto).
        destruct (named_step_no_import (useStrict :: t) Ht Hi) as [H3 H4].
        rewrite (find_top_level "ImportDeclaration" _ (or_introl eq_refl) H3).
        clear -H4. induction (_ ++ _) as [|s l IH]; [reflexivity|].
        cbn [existsb filter] in *. apply orb_false_iff in H4 as [-> H4].
        now apply IH.
      * rewrite has_top_level by (simpl; auto). exact Hi.
Qed.

Lemma convert_removes_imports_witness :
  has "ImportDeclaration"
    (convert shortest_free_name
       [ImportDeclaration [ImportDefaultSpecifier "d"] "m";
        ExportDefaultDeclaration (Identifier (VStr "d"));
        ExportNamedDeclaration VNull
          [ExportSpecifier (Identifier (VStr "d"))
             (Identifier (VStr "d"))]])
  = false.
Proof.
  apply (convert_removes_imports shortest_free_name
           [ImportDeclaration [ImportDefaultSpecifier "d"] "m";
            ExportDefaultDeclaration (Identifier (VStr "d"));
            ExportNamedDeclaration VNull
              [ExportSpecifier (Identifier (VStr "d"))
                 (Identifier (VStr "d"))]]).
  reflexivity.
Defined.

(** ** Exports of declarations and re-exports *)

Lemma top_level_clean (l : list value) :
  forallb clean l = true -> top_level_only l = true.
Proof.
  unfold top_level_only. intros H. rewrite forallb_forall in *.
  intros s Hs. apply clean_clean_below. now apply H.
Qed.

Lemma existsb_has_type_clean (ty : string) (l : list value) :
  In ty module_kinds -> forallb clean l = true ->
  existsb (has_type ty) l = false.
Proof.
  intros Hty H. rewrite forallb_forall in H.
  apply not_true_is_false. intros E.
  apply existsb_exists in E as [s [Hs E]].
  rewrite (clean_has_type ty s Hty (H s Hs)) in E. discriminate.
Qed.

Lemma filter_has_type_clean (ty : string) (l : list value) :
  In ty module_kinds -> forallb clean l = true ->
  filter (has_type ty) l = [].
Proof.
  intros Hty. induction l as [|s l IH]; [reflexivity|].
  cbn [forallb filter]. intros H. apply andb_true_iff in H as [Hs Hl].
  now rewrite (clean_has_type ty s Hty Hs), IH.
Qed.

Lemma unwrapExportNamed_clean (l : list value) :
  forallb clean l = true -> flat_map unwrapExportNamed l = l.
Proof.
  induction l as [|s l IH]; [reflexivity|].
  cbn [forallb flat_map]. intros H. apply andb_true_iff in H as [Hs Hl].
  unfold unwrapExportNamed at 1.
  rewrite (clean_has_type "ExportNamedDeclaration" s) by (simpl; auto).
  cbn [app]. now rewrite IH.
Qed.

(** X13: a module without import and without default export in which
    one statement is the export of a declaration that is not a
    VariableDeclaration (a function or a class), among statements
    without import or export, becomes the call of [define] with one
    function expression without parameters, whose block is the
    directive, the statements in their order with the declaration in
    the place of the export, and the return of an ObjectExpression with
    one Property: its key and its value are the [id] of the declaration
    and it has no [shorthand] flag.  The specifiers of the export node
    are not read. *)
Theorem convert_export_declaration (identifier : list value -> string)
  (before after : list value) (d : value) :
  forallb clean before = true ->
  forallb clean after = true ->
  has_type "ExportNamedDeclaration" d = true ->
  clean_below d = true ->
  truthy (get "declaration" d) = true ->
  has_type "VariableDeclaration" (get "declaration" d) = false ->
  convert identifier (before ++ d :: after)
  = [ExpressionStatement
       (CallExpression (Identifier (VStr "define"))
          [FunctionExpression []
             (ExpressionStatement (Literal (VStr "use strict"))
                :: before
                ++ get "declaration" d
                :: after
                ++ [ReturnStatement
                      (ObjectExpression
                         [VObj [("type", VStr "Property");
                                ("key", get "id" (get "declaration" d));
                                ("value", get "id" (get "declaration" d));
                                ("shorthand", VUndefined);
                                ("kind", VStr "init")]])])])].
Proof.
  intros Hb Ha Hd Hc Hi Hv.
  assert (Ht : top_level_only (before ++ d :: after) = true).
  { unfold top_level_only. rewrite forallb_app. cbn [forallb].
    fold (top_level_only before). fold (top_level_only after).
    now rewrite !top_level_clean, Hc. }
  assert (Hkind : forall ty, In ty module_kinds ->
            existsb (has_type ty) (before ++ d :: after) = has_type ty d).
  { intros ty Hty. rewrite existsb_app. cbn [existsb].
    rewrite !existsb_has_type_clean by assumption.
    now rewrite orb_false_r. }
  unfold convert.
  rewrite !has_top_level by (simpl; auto || exact Ht).
  rewrite !Hkind by (simpl; auto).
  rewrite (has_type_exclusive "ExportNamedDeclaration" "ImportDeclaration" d)
    by (discriminate || exact Hd).
  rewrite (has_type_exclusive "ExportNamedDeclaration"
             "ExportDefaultDeclaration" d) by (discriminate || exact Hd).
  rewrite Hd.
  rewrite convertExportNamedDeclarationToDefine_top_level by exact Ht.
  assert (Hkept : flat_map unwrapExportNamed (before ++ d :: after)
                  = before ++ get "declaration" d :: after).
  { rewrite flat_map_app. cbn [flat_map].
    rewrite !unwrapExportNamed_clean by assumption.
    unfold unwrapExportNamed. now rewrite Hd, Hi. }
  assert (Hfound : filter (has_type "ExportNamedDeclaration")
                     (before ++ d :: after) = [d]).
  { rewrite filter_app. cbn [filter]. rewrite Hd.
    now rewrite !filter_has_type_clean by (simpl; auto || assumption). }
  rewrite Hkept, Hfound, getObjectExpression_exported.
  - cbn [flat_map]. unfold exportedProperties. cbv zeta.
    rewrite Hi, Hv, <- app_assoc. reflexivity.
  - cbn [forallb]. unfold export_well_formed. cbv zeta.
    now rewrite Hi, Hv.
Qed.

Lemma convert_export_declaration_witness :
  convert shortest_free_name
    [ExpressionStatement (Identifier (VStr "g"));
     ExportNamedDeclaration
       (FunctionDeclaration (Identifier (VStr "f")) [] []) [];
     ExpressionStatement (Identifier (VStr "h"))]
  = [ExpressionStatement
       (CallExpression (Identifier (VStr "define"))
          [FunctionExpression []
             [ExpressionStatement (Literal (VStr "use strict"));
              ExpressionStatement (Identifier (VStr "g"));
              FunctionDeclaration (Identifier (VStr "f")) [] [];
              ExpressionStatement (Identifier (VStr "h"));
              ReturnStatement
                (ObjectExpression
                   [Property (Identifier (VStr "f"))
                      (Identifier (VStr "f")) VUndefined])]])].
Proof.
  apply (convert_export_declaration shortest_free_name
           [ExpressionStatement (Identifier (VStr "g"))]
           [ExpressionStatement (Identifier (VStr "h"))]
           (ExportNamedDeclaration
              (FunctionDeclaration (Identifier (VStr "f")) [] []) []));
    reflexivity.
Defined.



(** ** Both export forms after imports *)

(** X16: with imports too, a module that has both a default export and
    named exports is converted for its default export only: the output
    still has an ExportNamedDeclaration node. *)
Theorem convert_import_path_keeps_named_exports
  (identifier : list value -> string) (t : tree) :
  top_level_only t = true ->
  has "ImportDeclaration" t = true ->
  has "ExportDefaultDeclaration" t = true ->
  has "ExportNamedDeclaration" t = true ->
  has "ExportNamedDeclaration" (convert identifier t) = true.
Proof.
  intros Ht Hi Hd Hn.
  rewrite has_top_level in Hd, Hn by (simpl; auto).
  unfold convert. rewrite Hi, (import_path_unfold identifier t Ht).
  cbv zeta.
  destruct (import_path_rest identifier t Ht) as [H1 [_ [H3 H4]]].
  pose proof (getDependencyPairs_clean identifier t Ht) as Hp.
  set (pairs := getDependencyPairs identifier t) in *.
  set (rest := normalizePairs pairs _) in *.
  rewrite Hd in H3. rewrite Hn in H4.
  rewrite (has_top_level "ExportDefaultDeclaration" rest)
    by (simpl; auto || exact H1).
  rewrite H3, (convertExportDefaultDeclarationToReturn_top_level rest H1).
  apply has_true_iff.
  unfold wrapWithDefineWithArrayExpression, wrap.
  rewrite find_define_array.
  - apply existsb_exists in H4 as [s [Hs E]]. intros Hnil.
    assert (Hin : In s (find "ExportNamedDeclaration"
                          (useStrict :: map exportDefaultToReturn rest))).
    { unfold find. apply in_flat_map. exists s. split.
      - right. apply in_map_iff. exists s. split; [|exact Hs].
        unfold exportDefaultToReturn.
        now rewrite (has_type_exclusive "ExportNamedDeclaration"
                       "ExportDefaultDeclaration" s).
      - destruct (has_type_object _ _ E) as [fs ->].
        cbn [find_in]. rewrite E. now left. }
    rewrite Hnil in Hin. exact Hin.
  - simpl; auto.
  - rewrite clean_getArrayExpression.
    apply forallb_forall. intros x Hx.
    apply in_map_iff in Hx as [e [<- He]].
    apply in_map_iff in He as [pair [<- Hin]].
    apply unique_by_from_In in Hin. cbn.
    now rewrite (clean_get "element" _ (Hp _ Hin)).
  - apply forallb_forall. intros x Hx.
    apply in_map_iff in Hx as [e [<- He]].
    apply in_map_iff in He as [pair [<- Hin]].
    apply filter_In in Hin as [Hin _].
    apply unique_by_from_In in Hin. cbn.
    now rewrite (clean_get "param" _ (Hp _ Hin)).
Qed.

Lemma convert_import_path_keeps_named_exports_witness :
  has "ExportNamedDeclaration"
    (convert shortest_free_name
       [ImportDeclaration [ImportDefaultSpecifier "d"] "m";
        ExportDefaultDeclaration (Identifier (VStr "d"));
        ExportNamedDeclaration VNull
          [ExportSpecifier (Identifier (VStr "d"))
             (Identifier (VStr "d"))]])
  = true.
Proof.
  apply (convert_import_path_keeps_named_exports shortest_free_name
           [ImportDeclaration [ImportDefaultSpecifier "d"] "m";
            ExportDefaultDeclaration (Identifier (VStr "d"));
            ExportNamedDeclaration VNull
              [ExportSpecifier (Identifier (VStr "d"))
                 (Identifier (VStr "d"))]]);
    reflexivity.
Defined.

(** ** The order of the pairs *)

Section ResolverOrder.

Variable identifier : list value -> string.
Variable ids : list value.

Lemma specifierPairs_flat (node : value) (specifiers : list value)
  (m : memo) :
  flat_map flatten_item
    (fst (specifierPairs identifier ids node specifiers m))
  = fst (specifierPairs identifier ids node specifiers m).
Proof.
  now destruct (specifierPairs_records identifier ids node specifiers m)
    as [_ [_ F]].
Qed.

Lemma specifierPair_element (node specifier : value) (m : memo) :
  import_specifier specifier = true ->
  get "element" (fst (specifierPair identifier ids node specifier m))
  = get "value" (get "source" node).
Proof.
  unfold import_specifier, specifierPair. intros H.
  destruct (has_type "ImportDefaultSpecifier" specifier
            || has_type "ImportNamespaceSpecifier" specifier);
    [reflexivity|].
  simpl in H. rewrite H. destruct (negb _); [reflexivity|].
  now destruct (hasOwnProperty _ m).
Qed.

Lemma specifierPair_local_name (node specifier : value) (m : memo) :
  import_specifier specifier = true ->
  pair_local (fst (specifierPair identifier ids node specifier m))
  = get "name" (get "local" specifier).
Proof.
  unfold import_specifier, specifierPair. intros H.
  destruct (has_type "ImportDefaultSpecifier" specifier
            || has_type "ImportNamespaceSpecifier" specifier);
    [reflexivity|].
  simpl in H. rewrite H. destruct (negb _); [reflexivity|].
  now destruct (hasOwnProperty _ m).
Qed.

Lemma specifierPairs_order (node : value) (specifiers : list value)
  (m : memo) :
  forallb import_specifier specifiers = true ->
  map (fun pair => (get "element" pair, pair_local pair))
    (fst (specifierPairs identifier ids node specifiers m))
  = map (fun s => (get "value" (get "source" node),
                   get "name" (get "local" s)))
      specifiers.
Proof.
  revert m. induction specifiers as [|s rest IH]; intros m Hs;
    [reflexivity|].
  cbn [forallb] in Hs. apply andb_true_iff in Hs as [Hs Hrest].
  cbn [specifierPairs].
  pose proof (specifierPair_element node s m Hs) as H1.
  pose proof (specifierPair_local_name node s m Hs) as H2.
  destruct (specifierPair identifier ids node s m) as [r m1].
  specialize (IH m1 Hrest).
  destruct (specifierPairs identifier ids node rest m1) as [rs m2].
  cbn [fst map] in *. now rewrite H1, H2, IH.
Qed.

Lemma importPairs_order (node : value) (specifiers : list value)
  (m : memo) :
  has_type "Literal" (get "source" node) = true ->
  get "specifiers" node = VArr specifiers ->
  forallb import_specifier specifiers = true ->
  map (fun pair => (get "element" pair, pair_local pair))
    (flatten_item (fst (importPairs identifier ids node m)))
  = match specifiers with
    | [] => [(get "value" (get "source" node), VUndefined)]
    | _ :: _ =>
        map (fun s => (get "value" (get "source" node),
                       get "name" (get "local" s)))
          specifiers
    end.
Proof.
  intros Hl Hspecs Hs. unfold importPairs, isSideEffectImportDeclaration.
  rewrite Hl, Hspecs.
  assert (Ht : truthy (get "source" node) = true).
  { destruct (has_type_object _ _ Hl) as [fs ->]. reflexivity. }
  rewrite Ht. destruct specifiers as [|s rest]; [reflexivity|].
  cbn [array_length List.length andb].
  assert (Hz : value_eqb (VNum (Z.of_nat (S (List.length rest)))) (VNum 0)
               = false).
  { apply value_eqb_neq. intros H. discriminate H. }
  rewrite Hz.
  pose proof (specifierPairs_order node (s :: rest) m Hs) as H.
  pose proof (specifierPairs_flat node (s :: rest) m) as F.
  destruct (specifierPairs identifier ids node (s :: rest) m) as [rs m'].
  cbn [fst flatten_item] in *. now rewrite F.
Qed.

Lemma importsPairs_order (imports : list value) (m : memo) :
  (forall node, In node imports ->
     has_type "Literal" (get "source" node) = true
     /\ exists specifiers,
          get "specifiers" node = VArr specifiers
          /\ forallb import_specifier specifiers = true) ->
  map (fun pair => (get "element" pair, pair_local pair))
    (flatten (fst (importsPairs identifier ids imports m)))
  = flat_map
      (fun node =>
         match items_of (get "specifiers" node) with
         | [] => [(get "value" (get "source" node), VUndefined)]
         | _ :: _ =>
             map (fun s => (get "value" (get "source" node),
                            get "name" (get "local" s)))
               (items_of (get "specifiers" node))
         end)
      imports.
Proof.
  revert m. induction imports as [|node rest IH]; intros m Hi;
    [reflexivity|].
  cbn [importsPairs flat_map].
  destruct (Hi node (or_introl eq_refl)) as [Hl [specifiers [Hspecs Hs]]].
  pose proof (importPairs_order node specifiers m Hl Hspecs Hs) as H1.
  rewrite Hspecs. cbn [items_of].
  destruct (importPairs identifier ids node m) as [r m1].
  assert (IH' := IH m1 (fun n Hn => Hi n (or_intror Hn))).
  destruct (importsPairs identifier ids rest m1) as [rs m2].
  unfold flatten in *. cbn [fst flat_map] in *.
  now rewrite map_app, H1, IH'.
Qed.

End ResolverOrder.

(** X17: the pairs come in the order of the import declarations and,
    within a declaration, in the order of its specifiers.  When every
    import declaration has a Literal as source and an array of
    specifiers of the three ESTree types, the list of the pairs, each
    read as its module specifier and the local name it stands for, is,
    declaration after declaration, the module specifier alone for a
    declaration without specifiers and, otherwise, the module specifier
    with the local name of each specifier in turn. *)
Theorem getDependencyPairs_order (identifier : list value -> string)
  (t : tree) :
  (forall node, In node (find "ImportDeclaration" t) ->
     has_type "Literal" (get "source" node) = true
     /\ exists specifiers,
          get "specifiers" node = VArr specifiers
          /\ forallb import_specifier specifiers = true) ->
  map (fun pair => (get "element" pair, pair_local pair))
    (getDependencyPairs identifier t)
  = flat_map
      (fun node =>
         match items_of (get "specifiers" node) with
         | [] => [(get "value" (get "source" node), VUndefined)]
         | _ :: _ =>
             map (fun s => (get "value" (get "source" node),
                            get "name" (get "local" s)))
               (items_of (get "specifiers" node))
         end)
      (find "ImportDeclaration" t).
Proof.
  intros Hi. unfold getDependencyPairs.
  now apply importsPairs_order.
Qed.

Lemma getDependencyPairs_order_witness :
  map (fun pair => (get "element" pair, pair_local pair))
    (getDependencyPairs shortest_free_name
       [ImportDeclaration [] "s";
        ImportDeclaration
          [ImportSpecifier "y" "y"; ImportDefaultSpecifier "d";
           ImportSpecifier "x" "x"; ImportSpecifier "u" "v"] "m"])
  = [(VStr "s", VUndefined); (VStr "m", VStr "y"); (VStr "m", VStr "d");
     (VStr "m", VStr "x"); (VStr "m", VStr "v")].
Proof.
  rewrite (getDependencyPairs_order shortest_free_name
             [ImportDeclaration [] "s";
              ImportDeclaration
                [ImportSpecifier "y" "y"; ImportDefaultSpecifier "d";
                 ImportSpecifier "x" "x"; ImportSpecifier "u" "v"] "m"]).
  - reflexivity.
  - intros node [<-|[<-|[]]]; (split; [reflexivity|]); eexists; split;
      reflexivity.
Defined.

(** ** Modules with side-effect imports only *)

Lemma length_append (a b : string) :
  String.length (a ++ b) = String.length a + String.length b.
Proof. induction a as [|c a IH]; simpl; [reflexivity|now rewrite IH]. Qed.

Lemma append_cancel_right (a b u : string) :
  (a ++ u = b ++ u)%string -> a = b.
Proof.
  revert b. induction a as [|c a IH]; intros [|d b] E; simpl in E.
  - reflexivity.
  - apply (f_equal String.length) in E. simpl in E.
    rewrite length_append in E. lia.
  - apply (f_equal String.length) in E. simpl in E.
    rewrite length_append in E. lia.
  - injection E as -> E. f_equal. now apply IH.
Qed.

Lemma side_effect_key_seen (x : string) (seen : list string) :
  existsb (value_eqb (VStr (x ++ "undefined")))
    (map (fun s => VStr (s ++ "undefined")) seen)
  = existsb (value_eqb (VStr x)) (map VStr seen).
Proof.
  induction seen as [|s seen IH]; [reflexivity|]. cbn [map existsb].
  rewrite IH. f_equal. cbn [value_eqb].
  destruct (String.eqb x s) eqn:E.
  - apply String.eqb_eq in E. subst. apply String.eqb_refl.
  - apply String.eqb_neq. apply String.eqb_neq in E. intros H.
    apply E. now apply append_cancel_right in H.
Qed.

Lemma side_effect_pairs_unique (seen sources : list string) :
  map (fun pair => get "element" pair)
    (unique_by_from
       (fun item => js_add (get "element" item) (get "param" item))
       (map (fun s => VStr (s ++ "undefined")) seen)
       (map (fun s => VObj [("element", VStr s)]) sources))
  = unique_from (map VStr seen) (map VStr sources)
  /\ filter (fun pair => truthy (get "param" pair))
       (unique_by_from
          (fun item => js_add (get "element" item) (get "param" item))
          (map (fun s => VStr (s ++ "undefined")) seen)
          (map (fun s => VObj [("element", VStr s)]) sources))
     = [].
Proof.
  revert seen. induction sources as [|x sources IH]; intros seen;
    [now split|].
  cbn [map unique_by_from unique_from].
  change (js_add (get "element" (VObj [("element", VStr x)]))
            (get "param" (VObj [("element", VStr x)])))
    with (VStr (x ++ "undefined")).
  rewrite side_effect_key_seen.
  destruct (existsb (value_eqb (VStr x)) (map VStr seen)); [apply IH|].
  specialize (IH (seen ++ [x])). rewrite !map_app in IH. cbn [map] in IH.
  destruct IH as [IH1 IH2]. split.
  - cbn [map]. now rewrite IH1.
  - cbn [filter]. exact IH2.
Qed.

Lemma existsb_VStr (x : string) (seen : list string) :
  existsb (value_eqb (VStr x)) (map VStr seen)
  = existsb (String.eqb x) seen.
Proof.
  induction seen as [|s seen IH]; [reflexivity|].
  cbn [map existsb]. now rewrite IH.
Qed.

Lemma filter_filter (A : Type) (f g : A -> bool) (l : list A) :
  filter f (filter g l) = filter (fun x => g x && f x) l.
Proof.
  induction l as [|x l IH]; [reflexivity|]. cbn [filter].
  destruct (g x); cbn [filter andb]; [|exact IH].
  destruct (f x); now rewrite IH.
Qed.

(** [unique] keeps the first occurrences. *)
Lemma unique_from_first_occurrences (seen l : list string) :
  unique_from (map VStr seen) (map VStr l)
  = map VStr
      (filter (fun y => negb (existsb (String.eqb y) seen))
         (first_occurrences l)).
Proof.
  revert seen. induction l as [|x l IH]; intros seen; [reflexivity|].
  cbn [map unique_from first_occurrences filter].
  rewrite existsb_VStr.
  destruct (existsb (String.eqb x) seen) eqn:E; cbn [negb].
  - rewrite IH, filter_filter. f_equal. apply filter_ext. intros y.
    destruct (String.eqb y x) eqn:Eyx; [|reflexivity].
    apply String.eqb_eq in Eyx. subst y. now rewrite E.
  - cbn [map]. f_equal.
    change (map VStr seen ++ [VStr x]) with (map VStr seen ++ map VStr [x]).
    rewrite <- map_app, IH, filter_filter. f_equal. apply filter_ext.
    intros y. rewrite existsb_app. cbn [existsb].
    rewrite orb_false_r, negb_orb. apply andb_comm.
Qed.

Lemma unique_first_occurrences (l : list string) :
  unique (map VStr l) = map VStr (first_occurrences l).
Proof.
  unfold unique. change (@nil value) with (map VStr []).
  rewrite (unique_from_first_occurrences [] l).
  f_equal. apply filter_all. apply forallb_forall. reflexivity.
Qed.

Lemma side_effect_import_pair (identifier : list value -> string)
  (ids : list value) (node : value) (m : memo) :
  side_effect_import node = true ->
  importPairs identifier ids node m
  = (VObj [("element", get "value" (get "source" node))], m).
Proof.
  unfold side_effect_import, importPairs, isSideEffectImportDeclaration.
  intros H. apply andb_true_iff in H as [H Hs].
  apply andb_true_iff in H as [Hl _]. apply value_eqb_eq in Hs.
  rewrite Hl, Hs. destruct (has_type_object _ _ Hl) as [fs ->].
  reflexivity.
Qed.

Lemma side_effect_importsPairs (identifier : list value -> string)
  (ids : list value) (nodes : list value) (m : memo) :
  forallb side_effect_import nodes = true ->
  importsPairs identifier ids nodes m
  = (map (fun node => VObj [("element", get "value" (get "source" node))])
       nodes, m).
Proof.
  induction nodes as [|node nodes IH]; [reflexivity|].
  cbn [forallb]. intros H. apply andb_true_iff in H as [Hn Hr].
  cbn [map importsPairs].
  rewrite (side_effect_import_pair identifier ids node m Hn).
  now rewrite (IH Hr).
Qed.

(** The pairs of a body whose import statements are side-effect
    imports. *)
Lemma side_effect_sources (t : tree) :
  forallb (fun s => if has_type "ImportDeclaration" s
                    then clean_below s && side_effect_import s
                    else clean s) t = true ->
  forallb side_effect_import (filter (has_type "ImportDeclaration") t)
  = true
  /\ map (fun node => VObj [("element", get "value" (get "source" node))])
       (filter (has_type "ImportDeclaration") t)
     = map (fun source => VObj [("element", VStr source)])
         (import_sources t)
  /\ forallb clean
       (filter (fun s => negb (has_type "ImportDeclaration" s)) t) = true
  /\ top_level_only t = true.
Proof.
  unfold top_level_only, import_sources.
  induction t as [|s t IH]; [now repeat split|].
  cbn [forallb filter flat_map]. intros H.
  apply andb_true_iff in H as [Hs Ht].
  destruct (IH Ht) as [H1 [H2 [H3 H4]]].
  destruct (has_type "ImportDeclaration" s).
  - apply andb_true_iff in Hs as [Hc Hs]. cbn [negb forallb map].
    rewrite Hs, H1, Hc, H4.
    unfold side_effect_import in Hs.
    apply andb_true_iff in Hs as [Hs _].
    apply andb_true_iff in Hs as [_ Hs].
    destruct (get "value" (get "source" s)); try discriminate.
    cbn [app map]. now rewrite H2.
  - cbn [negb forallb app]. now rewrite Hs, H3, H4, (clean_clean_below _ Hs).
Qed.

(** X18: a module whose import statements are all side-effect imports
    (at least one), among statements without import or export, becomes
    the call of [define] with two arguments: the ArrayExpression of the
    module specifiers as Literals, each once, where it occurs first,
    and a function expression without parameters whose block is the
    directive followed by the other statements as they were. *)
Theorem convert_side_effect_imports (identifier : list value -> string)
  (t : tree) :
  has "ImportDeclaration" t = true ->
  forallb (fun s => if has_type "ImportDeclaration" s
                    then clean_below s && side_effect_import s
                    else clean s) t = true ->
  convert identifier t
  = [ExpressionStatement
       (CallExpression (Identifier (VStr "define"))
          [ArrayExpression
             (map (fun source => Literal (VStr source))
                (first_occurrences (import_sources t)));
           FunctionExpression []
             (ExpressionStatement (Literal (VStr "use strict"))
                :: filter (fun s => negb (has_type "ImportDeclaration" s))
                     t)])].
Proof.
  intros Hi H.
  destruct (side_effect_sources t H) as [Himp [Hsrc [Hb Ht]]].
  set (sources := import_sources t) in *.
  set (body := filter (fun s => negb (has_type "ImportDeclaration" s)) t)
    in *.
  assert (Hpairs : getDependencyPairs identifier t
                   = map (fun source => VObj [("element", VStr source)])
                       sources).
  { unfold getDependencyPairs.
    rewrite (find_top_level "ImportDeclaration" _ (or_introl eq_refl) Ht).
    rewrite (side_effect_importsPairs _ _ _ _ Himp). cbn [fst].
    unfold flatten. rewrite flatten_objects by reflexivity. exact Hsrc. }
  unfold convert. rewrite Hi.
  rewrite (import_path_unfold identifier t Ht).
  cbv zeta. rewrite Hpairs. fold body.
  set (pairs := map (fun source => VObj [("element", VStr source)]) sources).
  assert (Hg : grouped pairs = []).
  { unfold grouped, pairs. clear.
    induction sources as [|s sources IH]; [reflexivity|exact IH]. }
  assert (Hrest : normalizePairs pairs body = body).
  { rewrite normalizePairs_unfold. apply map_fixed. intros s _.
    apply replace_leave_in_no_references.
    now apply references_no_grouped. }
  rewrite Hrest.
  rewrite (clean_tree_has "ExportDefaultDeclaration" body)
    by (simpl; auto || exact Hb).
  rewrite (clean_tree_has "ExportNamedDeclaration" body)
    by (simpl; auto || exact Hb).
  unfold wrapWithDefineWithArrayExpression, wrap, unique_by.
  destruct (side_effect_pairs_unique [] sources) as [H1 H2].
  cbn [map] in H1, H2. fold pairs in H1, H2.
  rewrite H2, H1. fold (unique (map VStr sources)).
  rewrite unique_first_occurrences, map_map. reflexivity.
Qed.

Lemma convert_side_effect_imports_witness :
  convert shortest_free_name
    [ImportDeclaration [] "a";
     ExpressionStatement (Identifier (VStr "f"));
     ImportDeclaration [] "b";
     ImportDeclaration [] "a"]
  = [ExpressionStatement
       (CallExpression (Identifier (VStr "define"))
          [ArrayExpression [Literal (VStr "a"); Literal (VStr "b")];
           FunctionExpression []
             [ExpressionStatement (Literal (VStr "use strict"));
              ExpressionStatement (Identifier (VStr "f"))]])].
Proof.
  apply (convert_side_effect_imports shortest_free_name
           [ImportDeclaration [] "a";
            ExpressionStatement (Identifier (VStr "f"));
            ImportDeclaration [] "b";
            ImportDeclaration [] "a"]); reflexivity.
Defined.

(** ** The dependency array of grouped imports *)

Lemma NoDup_map_coarser (A B C : Type) (f : A -> B) (g : A -> C)
  (l : list A) :
  NoDup (map g l) ->
  (forall x y, In x l -> In y l -> f x = f y -> g x = g y) ->
  NoDup (map f l).
Proof.
  induction l as [|a l IH]; cbn [map]; intros N H; [constructor|].
  inversion N as [|? ? Ha N']; subst. constructor.
  - intros Hin. apply in_map_iff in Hin as [y [E Hy]]. apply Ha.
    apply in_map_iff. exists y. split; [|exact Hy].
    symmetry. apply H; [now left|now right|now symmetry].
  - apply IH; [exact N'|]. intros x y Hx Hy. apply H; now right.
Qed.

Section GroupedOnly.

Variable identifier : list value -> string.
Variable ids : list value.

Lemma specifierPairs_all_grouped (node : value) (specifiers : list value)
  (m : memo) :
  forallb unrenamed specifiers = true ->
  Forall (fun p => has_key "name" p = true
                   /\ get "element" p = get "value" (get "source" node))
    (fst (specifierPairs identifier ids node specifiers m)).
Proof.
  revert m. induction specifiers as [|s rest IH]; intros m Hs;
    [constructor|].
  cbn [forallb] in Hs. apply andb_true_iff in Hs as [Hs Hrest].
  cbn [specifierPairs].
  assert (Hi : import_specifier s = true).
  { unfold unrenamed in Hs. unfold import_specifier.
    apply andb_true_iff in Hs as [-> _]. apply orb_true_r. }
  pose proof (specifierPair_element identifier ids node s m Hi) as H1.
  assert (H2 : has_key "name" (fst (specifierPair identifier ids node s m))
               = true).
  { apply specifierPair_grouped. unfold unrenamed in Hs.
    apply andb_true_iff in Hs as [Hty Hn]. now apply value_eqb_eq in Hn. }
  destruct (specifierPair identifier ids node s m) as [r m1].
  specialize (IH m1 Hrest).
  destruct (specifierPairs identifier ids node rest m1) as [rs m2].
  cbn [fst] in *. constructor; [now split|exact IH].
Qed.

Lemma importsPairs_all_grouped (imports : list value) (m : memo) :
  forallb grouped_import imports = true ->
  Forall (fun p => has_key "name" p = true
                   /\ to_string (get "element" p) <> "__proto__"
                   /\ exists node,
                        In node imports
                        /\ get "value" (get "source" node)
                           = get "element" p)
    (flatten (fst (importsPairs identifier ids imports m))).
Proof.
  revert m. induction imports as [|node rest IH]; intros m Hi;
    [constructor|].
  cbn [forallb] in Hi. apply andb_true_iff in Hi as [Hn Hrest].
  cbn [importsPairs].
  assert (H1 : Forall (fun p => has_key "name" p = true
                                /\ to_string (get "element" p)
                                   <> "__proto__"
                                /\ get "value" (get "source" node)
                                   = get "element" p)
                 (flatten_item (fst (importPairs identifier ids node m)))).
  { unfold grouped_import in Hn. unfold importPairs.
    destruct (get "specifiers" node) as [| | | | |[|s specifiers]|] eqn:Hs;
      try discriminate.
    destruct (get "value" (get "source" node)) as [| | | |source| |] eqn:Hv;
      try discriminate.
    apply andb_true_iff in Hn as [Hu Hk]. unfold plain_key in Hk.
    apply andb_true_iff in Hk as [Hk _].
    apply negb_true_iff, String.eqb_neq in Hk.
    assert (Hside : isSideEffectImportDeclaration node = false).
    { unfold isSideEffectImportDeclaration. rewrite Hs.
      apply andb_false_iff. right. apply value_eqb_neq.
      cbn [array_length List.length]. intros H. discriminate H. }
    rewrite Hside.
    pose proof (specifierPairs_all_grouped node (s :: specifiers) m Hu) as H.
    pose proof (specifierPairs_flat identifier ids node (s :: specifiers) m)
      as F.
    destruct (specifierPairs identifier ids node (s :: specifiers) m)
      as [rs m'].
    cbn [fst flatten_item] in *. rewrite F.
    eapply Forall_impl; [|exact H]. intros p [Hp He].
    rewrite He, Hv. repeat split; [exact Hp|exact Hk]. }
  destruct (importPairs identifier ids node m) as [r m1].
  specialize (IH m1 Hrest).
  destruct (importsPairs identifier ids rest m1) as [rs m2].
  unfold flatten in *. cbn [fst flat_map] in *. apply Forall_app. split.
  - eapply Forall_impl; [|exact H1]. intros p [Hp [Hk He]].
    split; [exact Hp|]. split; [exact Hk|]. exists node.
    split; [now left|exact He].
  - eapply Forall_impl; [|exact IH]. intros p [Hp [Hk [n [Hin He]]]].
    split; [exact Hp|]. split; [exact Hk|]. exists n.
    split; [now right|exact He].
Qed.

End GroupedOnly.

(** X8: for a module all of whose import declarations are unrenamed
    named imports, of modules whose specifiers are strings other than
    [__proto__] and [hasOwnProperty], the output is the call of
    [define] with an ArrayExpression of Literals and a function
    expression; no module specifier stands twice in the array, however
    many declarations and specifiers import from it, and every
    specifier in the array is the source of an import declaration. *)
Theorem grouped_module_one_entry (identifier : list value -> string)
  (t : tree) :
  has "ImportDeclaration" t = true ->
  forallb grouped_import (find "ImportDeclaration" t) = true ->
  exists modules params block,
    convert identifier t
    = [ExpressionStatement
         (CallExpression (Identifier (VStr "define"))
            [ArrayExpression (map Literal modules);
             FunctionExpression params block])]
    /\ NoDup modules
    /\ forall module, In module modules ->
         exists node,
           In node (find "ImportDeclaration" t)
           /\ get "value" (get "source" node) = module.
Proof.
  intros Hi Hg. unfold convert. rewrite Hi.
  unfold convertCodeWithImportDeclarations, wrapWithDefineWithArrayExpression,
    wrap.
  set (pairs := getDependencyPairs identifier t).
  set (key := fun item => js_add (get "element" item) (get "param" item)).
  exists (map (fun pair => get "element" pair) (unique_by key pairs)).
  eexists. eexists. split; [reflexivity|].
  assert (Hall : Forall (fun p => has_key "name" p = true
                                  /\ to_string (get "element" p)
                                     <> "__proto__"
                                  /\ exists node,
                                       In node (find "ImportDeclaration" t)
                                       /\ get "value" (get "source" node)
                                          = get "element" p) pairs).
  { apply importsPairs_all_grouped. exact Hg. }
  rewrite Forall_forall in Hall. split.
  - apply (NoDup_map_coarser _ _ _ _ key); [apply unique_by_NoDup|].
    intros x y Hx Hy E. apply unique_by_from_In in Hx, Hy.
    destruct (Hall x Hx) as [Nx [Kx _]]. destruct (Hall y Hy) as [Ny _].
    unfold key. rewrite E.
    now rewrite (grouped_same_param identifier t x y Hx Hy Nx Ny E Kx).
  - intros module Hm. apply in_map_iff in Hm as [p [<- Hp]].
    apply unique_by_from_In in Hp.
    now destruct (Hall p Hp) as [_ [_ H]].
Qed.

Lemma grouped_module_one_entry_witness :
  exists modules params block,
    convert shortest_free_name
      [ImportDeclaration [ImportSpecifier "x" "x"] "m";
       ImportDeclaration [ImportSpecifier "y" "y"] "n";
       ImportDeclaration
         [ImportSpecifier "z" "z"; ImportSpecifier "w" "w"] "m";
       ExpressionStatement (Identifier (VStr "z"))]
    = [ExpressionStatement
         (CallExpression (Identifier (VStr "define"))
            [ArrayExpression (map Literal modules);
             FunctionExpression params block])]
    /\ NoDup modules.
Proof.
  destruct (grouped_module_one_entry shortest_free_name
              [ImportDeclaration [ImportSpecifier "x" "x"] "m";
               ImportDeclaration [ImportSpecifier "y" "y"] "n";
               ImportDeclaration
                 [ImportSpecifier "z" "z"; ImportSpecifier "w" "w"] "m";
               ExpressionStatement (Identifier (VStr "z"))]
              eq_refl eq_refl)
    as [modules [params [block [H1 [H2 _]]]]].
  exists modules, params, block. split; [exact H1|exact H2].
Defined.

(** The same module under the sample allocator: ['m'] stands once in
    the array, with the parameter [a] that its three names share. *)
Example convert_grouped_modules :
  convert shortest_free_name
    [ImportDeclaration [ImportSpecifier "x" "x"] "m";
     ImportDeclaration [ImportSpecifier "y" "y"] "n";
     ImportDeclaration
       [ImportSpecifier "z" "z"; ImportSpecifier "w" "w"] "m";
     ExpressionStatement (Identifier (VStr "z"))]
  = [ExpressionStatement
       (CallExpression (Identifier (VStr "define"))
          [ArrayExpression [Literal (VStr "m"); Literal (VStr "n")];
           FunctionExpression
             [Identifier (VStr "a"); Identifier (VStr "b")]
             [ExpressionStatement (Literal (VStr "use strict"));
              ExpressionStatement
                (MemberExpression (Identifier (VStr "a"))
                   (Identifier (VStr "z")))]])].
Proof. reflexivity. Qed.
